(** * Auto-retry engine (src/auto-retry/retry-engine.ts): model and properties

    The engine wraps a text-generation call in a bounded retry loop with a
    fallback cascade.  The model below follows retry-engine.ts function by
    function.  Asynchrony is made explicit: every invocation of the
    operation comes with a script of the things that happen while it is
    outstanding (timer ticks, token and abort notifications, the settlement
    of the underlying promise), and the engine's code is a state-passing
    function over the registry of generation contexts. *)

From Stdlib Require Import ZArith QArith Qpower Ascii.
From stdpp Require Import gmap strings list fin_maps.

Local Open Scope Z_scope.

(** ** Strings: [String.prototype.toLowerCase] and [String.prototype.includes]

    Strings are sequences of 8-bit characters; lower-casing acts on the
    letters A-Z and leaves every other character alone. *)

Definition lowerChar (c : ascii) : ascii :=
  let n := nat_of_ascii c in
  if ((65 <=? n)%nat && (n <=? 90)%nat)%bool then ascii_of_nat (n + 32) else c.

Fixpoint toLowerCase (s : string) : string :=
  match s with
  | EmptyString => EmptyString
  | String c rest => String (lowerChar c) (toLowerCase rest)
  end.

Fixpoint startsWith (needle hay : string) : bool :=
  match needle, hay with
  | EmptyString, _ => true
  | String a n', String b h' => if ascii_dec a b then startsWith n' h' else false
  | String _ _, EmptyString => false
  end.

(** [includes needle hay] is [hay.includes(needle)]. *)
Fixpoint includes (needle hay : string) : bool :=
  startsWith needle hay ||
  match hay with
  | EmptyString => false
  | String _ rest => includes needle rest
  end.

(** ** Failure values

    A rejected promise carries a value of type [unknown].  The classifier
    looks at three things only: whether the value is an [Error] instance
    (and then at its [message]), whether it is a non-null object, and the
    [status] and [statusCode] properties of that object.  A property holds
    [undefined], [null], a number (HTTP status codes: integers) or
    something else, for which a string stands. *)

Inductive JsProp :=
| JUndefined
| JNull
| JNumber (n : Z)
| JText (s : string).

Inductive Thrown :=
| ThrownPrimitive (p : JsProp)
| ThrownObject (instanceofError : bool) (message : string)
               (status statusCode : JsProp).

(** [new Error(msg)] *)
Definition newError (msg : string) : Thrown :=
  ThrownObject true msg JUndefined JUndefined.

(** [a ?? b] *)
Definition nullish (a b : JsProp) : JsProp :=
  match a with
  | JUndefined | JNull => b
  | _ => a
  end.

(** The message the classifier reads: present when [error instanceof Error]. *)
Definition errorMessage (error : Thrown) : option string :=
  match error with
  | ThrownObject true msg _ _ => Some msg
  | _ => None
  end.

(** [error.status ?? error.statusCode], read when
    [typeof error === 'object' && error !== null]. *)
Definition errorStatus (error : Thrown) : option JsProp :=
  match error with
  | ThrownObject _ _ st sc => Some (nullish st sc)
  | ThrownPrimitive _ => None
  end.

Definition isRateLimitError (error : Thrown) : bool :=
  match errorMessage error with
  | Some m =>
      let msg := toLowerCase m in
      includes "rate limit" msg || includes "too many requests" msg
      || includes "quota exceeded" msg
  | None => false
  end
  ||
  match errorStatus error with
  | Some (JNumber 429) => true
  | _ => false
  end.

Definition isRetryableError (error : Thrown) : bool :=
  if isRateLimitError error then true
  else
    match errorMessage error with
    | Some m =>
        let msg := toLowerCase m in
        includes "network" msg || includes "fetch" msg || includes "timeout" msg
        || includes "connection refused" msg || includes "connection reset" msg
        || includes "econnrefused" msg || includes "econnreset" msg
    | None => false
    end
    ||
    match errorStatus error with
    | Some (JNumber status) => (500 <=? status) && (status <? 600)
    | _ => false
    end.

(** ** Settings (src/auto-retry/settings.ts) *)

Record FallbackModel := {
  fm_apiurl : string;
  fm_key : string;
  fm_model : string;
  fm_source : string;
}.

Inductive FilterMode := whitelist | blacklist.

Record Settings := {
  enabled : bool;
  maxRetries : Z;
  retryDelayMs : Z;
  retryDelayMultiplier : Q;
  rateLimitDelayMs : Z;
  rateLimitMaxRetries : Z;
  streamingTimeoutMs : Z;
  requiredContentEnabled : bool;
  requiredContentPattern : string;
  requiredContentIsRegex : bool;
  fallbackModelsEnabled : bool;
  fallbackModels : list FallbackModel;
  filterEnabled : bool;
  filterMode : FilterMode;
  filterGenerationIds : list string;
  showRetryToast : bool;
  showSuccessToast : bool;
  showFailureToast : bool;
}.

(** The bounds the zod schema puts on the integer fields the loops read. *)
Definition schemaBounds (s : Settings) : Prop :=
  1 <= maxRetries s <= 20 /\ 1 <= rateLimitMaxRetries s <= 10.

(** ** Requests, results, contexts *)

Record CustomApi := {
  apiurl : string;
  key : string;
  model : string;
  source : string;
}.

(** [GenerateConfig | GenerateRawConfig]: the engine reads [generation_id]
    and [should_stream], writes [custom_api], and passes the rest on. *)
Record Config := {
  generation_id : option string;
  should_stream : option bool;
  custom_api : option CustomApi;
  passthrough : string;
}.

(** What a generation call resolves with: a string, or anything else. *)
Inductive Value :=
| VString (s : string)
| VOther (tag : nat).

Record RetryContext := {
  generationId : string;
  isStreaming : bool;
  config : Config;
  aborted : bool;
  lastTokenTime : Z;
  hasReceivedContent : bool;
  startTime : Z;
}.

Record RetryResult := {
  success : bool;
  result : option Value;
  error : option Thrown;
  attempts : Z;
  usedFallback : bool;
  fallbackModel : option FallbackModel;
}.

(** ** What the engine does to the outside

    [toastr], [console.warn], [stopGenerationById] and [sleep] calls, in the
    order they are made. *)
Inductive Notice :=
| ToastAttempt (attempt maxRetries : Z)
| ToastFallbackAttempt (fallbackNumber attempt maxRetries : Z)
| ToastMissingContent
| ToastSucceeded (attempt : Z)
| ToastSucceededFallback (model : string)
| ToastRateLimited (seconds : Z)
| ToastTryingFallback (model : string)
| ToastStreamingTimeout
| ToastFailed
| WarnAttemptFailed (attempt : Z) (error : Thrown)
| WarnFallbackAttemptFailed (fallbackNumber attempt : Z) (error : Thrown)
| WarnSkippingFallback (index : Z)
| WarnInvalidRegex (pattern : string)
| StopGenerationById (gid : string)
| Sleep (ms : Q).

(** Which function [currentFn()] calls: the caller's [fn], or one of the two
    original generation functions on a fallback configuration. *)
Inductive Invocation :=
| CallFn
| CallGenerate (c : Config)
| CallGenerateRaw (c : Config).

(** One call of [currentFn()], with the values of [fallbackIndex] and
    [attempt] at the call. *)
Record Call := {
  call_fn : Invocation;
  call_fallbackIndex : Z;
  call_attempt : Z;
}.

(** ** The environment of a run *)

Inductive Settlement :=
| Resolved (v : Value)
| Rejected (e : Thrown).

(** Things that happen while the engine is suspended:
    - [EvToken gid now]: the interceptor calls [updateTokenTime(gid)] and
      [Date.now()] is [now];
    - [EvAbort gid]: somebody calls [abortRetry(gid)];
    - [EvTick now]: the one-second interval timer is due and [Date.now()]
      is [now];
    - [EvSettle o]: the promise returned by [currentFn()] settles. *)
Inductive Event :=
| EvToken (gid : string) (now : Z)
| EvAbort (gid : string)
| EvTick (now : Z)
| EvSettle (o : Settlement).

(** What happens around one call of the operation: [Date.now()] when the
    attempt starts, the events while the race is outstanding, and the events
    during the delay that follows a failed attempt.  The events of
    [ep_events] are consumed up to the one that settles the race; what is
    listed after it does not happen. *)
Record Episode := {
  ep_now : Z;
  ep_events : list Event;
  ep_delay : list Event;
}.

(** The host: [uuidv4()], the [RegExp] constructor ([None] when it throws a
    SyntaxError, otherwise the [test] method of the compiled pattern), the
    clock at the start of the run, and the episode of the n-th call of the
    operation. *)
Record Host := {
  uuidv4 : string;
  newRegExp : string -> option (string -> bool);
  clock : Z;
  script : nat -> Episode;
}.

(** ** Pure helpers of the engine *)

(** [validateContent]: the verdict, and the warning it prints if any. *)
Definition validateContent (host : Host) (content : string) (settings : Settings)
  : bool * list Notice :=
  if negb (requiredContentEnabled settings)
     || bool_decide (requiredContentPattern settings = "")
  then (true, [])
  else if requiredContentIsRegex settings then
    match newRegExp host (requiredContentPattern settings) with
    | Some test => (test content, [])
    | None => (true, [WarnInvalidRegex (requiredContentPattern settings)])
    end
  else (includes (requiredContentPattern settings) content, []).

(** [calculateDelay]: the value of
    [retryDelayMs * Math.pow(retryDelayMultiplier, attempt - 1)] as a
    rational number.  The code computes it in IEEE doubles, so what it
    passes to [setTimeout] can differ from this value by rounding; the
    development names the delays and does not compute with them. *)
Definition calculateDelay (attempt : Z) (settings : Settings) (isRateLimit : bool) : Q :=
  if isRateLimit then inject_Z (rateLimitDelayMs settings)
  else (inject_Z (retryDelayMs settings)
        * Qpower (retryDelayMultiplier settings) (attempt - 1))%Q.

Definition shouldRetryGeneration (generationId : string) (settings : Settings) : bool :=
  if negb (filterEnabled settings) then true
  else
    let isInList := bool_decide (generationId ∈ filterGenerationIds settings) in
    match filterMode settings with
    | whitelist => isInList
    | blacklist => negb isInList
    end.

(** ** State and the engine monad

    [activeContexts] is the module-level registry.  A run's context object
    is the one the registry holds under the run's generation id, from
    [activeContexts.set] to [activeContexts.delete]; the run and the
    notifications ([abortRetry], [updateTokenTime]) read and write that
    one object, so the model keeps it in the registry and nowhere else.

    The other three fields record what the run did: the calls of
    [currentFn()], the values assigned to [lastError], and the notices. *)
Record World := {
  activeContexts : gmap string RetryContext;
  calls : list Call;
  failures : list Thrown;
  notices : list Notice;
}.

Definition setContexts (m : gmap string RetryContext) (w : World) : World :=
  {| activeContexts := m; calls := calls w; failures := failures w;
     notices := notices w |}.

Definition addCall (c : Call) (w : World) : World :=
  {| activeContexts := activeContexts w; calls := calls w ++ [c];
     failures := failures w; notices := notices w |}.

Definition addFailure (e : Thrown) (w : World) : World :=
  {| activeContexts := activeContexts w; calls := calls w;
     failures := failures w ++ [e]; notices := notices w |}.

Definition addNotices (ns : list Notice) (w : World) : World :=
  {| activeContexts := activeContexts w; calls := calls w;
     failures := failures w; notices := notices w ++ ns |}.

(** A computation ends with a value, stays suspended for ever on a promise
    that never settles ([Pending]), or is [Stuck]: the model ran out of
    loop fuel or looked for a context that is not registered.  [Stuck] is
    the model's own failure, not a behaviour of the engine; it is shown
    unreachable below. *)
Inductive Res (A : Type) :=
| Done (a : A)
| Pending
| Stuck.
Arguments Done {A} a.
Arguments Pending {A}.
Arguments Stuck {A}.

Definition M (A : Type) : Type := World -> Res A * World.

Definition ret {A} (a : A) : M A := fun w => (Done a, w).

Definition bind {A B} (m : M A) (k : A -> M B) : M B :=
  fun w =>
    match m w with
    | (Done a, w') => k a w'
    | (Pending, w') => (Pending, w')
    | (Stuck, w') => (Stuck, w')
    end.

Notation "x <- m ;; k" := (bind m (fun x => k))
  (at level 100, m at next level, right associativity).
Notation "m ;;; k" := (bind m (fun _ => k))
  (at level 100, right associativity).

Definition pending {A} : M A := fun w => (Pending, w).
Definition stuck {A} : M A := fun w => (Stuck, w).
Definition update (f : World -> World) : M unit := fun w => (Done tt, f w).
Definition notify (n : Notice) : M unit := update (addNotices [n]).
Definition when (b : bool) (m : M unit) : M unit := if b then m else ret tt.

(** ** The registry *)

Definition getActiveContext (generationId : string) (w : World) : option RetryContext :=
  activeContexts w !! generationId.

Definition markAborted (ctx : RetryContext) : RetryContext :=
  {| generationId := generationId ctx; isStreaming := isStreaming ctx;
     config := config ctx; aborted := true;
     lastTokenTime := lastTokenTime ctx;
     hasReceivedContent := hasReceivedContent ctx;
     startTime := startTime ctx |}.

Definition markToken (now : Z) (ctx : RetryContext) : RetryContext :=
  {| generationId := generationId ctx; isStreaming := isStreaming ctx;
     config := config ctx; aborted := aborted ctx;
     lastTokenTime := now;
     hasReceivedContent := true;
     startTime := startTime ctx |}.

(** The per-attempt reset at the top of both loops. *)
Definition markAttemptStart (now : Z) (ctx : RetryContext) : RetryContext :=
  {| generationId := generationId ctx; isStreaming := isStreaming ctx;
     config := config ctx; aborted := aborted ctx;
     lastTokenTime := now;
     hasReceivedContent := false;
     startTime := now |}.

Definition abortRetry (generationId : string) : M bool :=
  fun w =>
    match activeContexts w !! generationId with
    | Some ctx =>
        (Done true, setContexts (<[generationId := markAborted ctx]> (activeContexts w)) w)
    | None => (Done false, w)
    end.

Definition updateTokenTime (generationId : string) (now : Z) : M unit :=
  fun w =>
    match activeContexts w !! generationId with
    | Some ctx =>
        (Done tt, setContexts (<[generationId := markToken now ctx]> (activeContexts w)) w)
    | None => (Done tt, w)
    end.

(** The run reading its own context object.  The loops hold the object
    [executeWithRetry] created; here it is looked up in the registry under
    the run's id, where [executeWithRetry] has put it.  The two are the same
    object as long as no other call of [executeWithRetry] with the same id
    sets or deletes that entry; the hosts of this model deliver
    notifications and timer ticks, and start no such call. *)
Definition readContext (generationId : string) : M RetryContext :=
  fun w =>
    match activeContexts w !! generationId with
    | Some ctx => (Done ctx, w)
    | None => (Stuck, w)
    end.

Definition writeContext (generationId : string) (f : RetryContext -> RetryContext) : M unit :=
  ctx <- readContext generationId ;;
  update (fun w => setContexts (<[generationId := f ctx]> (activeContexts w)) w).

(** ** The timeout race

    The local variables of [raceWithTimeouts]: [resolved], and whether the
    interval timer is installed and not yet cleared. *)
Record Race := {
  resolved : bool;
  streamingCheckInterval : bool;
}.

Definition raceStart (ctx : RetryContext) : Race :=
  {| resolved := false; streamingCheckInterval := isStreaming ctx |}.

Definition cleanup (r : Race) : Race :=
  {| resolved := true; streamingCheckInterval := false |}.

(** Who settled the promise that [raceWithTimeouts] returns: one of the two
    handlers on the underlying promise, or the interval callback. *)
Inductive Winner :=
| ByOperation (o : Settlement)
| ByStallTimer.

Definition settlementOf (w : Winner) : Settlement :=
  match w with
  | ByOperation o => o
  | ByStallTimer => Rejected (newError "Streaming timeout")
  end.

Fixpoint raceEvents (gid : string) (settings : Settings) (r : Race)
    (events : list Event) : M Winner :=
  match events with
  | [] => pending
  | EvToken g now :: rest =>
      updateTokenTime g now ;;; raceEvents gid settings r rest
  | EvAbort g :: rest =>
      abortRetry g ;;; raceEvents gid settings r rest
  | EvTick now :: rest =>
      if streamingCheckInterval r then
        ctx <- readContext gid ;;
        if resolved r || aborted ctx then
          raceEvents gid settings (cleanup r) rest
        else
          let timeSinceLastToken := now - lastTokenTime ctx in
          if hasReceivedContent ctx
             && (streamingTimeoutMs settings <? timeSinceLastToken)
          then
            notify (StopGenerationById (generationId ctx)) ;;;
            when (showRetryToast settings) (notify ToastStreamingTimeout) ;;;
            ret ByStallTimer
          else raceEvents gid settings r rest
      else raceEvents gid settings r rest
  | EvSettle o :: rest =>
      if resolved r then raceEvents gid settings r rest
      else ret (ByOperation o)
  end.

Definition raceWithTimeouts (gid : string) (settings : Settings)
    (events : list Event) : M Winner :=
  ctx <- readContext gid ;;
  raceEvents gid settings (raceStart ctx) events.

(** [await] on something the race does not guard: a plain [await fn()], or
    [sleep].  Notifications still reach the registry; a tick has no timer
    to fire and a settlement of an already abandoned promise is ignored. *)
Fixpoint awaitOperation (events : list Event) : M Settlement :=
  match events with
  | [] => pending
  | EvToken g now :: rest => updateTokenTime g now ;;; awaitOperation rest
  | EvAbort g :: rest => abortRetry g ;;; awaitOperation rest
  | EvTick _ :: rest => awaitOperation rest
  | EvSettle o :: _ => ret o
  end.

Fixpoint sleep (ms : Q) (events : list Event) : M unit :=
  match events with
  | [] => ret tt
  | EvToken g now :: rest => updateTokenTime g now ;;; sleep ms rest
  | EvAbort g :: rest => abortRetry g ;;; sleep ms rest
  | EvTick _ :: rest => sleep ms rest
  | EvSettle _ :: rest => sleep ms rest
  end.

Definition handleRetryDelay (attempt : Z) (settings : Settings) (isRateLimit : bool)
    (events : list Event) : M unit :=
  let delay := calculateDelay attempt settings isRateLimit in
  notify (Sleep delay) ;;;
  sleep delay events.

(** ** The retry loops

    The local variables of [executeRetryLoop]. *)
Module Locals.
Record t := {
  attempt : Z;
  lastError : option Thrown;
  currentConfig : Config;
  currentFn : Invocation;
  usedFallback : bool;
  currentFallbackModel : option FallbackModel;
  fallbackIndex : Z;
}.

Definition setAttempt (n : Z) (st : t) : t :=
  {| attempt := n; lastError := lastError st;
     currentConfig := currentConfig st; currentFn := currentFn st;
     usedFallback := usedFallback st;
     currentFallbackModel := currentFallbackModel st;
     fallbackIndex := fallbackIndex st |}.

Definition setLastError (e : Thrown) (st : t) : t :=
  {| attempt := attempt st; lastError := Some e;
     currentConfig := currentConfig st; currentFn := currentFn st;
     usedFallback := usedFallback st;
     currentFallbackModel := currentFallbackModel st;
     fallbackIndex := fallbackIndex st |}.
End Locals.

(** How one pass through a loop body ends. *)
Inductive Step :=
| Continue (st : Locals.t)
| Break (st : Locals.t)
| Return (r : RetryResult).

(** The episode of the call that is about to be made. *)
Definition nextEpisode (host : Host) : M Episode :=
  fun w => (Done (script host (length (calls w))), w).

Definition callCurrentFn (st : Locals.t) : M unit :=
  update (addCall {| call_fn := Locals.currentFn st;
                     call_fallbackIndex := Locals.fallbackIndex st;
                     call_attempt := Locals.attempt st |}).

(** [typeof result === 'string' && !validateContent(result, settings)] *)
Definition contentInvalid (host : Host) (settings : Settings) (result : Value) : M bool :=
  match result with
  | VString s =>
      let '(ok, warnings) := validateContent host s settings in
      update (addNotices warnings) ;;;
      ret (negb ok)
  | VOther _ => ret false
  end.

Definition abortedResult (attempt : Z) (usedFallback : bool)
    (fallbackModel : option FallbackModel) : RetryResult :=
  {| success := false; result := None;
     error := Some (newError "Aborted by user");
     attempts := attempt; usedFallback := usedFallback;
     fallbackModel := fallbackModel |}.

Definition successResult (v : Value) (st : Locals.t) : RetryResult :=
  {| success := true; result := Some v; error := None;
     attempts := Locals.attempt st;
     usedFallback := Locals.usedFallback st;
     fallbackModel := Locals.currentFallbackModel st |}.

(** [lastError = e] *)
Definition assignLastError (e : Thrown) (st : Locals.t) : M Locals.t :=
  update (addFailure e) ;;; ret (Locals.setLastError e st).

(** Math.round(ms / 1000) for an integer [ms] *)
Definition roundSeconds (ms : Z) : Z := (ms + 500) / 1000.

Section Loops.
Variable host : Host.
Variable settings : Settings.
Variable gid : string.

(** The body of the first [while] (retry-engine.ts lines 190-246). *)
Definition primaryAttempt (st0 : Locals.t) : M Step :=
  ctx <- readContext gid ;;
  if aborted ctx then
    ret (Return (abortedResult (Locals.attempt st0) (Locals.usedFallback st0) None))
  else
    let st := Locals.setAttempt (Locals.attempt st0 + 1) st0 in
    let attempt := Locals.attempt st in
    ep <- nextEpisode host ;;
    writeContext gid (markAttemptStart (ep_now ep)) ;;;
    when (showRetryToast settings && (1 <? attempt))
         (notify (ToastAttempt attempt (maxRetries settings))) ;;;
    callCurrentFn st ;;;
    winner <- raceWithTimeouts gid settings (ep_events ep) ;;
    match settlementOf winner with
    | Resolved result =>
        invalid <- contentInvalid host settings result ;;
        if invalid then
          when (showRetryToast settings) (notify ToastMissingContent) ;;;
          st <- assignLastError (newError "Content validation failed") st ;;
          handleRetryDelay attempt settings false (ep_delay ep) ;;;
          ret (Continue st)
        else
          when (showSuccessToast settings && (1 <? attempt))
               (notify (ToastSucceeded attempt)) ;;;
          ret (Return (successResult result st))
    | Rejected error =>
        st <- assignLastError error st ;;
        notify (WarnAttemptFailed attempt error) ;;;
        ctx <- readContext gid ;;
        if aborted ctx then
          ret (Return (abortedResult attempt (Locals.usedFallback st) None))
        else if negb (isRetryableError error) then ret (Break st)
        else
          let isRateLimit := isRateLimitError error in
          let currentMaxRetries :=
            if isRateLimit then rateLimitMaxRetries settings
            else maxRetries settings in
          if currentMaxRetries <=? attempt then ret (Break st)
          else
            when (isRateLimit && showRetryToast settings)
                 (notify (ToastRateLimited (roundSeconds (rateLimitDelayMs settings)))) ;;;
            handleRetryDelay attempt settings isRateLimit (ep_delay ep) ;;;
            ret (Continue st)
    end.

(** The body of the inner [while] of the cascade (lines 284-332), for the
    descriptor [fallbackModel]. *)
Definition fallbackAttempt (fallbackModel : FallbackModel) (st0 : Locals.t) : M Step :=
  ctx <- readContext gid ;;
  if aborted ctx then
    ret (Return (abortedResult (Locals.attempt st0) (Locals.usedFallback st0)
                               (Locals.currentFallbackModel st0)))
  else
    let st := Locals.setAttempt (Locals.attempt st0 + 1) st0 in
    let attempt := Locals.attempt st in
    ep <- nextEpisode host ;;
    writeContext gid (markAttemptStart (ep_now ep)) ;;;
    when (showRetryToast settings && (1 <? attempt))
         (notify (ToastFallbackAttempt (Locals.fallbackIndex st + 1) attempt
                                       (maxRetries settings))) ;;;
    callCurrentFn st ;;;
    winner <- raceWithTimeouts gid settings (ep_events ep) ;;
    match settlementOf winner with
    | Resolved result =>
        invalid <- contentInvalid host settings result ;;
        if invalid then
          when (showRetryToast settings) (notify ToastMissingContent) ;;;
          st <- assignLastError (newError "Content validation failed") st ;;
          handleRetryDelay attempt settings false (ep_delay ep) ;;;
          ret (Continue st)
        else
          when (showSuccessToast settings)
               (notify (ToastSucceededFallback (fm_model fallbackModel))) ;;;
          ret (Return (successResult result st))
    | Rejected error =>
        st <- assignLastError error st ;;
        notify (WarnFallbackAttemptFailed (Locals.fallbackIndex st + 1) attempt error) ;;;
        ctx <- readContext gid ;;
        if aborted ctx then
          ret (Return (abortedResult attempt (Locals.usedFallback st)
                                     (Locals.currentFallbackModel st)))
        else if negb (isRetryableError error) then ret (Break st)
        else if maxRetries settings <=? attempt then ret (Break st)
        else
          handleRetryDelay attempt settings (isRateLimitError error) (ep_delay ep) ;;;
          ret (Continue st)
    end.

(** [while (attempt < maxRetries) body]: the loop leaves with a result
    ([return]) or with the locals ([break], or the condition is false). *)
Fixpoint retryWhile (body : Locals.t -> M Step) (fuel : nat) (st : Locals.t)
  : M (RetryResult + Locals.t) :=
  if Locals.attempt st <? maxRetries settings then
    match fuel with
    | O => stuck
    | S fuel' =>
        step <- body st ;;
        match step with
        | Continue st' => retryWhile body fuel' st'
        | Break st' => ret (inr st')
        | Return r => ret (inl r)
        end
    end
  else ret (inr st).

Definition loopFuel : nat := Z.to_nat (maxRetries settings).

(** [{ ...currentConfig, custom_api: { apiurl, key, model, source } }] *)
Definition fallbackConfigOf (currentConfig : Config) (fallbackModel : FallbackModel) : Config :=
  {| generation_id := generation_id currentConfig;
     should_stream := should_stream currentConfig;
     custom_api := Some {| apiurl := fm_apiurl fallbackModel;
                           key := fm_key fallbackModel;
                           model := fm_model fallbackModel;
                           source := fm_source fallbackModel |};
     passthrough := passthrough currentConfig |}.

(** [!fallbackModel.apiurl || !fallbackModel.model] *)
Definition unusable (fallbackModel : FallbackModel) : bool :=
  bool_decide (fm_apiurl fallbackModel = "") || bool_decide (fm_model fallbackModel = "").

(** The [for] loop over [settings.fallbackModels], from index [i] on. *)
Fixpoint fallbackCascade (isRaw : bool) (i : Z) (models : list FallbackModel)
    (st : Locals.t) : M (RetryResult + Locals.t) :=
  match models with
  | [] => ret (inr st)
  | fallbackModel :: rest =>
      if unusable fallbackModel then
        notify (WarnSkippingFallback i) ;;;
        fallbackCascade isRaw (i + 1) rest st
      else
        when (showRetryToast settings)
             (notify (ToastTryingFallback (fm_model fallbackModel))) ;;;
        let fallbackConfig := fallbackConfigOf (Locals.currentConfig st) fallbackModel in
        let st :=
          {| Locals.attempt := 0;
             Locals.lastError := Locals.lastError st;
             Locals.currentConfig := fallbackConfig;
             Locals.currentFn :=
               if isRaw then CallGenerateRaw fallbackConfig
               else CallGenerate fallbackConfig;
             Locals.usedFallback := true;
             Locals.currentFallbackModel := Some fallbackModel;
             Locals.fallbackIndex := i |} in
        r <- retryWhile (fallbackAttempt fallbackModel) loopFuel st ;;
        match r with
        | inl res => ret (inl res)
        | inr st' => fallbackCascade isRaw (i + 1) rest st'
        end
  end.

Definition failedResult (st : Locals.t) : RetryResult :=
  {| success := false; result := None;
     error := Locals.lastError st;
     attempts := Locals.attempt st;
     usedFallback := Locals.usedFallback st;
     fallbackModel := Locals.currentFallbackModel st |}.

Definition initialLocals (config : Config) : Locals.t :=
  {| Locals.attempt := 0;
     Locals.lastError := None;
     Locals.currentConfig := config;
     Locals.currentFn := CallFn;
     Locals.usedFallback := false;
     Locals.currentFallbackModel := None;
     Locals.fallbackIndex := -1 |}.

(** Everything in [executeRetryLoop] up to the last [return]: the primary
    loop, then the cascade.  [inl] is one of the [return]s inside the
    loops, [inr] the locals on reaching line 337. *)
Definition retryLoops (config : Config) (isRaw : bool) : M (RetryResult + Locals.t) :=
  r <- retryWhile primaryAttempt loopFuel (initialLocals config) ;;
  match r with
  | inl res => ret (inl res)
  | inr st =>
      if fallbackModelsEnabled settings
         && bool_decide (0 < length (fallbackModels settings))%nat
      then fallbackCascade isRaw 0 (fallbackModels settings) st
      else ret (inr st)
  end.

Definition executeRetryLoop (config : Config) (isRaw : bool) : M RetryResult :=
  r <- retryLoops config isRaw ;;
  match r with
  | inl res => ret res
  | inr st =>
      when (showFailureToast settings) (notify ToastFailed) ;;;
      ret (failedResult st)
  end.
End Loops.

(** [try { ... } finally { cleanup }] around an awaited computation: the
    cleanup runs when the computation settles. *)
Definition tryFinally {A} (m : M A) (cleanup : World -> World) : M A :=
  fun w =>
    match m w with
    | (Done a, w') => (Done a, cleanup w')
    | other => other
    end.

Definition generationIdOf (host : Host) (config : Config) : string :=
  default (uuidv4 host) (generation_id config).

Definition newContext (host : Host) (config : Config) : RetryContext :=
  {| generationId := generationIdOf host config;
     isStreaming := default false (should_stream config);
     config := config;
     aborted := false;
     lastTokenTime := clock host;
     hasReceivedContent := false;
     startTime := clock host |}.

(** The filtered branch of [executeWithRetry] (lines 141-148). *)
Definition passThrough (host : Host) : M RetryResult :=
  ep <- nextEpisode host ;;
  update (addCall {| call_fn := CallFn; call_fallbackIndex := -1; call_attempt := 1 |}) ;;;
  o <- awaitOperation (ep_events ep) ;;
  match o with
  | Resolved v =>
      ret {| success := true; result := Some v; error := None; attempts := 1;
             usedFallback := false; fallbackModel := None |}
  | Rejected e =>
      ret {| success := false; result := None; error := Some e; attempts := 1;
             usedFallback := false; fallbackModel := None |}
  end.

(** The retried branch of [executeWithRetry] (lines 150-167). *)
Definition retriedRun (host : Host) (settings : Settings) (config : Config)
    (isRaw : bool) : M RetryResult :=
  let ctx := newContext host config in
  update (fun w => setContexts (<[generationId ctx := ctx]> (activeContexts w)) w) ;;;
  tryFinally
    (executeRetryLoop host settings (generationId ctx) config isRaw)
    (fun w => setContexts (delete (generationId ctx) (activeContexts w)) w).

Definition executeWithRetry (host : Host) (settings : Settings) (config : Config)
    (isRaw : bool) : M RetryResult :=
  if negb (shouldRetryGeneration (generationIdOf host config) settings)
  then passThrough host
  else retriedRun host settings config isRaw.

(** A run starts from the registry as it is, with nothing recorded yet. *)
Definition freshWorld (registry : gmap string RetryContext) : World :=
  {| activeContexts := registry; calls := []; failures := []; notices := [] |}.

Definition run (host : Host) (settings : Settings) (config : Config) (isRaw : bool)
    (registry : gmap string RetryContext) : Res RetryResult * World :=
  executeWithRetry host settings config isRaw (freshWorld registry).

(** ** Vocabulary of the properties *)

(** [msg] contains [keyword] in some letter case: a piece of [msg]
    lower-cases to [keyword]. *)
Definition mentions (keyword msg : string) : Prop :=
  exists pre mid post, msg = pre +:+ mid +:+ post /\ toLowerCase mid = keyword.

Definition rateLimitWording (msg : string) : Prop :=
  mentions "rate limit" msg \/ mentions "too many requests" msg
  \/ mentions "quota exceeded" msg.

Definition networkWording (msg : string) : Prop :=
  mentions "network" msg \/ mentions "fetch" msg \/ mentions "timeout" msg
  \/ mentions "connection refused" msg \/ mentions "connection reset" msg
  \/ mentions "econnrefused" msg \/ mentions "econnreset" msg.

(** The settlement of the underlying promise according to a script. *)
Fixpoint firstSettle (events : list Event) : option Settlement :=
  match events with
  | [] => None
  | EvSettle o :: _ => Some o
  | _ :: rest => firstSettle rest
  end.

(** The generation [gid] has a context in the registry. *)
Definition registered (gid : string) (w : World) : Prop :=
  is_Some (activeContexts w !! gid).

(** The context of [gid] is registered and its abort flag is down. *)
Definition notAborted (gid : string) (w : World) : Prop :=
  exists ctx, activeContexts w !! gid = Some ctx /\ aborted ctx = false.

(** The context of [gid] is registered and has received no content. *)
Definition silent (gid : string) (w : World) : Prop :=
  exists ctx, activeContexts w !! gid = Some ctx /\ hasReceivedContent ctx = false.

(** Nobody asks to abort [gid] during [events]. *)
Definition noAbort (gid : string) (events : list Event) : Prop :=
  Forall (fun ev => ev <> EvAbort gid) events.

(** No token of [gid] arrives during [events]. *)
Definition noToken (gid : string) (events : list Event) : Prop :=
  Forall (fun ev => forall now, ev <> EvToken gid now) events.

(** Neither a timer tick nor the settlement of the promise is among
    [events]. *)
Definition uneventful (events : list Event) : Prop :=
  Forall (fun ev => match ev with
                    | EvTick _ | EvSettle _ => False
                    | EvToken _ _ | EvAbort _ => True
                    end) events.

(** The context of [gid] is registered and its abort flag is up. *)
Definition abortRequested (gid : string) (w : World) : Prop :=
  exists ctx, activeContexts w !! gid = Some ctx /\ aborted ctx = true.

(** What notifications and waiting leave alone: the record of calls and of
    failures, and which generations are registered. *)
Definition frame (w w' : World) : Prop :=
  calls w' = calls w /\ failures w' = failures w
  /\ forall g, is_Some (activeContexts w' !! g) <-> is_Some (activeContexts w !! g).

(** From [w] to [w'] the calls [cs] and the failures [fs] were recorded,
    and the same generations are registered. *)
Definition grows (cs : list Call) (fs : list Thrown) (w w' : World) : Prop :=
  calls w' = calls w ++ cs /\ failures w' = failures w ++ fs
  /\ forall g, is_Some (activeContexts w' !! g) <-> is_Some (activeContexts w !! g).

(** [wp pend m Q w]: run from [w], the computation [m] does not get stuck,
    its value and final state satisfy [Q] when it ends, and [pend] holds
    when it stays suspended.  With [pend := False] the computation ends. *)
Definition wp {A} (pend : Prop) (m : M A) (Q : A -> World -> Prop) (w : World) : Prop :=
  match m w with
  | (Done a, w') => Q a w'
  | (Pending, _) => pend
  | (Stuck, _) => False
  end.

(** The call record that an attempt from the locals [st] appends. *)
Definition callOf (st : Locals.t) : Call :=
  {| call_fn := Locals.currentFn st;
     call_fallbackIndex := Locals.fallbackIndex st;
     call_attempt := Locals.attempt st + 1 |}.

(** The locals after an attempt from [st] that failed with [e]. *)
Definition afterFailure (e : Thrown) (st : Locals.t) : Locals.t :=
  Locals.setLastError e (Locals.setAttempt (Locals.attempt st + 1) st).

(** What a pass through a loop body that does not [return] has recorded:
    one call and one failure. *)
Definition attemptRecorded (st : Locals.t) (w : World) (step : Step) (w' : World) : Prop :=
  match step with
  | Continue st' | Break st' =>
      calls w' = calls w ++ [callOf st]
      /\ exists e, failures w' = failures w ++ [e] /\ st' = afterFailure e st
  | Return _ => True
  end.

(** The calls made while [fallbackIndex] was [i] ([-1]: the primary
    backend). *)
Definition callsOn (i : Z) (cs : list Call) : list Call :=
  filter (fun c => call_fallbackIndex c = i) cs.

(** The locals agree with the records: [attempt] counts the calls on the
    current backend, no call was made on a later one, and [lastError] is
    the last failure recorded. *)
Definition consistent (st : Locals.t) (w : World) : Prop :=
  Z.of_nat (length (callsOn (Locals.fallbackIndex st) (calls w))) = Locals.attempt st
  /\ Forall (fun c => call_fallbackIndex c <= Locals.fallbackIndex st) (calls w)
  /\ Locals.lastError st = last (failures w).

(** Two states of the locals on the same backend. *)
Definition sameBackend (st st' : Locals.t) : Prop :=
  Locals.fallbackIndex st' = Locals.fallbackIndex st
  /\ Locals.usedFallback st' = Locals.usedFallback st
  /\ Locals.currentFallbackModel st' = Locals.currentFallbackModel st
  /\ Locals.currentConfig st' = Locals.currentConfig st
  /\ Locals.currentFn st' = Locals.currentFn st.

(** The last usable descriptor of [models] (numbered from [i]) with its
    index, or [acc] when there is none. *)
Fixpoint lastUsable (i : Z) (models : list FallbackModel)
    (acc : option (Z * FallbackModel)) : option (Z * FallbackModel) :=
  match models with
  | [] => acc
  | fallbackModel :: rest =>
      lastUsable (i + 1) rest
        (if unusable fallbackModel then acc else Some (i, fallbackModel))
  end.

(** The backend a run that fails everywhere ends on. *)
Definition lastBackend (settings : Settings) : option (Z * FallbackModel) :=
  if fallbackModelsEnabled settings
  then lastUsable 0 (fallbackModels settings) None
  else None.

Definition backendIndex (b : option (Z * FallbackModel)) : Z :=
  match b with
  | Some (i, _) => i
  | None => -1
  end.

(** The locals are on backend [b]. *)
Definition onBackend (b : option (Z * FallbackModel)) (st : Locals.t) : Prop :=
  Locals.fallbackIndex st = backendIndex b
  /\ Locals.usedFallback st = bool_decide (is_Some b)
  /\ Locals.currentFallbackModel st = snd <$> b.

(** The state in which [executeRetryLoop] starts: a fresh context is
    registered and nothing is recorded. *)
Definition startWorld (host : Host) (config : Config)
    (registry : gmap string RetryContext) : World :=
  setContexts (<[generationIdOf host config := newContext host config]> registry)
              (freshWorld registry).

(** During the episode nobody aborts [gid], and the operation rejects with a
    retryable failure that is rate-limited or not as [rateLimited] says. *)
Definition failsRetryably (rateLimited : bool) (gid : string) (ep : Episode) : Prop :=
  noAbort gid (ep_events ep) /\ noAbort gid (ep_delay ep)
  /\ exists e, firstSettle (ep_events ep) = Some (Rejected e)
               /\ isRetryableError e = true /\ isRateLimitError e = rateLimited.

(** From a calm start the race over [events] is settled by a retryable
    rejection of the given class, and the context stays un-aborted. *)
Definition raceFails (rateLimited : bool) (gid : string) (settings : Settings)
    (events : list Event) : Prop :=
  forall w, notAborted gid w -> silent gid w ->
    wp False (raceWithTimeouts gid settings events)
       (fun winner w' =>
          frame w w' /\ notAborted gid w'
          /\ exists e, settlementOf winner = Rejected e
                       /\ isRetryableError e = true
                       /\ isRateLimitError e = rateLimited) w.

(** What a failing pass through a loop body with attempt limit [limit]
    leaves: one more call, and [break] exactly when the limit is reached. *)
Definition failingPass (gid : string) (limit : Z) (st : Locals.t) (w : World)
    (step : Step) (w' : World) : Prop :=
  notAborted gid w' /\ calls w' = calls w ++ [callOf st]
  /\ exists e, step = if limit <=? Locals.attempt st + 1
                      then Break (afterFailure e st)
                      else Continue (afterFailure e st).

(** [c] is the request [config], up to its [custom_api]. *)
Definition sameRequest (config c : Config) : Prop :=
  generation_id c = generation_id config
  /\ should_stream c = should_stream config
  /\ passthrough c = passthrough config.

(** Every call of the operation meets a race that fails retryably, with
    nobody aborting during the delay after it. *)
Definition alwaysFails (rateLimited : bool) (host : Host) (settings : Settings)
    (gid : string) : Prop :=
  forall n, raceFails rateLimited gid settings (ep_events (script host n))
            /\ noAbort gid (ep_delay (script host n)).

(** The calls of attempts [done + 1], ..., [done + n] on one backend. *)
Fixpoint attemptCalls (fn : Invocation) (fallbackIndex : Z) (done : Z) (n : nat) : list Call :=
  match n with
  | O => []
  | S n' =>
      {| call_fn := fn; call_fallbackIndex := fallbackIndex; call_attempt := done + 1 |}
      :: attemptCalls fn fallbackIndex (done + 1) n'
  end.

(** The function a fallback attempt calls for the descriptor [fallbackModel]. *)
Definition fallbackCall (config : Config) (isRaw : bool) (fallbackModel : FallbackModel)
  : Invocation :=
  if isRaw then CallGenerateRaw (fallbackConfigOf config fallbackModel)
  else CallGenerate (fallbackConfigOf config fallbackModel).

(** [n] calls on every usable descriptor of [models] (numbered from [i]),
    in order; unusable descriptors get none. *)
Fixpoint cascadeCalls (config : Config) (isRaw : bool) (n : nat) (i : Z)
    (models : list FallbackModel) : list Call :=
  match models with
  | [] => []
  | fallbackModel :: rest =>
      (if unusable fallbackModel then []
       else attemptCalls (fallbackCall config isRaw fallbackModel) i 0 n)
      ++ cascadeCalls config isRaw n (i + 1) rest
  end.

(** ** Example data

    The settings the schema produces by default, and small hosts used to
    run the model on concrete inputs. *)

Definition defaultSettings : Settings :=
  {| enabled := true;
     maxRetries := 3; retryDelayMs := 1000; retryDelayMultiplier := 3 # 2;
     rateLimitDelayMs := 30000; rateLimitMaxRetries := 5;
     streamingTimeoutMs := 30000;
     requiredContentEnabled := false; requiredContentPattern := "";
     requiredContentIsRegex := false;
     fallbackModelsEnabled := false; fallbackModels := [];
     filterEnabled := false; filterMode := blacklist; filterGenerationIds := [];
     showRetryToast := true; showSuccessToast := true; showFailureToast := true |}.

(** The default settings with a required pattern the [RegExp] constructor
    of [hostOf] below rejects. *)
Definition badRegexSettings : Settings :=
  {| enabled := true;
     maxRetries := 3; retryDelayMs := 1000; retryDelayMultiplier := 3 # 2;
     rateLimitDelayMs := 30000; rateLimitMaxRetries := 5;
     streamingTimeoutMs := 30000;
     requiredContentEnabled := true; requiredContentPattern := "(";
     requiredContentIsRegex := true;
     fallbackModelsEnabled := false; fallbackModels := [];
     filterEnabled := false; filterMode := blacklist; filterGenerationIds := [];
     showRetryToast := true; showSuccessToast := true; showFailureToast := true |}.

(** A request with generation id [gid]. *)
Definition request (gid : string) (streaming : bool) : Config :=
  {| generation_id := Some gid; should_stream := Some streaming;
     custom_api := None; passthrough := "" |}.

(** A host whose every call of the operation meets the same events, with
    nothing happening during the delays. *)
Definition hostOf (events : list Event) : Host :=
  {| uuidv4 := "00000000-0000-4000-8000-000000000000";
     newRegExp := fun _ => None;
     clock := 0;
     script := fun _ => {| ep_now := 0; ep_events := events; ep_delay := [] |} |}.

(** A fallback descriptor that can be used, and one that cannot. *)
Definition backupModel : FallbackModel :=
  {| fm_apiurl := "https://backup.example/v1"; fm_key := "secret";
     fm_model := "backup-model"; fm_source := "openai" |}.

Definition brokenModel : FallbackModel :=
  {| fm_apiurl := ""; fm_key := "secret";
     fm_model := "nameless"; fm_source := "openai" |}.

(** Two attempts per backend, fallbacks enabled, toasts off. *)
Definition cascadeSettings (models : list FallbackModel) : Settings :=
  {| enabled := true;
     maxRetries := 2; retryDelayMs := 1000; retryDelayMultiplier := 3 # 2;
     rateLimitDelayMs := 30000; rateLimitMaxRetries := 5;
     streamingTimeoutMs := 30000;
     requiredContentEnabled := false; requiredContentPattern := "";
     requiredContentIsRegex := false;
     fallbackModelsEnabled := true; fallbackModels := models;
     filterEnabled := false; filterMode := blacklist; filterGenerationIds := [];
     showRetryToast := false; showSuccessToast := false; showFailureToast := false |}.

(** Failure values: an HTTP 500, an HTTP 429. *)
Definition serverError : Thrown := ThrownObject false "" (JNumber 500) JUndefined.
Definition tooManyRequests : Thrown := ThrownObject false "" (JNumber 429) JUndefined.

(** The default settings with id filtering switched on. *)
Definition filterSettings (mode : FilterMode) (ids : list string) : Settings :=
  {| enabled := true;
     maxRetries := 3; retryDelayMs := 1000; retryDelayMultiplier := 3 # 2;
     rateLimitDelayMs := 30000; rateLimitMaxRetries := 5;
     streamingTimeoutMs := 30000;
     requiredContentEnabled := false; requiredContentPattern := "";
     requiredContentIsRegex := false;
     fallbackModelsEnabled := false; fallbackModels := [];
     filterEnabled := true; filterMode := mode; filterGenerationIds := ids;
     showRetryToast := true; showSuccessToast := true; showFailureToast := true |}.

(** A registry holding one context, for the request [request gid streaming]
    in the middle of an attempt that started at time 0. *)
Definition worldWith (gid : string) (streaming : bool) : World :=
  freshWorld {[ gid := newContext (hostOf []) (request gid streaming) ]}.

(** The result of the filtered branch for a settlement of the operation. *)
Definition plainResult (o : Settlement) : RetryResult :=
  match o with
  | Resolved v =>
      {| success := true; result := Some v; error := None; attempts := 1;
         usedFallback := false; fallbackModel := None |}
  | Rejected e =>
      {| success := false; result := None; error := Some e; attempts := 1;
         usedFallback := false; fallbackModel := None |}
  end.

(** A host whose n-th call of the operation meets the n-th script of the
    list (and nothing at all after the last one); [pause] is what happens
    during every delay. *)
Definition scriptedHost (scripts : list (list Event)) (pause : list Event) : Host :=
  {| uuidv4 := "00000000-0000-4000-8000-000000000000";
     newRegExp := fun _ => None;
     clock := 0;
     script := fun n => {| ep_now := 0;
                           ep_events := default [] (scripts !! n);
                           ep_delay := pause |} |}.

(** The default settings with a required literal pattern. *)
Definition requireSettings (pattern : string) : Settings :=
  {| enabled := true;
     maxRetries := 3; retryDelayMs := 1000; retryDelayMultiplier := 3 # 2;
     rateLimitDelayMs := 30000; rateLimitMaxRetries := 5;
     streamingTimeoutMs := 30000;
     requiredContentEnabled := true; requiredContentPattern := pattern;
     requiredContentIsRegex := false;
     fallbackModelsEnabled := false; fallbackModels := [];
     filterEnabled := false; filterMode := blacklist; filterGenerationIds := [];
     showRetryToast := true; showSuccessToast := true; showFailureToast := true |}.

Definition notFound : Thrown := ThrownObject true "Not Found" (JNumber 404) JUndefined.

(** ** Further vocabulary

    [post m Q w]: the outcome of [m] from [w], whatever it is, and the
    state it leaves satisfy [Q]. *)
Definition post {A} (m : M A) (Q : Res A -> World -> Prop) (w : World) : Prop :=
  Q (fst (m w)) (snd (m w)).

(** [m] keeps [P], also when it stays suspended. *)
Definition stable {A} (P : World -> Prop) (m : M A) : Prop :=
  forall w, P w -> P (snd (m w)).

(** [P] only looks at the registry. *)
Definition aboutContexts (P : World -> Prop) : Prop :=
  forall w w', activeContexts w' = activeContexts w -> P w -> P w'.

(** The notification an event delivers, if it delivers one, keeps [P]. *)
Definition harmless (P : World -> Prop) (ev : Event) : Prop :=
  match ev with
  | EvToken g now => stable P (updateTokenTime g now)
  | EvAbort g => stable P (abortRetry g)
  | EvTick _ | EvSettle _ => True
  end.

(** Every notification of the host's script keeps [P]. *)
Definition quietHost (P : World -> Prop) (host : Host) : Prop :=
  forall n, Forall (harmless P) (ep_events (script host n))
            /\ Forall (harmless P) (ep_delay (script host n)).

(** The event is addressed to the generation [g]. *)
Definition addressedTo (g : string) (ev : Event) : Prop :=
  match ev with
  | EvToken g' _ | EvAbort g' => g' = g
  | EvTick _ | EvSettle _ => False
  end.

(** [c'] is [c] but for its abort flag. *)
Definition sameButAborted (c c' : RetryContext) : Prop :=
  generationId c' = generationId c /\ isStreaming c' = isStreaming c
  /\ config c' = config c /\ lastTokenTime c' = lastTokenTime c
  /\ hasReceivedContent c' = hasReceivedContent c /\ startTime c' = startTime c.

(** [isRetrying] of the interceptor: there is an active context. *)
Definition isRetrying (generationId : string) (w : World) : bool :=
  bool_decide (getActiveContext generationId w <> None).

(** *** One pass through a loop body, taken apart

    The delays the run has slept through, and whether the loops take a
    resolved value for a reply. *)
Definition delayOf (n : Notice) : option Q :=
  match n with
  | Sleep ms => Some ms
  | _ => None
  end.

Definition delays (w : World) : list Q := omap delayOf (notices w).

Definition acceptable (host : Host) (settings : Settings) (v : Value) : bool :=
  match v with
  | VString s => fst (validateContent host s settings)
  | VOther _ => true
  end.

(** A pass that goes beyond the abort check at its top registers the start
    of the attempt, makes its call ([prefixed]), waits for the race, and
    then only writes records and possibly sleeps ([tailFrame]). *)
Definition prefixed (gid : string) (host : Host) (st : Locals.t) (c : RetryContext)
    (w wa : World) : Prop :=
  calls wa = calls w ++ [callOf st] /\ failures wa = failures w
  /\ delays wa = delays w
  /\ activeContexts wa
     = <[gid := markAttemptStart (ep_now (script host (length (calls w)))) c]>
         (activeContexts w).

Definition tailFrame (delay : list Event) (slept : list Q) (w w' : World) : Prop :=
  calls w' = calls w
  /\ delays w' = delays w ++ slept
  /\ forall P, aboutContexts P -> Forall (harmless P) delay -> P w -> P w'.

(** How the pass ends and what it sleeps, given how the race ended and the
    state [wr] it left.  [reported] is the fallback model an abort result
    names and [rateLimitLimit] the attempt limit for rate-limited failures:
    [None] and [rateLimitMaxRetries] in the primary loop, the current
    descriptor and [maxRetries] in the cascade. *)
Definition passOutcome (gid : string) (host : Host) (settings : Settings)
    (reported : option FallbackModel) (rateLimitLimit : Z) (st : Locals.t)
    (rr : Res Winner) (wr : World) (r : Res Step) (slept : list Q) : Prop :=
  let n := Locals.attempt st + 1 in
  match rr with
  | Pending => r = Pending /\ slept = []
  | Stuck => False
  | Done winner =>
      match settlementOf winner with
      | Resolved v =>
          if acceptable host settings v
          then r = Done (Return (successResult v (Locals.setAttempt n st))) /\ slept = []
          else r = Done (Continue (afterFailure (newError "Content validation failed") st))
               /\ slept = [calculateDelay n settings false]
      | Rejected e =>
          exists c, activeContexts wr !! gid = Some c /\
            if aborted c
            then r = Done (Return (abortedResult n (Locals.usedFallback st) reported))
                 /\ slept = []
            else if negb (isRetryableError e)
                    || ((if isRateLimitError e then rateLimitLimit
                         else maxRetries settings) <=? n)
            then r = Done (Break (afterFailure e st)) /\ slept = []
            else r = Done (Continue (afterFailure e st))
                 /\ slept = [calculateDelay n settings (isRateLimitError e)]
      end
  end.

Definition passDecomposed (host : Host) (settings : Settings) (gid : string)
    (reported : option FallbackModel) (rateLimitLimit : Z) (st : Locals.t) (w : World)
    (r : Res Step) (w' : World) : Prop :=
  exists c, activeContexts w !! gid = Some c /\
    ((aborted c = true /\ w' = w
      /\ r = Done (Return (abortedResult (Locals.attempt st) (Locals.usedFallback st)
                                      reported)))
     \/ (aborted c = false /\ exists wa rr wr slept,
           prefixed gid host st c w wa
           /\ raceWithTimeouts gid settings
                (ep_events (script host (length (calls w)))) wa = (rr, wr)
           /\ tailFrame (ep_delay (script host (length (calls w)))) slept wr w'
           /\ passOutcome gid host settings reported rateLimitLimit st rr wr r slept)).

(** A run that has made more than [k] calls has its abort flag up. *)
Definition abortedAfter (gid : string) (k : nat) (w : World) : Prop :=
  registered gid w
  /\ (length (calls w) <= k + 1)%nat
  /\ (length (calls w) = (k + 1)%nat -> abortRequested gid w).

(** *** The schedule of a run, and the shape of its result

    Every call a run can make, in order: [maxRetries] attempts of the
    caller's function, then [maxRetries] attempts of every usable fallback
    descriptor when fallbacks are enabled. *)
Definition schedule (settings : Settings) (config : Config) (isRaw : bool) : list Call :=
  attemptCalls CallFn (-1) 0 (Z.to_nat (maxRetries settings))
  ++ (if fallbackModelsEnabled settings
      then cascadeCalls config isRaw (Z.to_nat (maxRetries settings)) 0
             (fallbackModels settings)
      else []).

Definition usableModels (settings : Settings) : list FallbackModel :=
  if fallbackModelsEnabled settings
  then filter (fun fallbackModel => unusable fallbackModel = false) (fallbackModels settings)
  else [].

(** The fallback descriptor the locals name, if any, is a usable one of the
    settings, and [usedFallback] says whether there is one. *)
Definition backendOk (settings : Settings) (usedFallback : bool)
    (fallbackModel : option FallbackModel) : Prop :=
  match fallbackModel with
  | Some fm => usedFallback = true /\ fm ∈ usableModels settings
  | None => usedFallback = false
  end.

Definition wellFormed (settings : Settings) (res : RetryResult) : Prop :=
  (if success res
   then is_Some (result res) /\ error res = None /\ 1 <= attempts res
   else result res = None /\ is_Some (error res) /\ 0 <= attempts res)
  /\ attempts res <= maxRetries settings
  /\ backendOk settings (usedFallback res) (fallbackModel res).

Definition localsOk (settings : Settings) (st : Locals.t) : Prop :=
  0 <= Locals.attempt st <= maxRetries settings
  /\ backendOk settings (Locals.usedFallback st) (Locals.currentFallbackModel st).

(** What one [while] loop started with the locals [st] leaves. *)
Definition loopDone (settings : Settings) (gid : string) (st : Locals.t) (w : World)
    (r : Res (RetryResult + Locals.t)) (w' : World) : Prop :=
  registered gid w'
  /\ (exists cs, calls w' = calls w ++ cs
                 /\ cs `prefix_of` attemptCalls (Locals.currentFn st) (Locals.fallbackIndex st)
                                     (Locals.attempt st)
                                     (Z.to_nat (maxRetries settings - Locals.attempt st)))
  /\ match r with
     | Done (inl res) => localsOk settings st -> wellFormed settings res
     | Done (inr st') =>
         sameBackend st st'
         /\ Locals.attempt st <= Locals.attempt st'
         /\ (Locals.attempt st <= maxRetries settings ->
             Locals.attempt st' <= maxRetries settings)
         /\ (Locals.attempt st < maxRetries settings \/ is_Some (Locals.lastError st) ->
             is_Some (Locals.lastError st'))
     | Pending => True
     | Stuck => False
     end.

(** What the cascade over [models], numbered from [i], leaves; [ok] stands
    for what is known of the locals it starts with. *)
Definition cascadeDone (settings : Settings) (gid : string) (config : Config)
    (isRaw : bool) (i : Z) (models : list FallbackModel) (ok : Prop) (w : World)
    (r : Res (RetryResult + Locals.t)) (w' : World) : Prop :=
  registered gid w'
  /\ (exists cs, calls w' = calls w ++ cs
                 /\ cs `sublist_of` cascadeCalls config isRaw
                                      (Z.to_nat (maxRetries settings)) i models)
  /\ match r with
     | Done (inl res) => ok -> wellFormed settings res
     | Done (inr st') => ok -> localsOk settings st' /\ is_Some (Locals.lastError st')
     | Pending => True
     | Stuck => False
     end.

(** What a pass through a loop body from [st] leaves. *)
Definition passSummary (gid : string) (reported : option FallbackModel) (st : Locals.t)
    (w : World) (r : Res Step) (w' : World) : Prop :=
  registered gid w'
  /\ match r with
     | Done (Return res) =>
         (calls w' = calls w
          /\ res = abortedResult (Locals.attempt st) (Locals.usedFallback st) reported)
         \/ (calls w' = calls w ++ [callOf st]
             /\ (res = abortedResult (Locals.attempt st + 1) (Locals.usedFallback st) reported
                 \/ exists v, res = successResult v
                                      (Locals.setAttempt (Locals.attempt st + 1) st)))
     | Done (Continue st') | Done (Break st') =>
         calls w' = calls w ++ [callOf st] /\ exists e, st' = afterFailure e st
     | Pending => calls w' = calls w ++ [callOf st]
     | Stuck => False
     end.

(** *** The race, by the clock

    Whether the stall timer fires during [events] before the promise
    settles: some tick comes more than [timeout] after the latest token of
    [gid], [last] being the time of the latest token so far, if any. *)
Fixpoint stalls (gid : string) (timeout : Z) (last : option Z) (events : list Event) : bool :=
  match events with
  | [] => false
  | EvToken g now :: rest =>
      stalls gid timeout (if decide (g = gid) then Some now else last) rest
  | EvAbort _ :: rest => stalls gid timeout last rest
  | EvTick now :: rest =>
      match last with
      | Some t => (timeout <? now - t) || stalls gid timeout last rest
      | None => stalls gid timeout last rest
      end
  | EvSettle _ :: _ => false
  end.

(** The time of the latest token the context has recorded. *)
Definition latestToken (ctx : RetryContext) : option Z :=
  if hasReceivedContent ctx then Some (lastTokenTime ctx) else None.

(** What the stall timer announces when it fires. *)
Definition stallNotices (settings : Settings) (ctx : RetryContext) : list Notice :=
  StopGenerationById (generationId ctx)
  :: (if showRetryToast settings then [ToastStreamingTimeout] else []).

(** * Properties *)

(** ** Strings *)

Lemma append_nil (b : string) : "" +:+ b = b.
Proof. reflexivity. Qed.

Lemma append_cons (x : ascii) (a b : string) : String x a +:+ b = String x (a +:+ b).
Proof. reflexivity. Qed.

Lemma toLowerCase_append (a b : string) :
  toLowerCase (a +:+ b) = toLowerCase a +:+ toLowerCase b.
Proof.
  induction a as [|x a IH]; [reflexivity|].
  rewrite append_cons. simpl. now rewrite IH, append_cons.
Qed.

(** A split of the lower-cased string comes from a split of the string. *)
Lemma toLowerCase_split (s a b : string) :
  toLowerCase s = a +:+ b ->
  exists s1 s2, s = s1 +:+ s2 /\ toLowerCase s1 = a /\ toLowerCase s2 = b.
Proof.
  revert s. induction a as [|x a IH]; intros s H.
  - exists EmptyString, s. auto.
  - rewrite append_cons in H.
    destruct s as [|c s]; simpl in H; [discriminate|].
    injection H as Hc Hs. destruct (IH _ Hs) as (s1 & s2 & -> & H1 & H2).
    exists (String c s1), s2. rewrite append_cons. simpl. rewrite Hc, H1. auto.
Qed.

Lemma startsWith_spec (needle hay : string) :
  startsWith needle hay = true <-> exists post, hay = needle +:+ post.
Proof.
  revert hay. induction needle as [|a n IH]; intros hay; simpl.
  - split; [intros _; now exists hay | reflexivity].
  - destruct hay as [|b h].
    + split; [discriminate | intros [post H]; discriminate].
    + destruct (ascii_dec a b) as [->|Hne].
      * rewrite IH. split; intros [post H]; exists post.
        -- now rewrite H, append_cons.
        -- rewrite append_cons in H. now injection H.
      * split; [discriminate|].
        intros [post H]. rewrite append_cons in H. injection H. intros; congruence.
Qed.

Lemma includes_spec (needle hay : string) :
  includes needle hay = true <-> exists pre post, hay = pre +:+ needle +:+ post.
Proof.
  induction hay as [|c h IH]; simpl.
  - rewrite orb_false_r, startsWith_spec. split.
    + intros [post H]. now exists EmptyString, post.
    + intros (pre & post & H). destruct pre; [now exists post | discriminate].
  - rewrite orb_true_iff, startsWith_spec, IH. split.
    + intros [[post H] | (pre & post & H)].
      * now exists EmptyString, post.
      * exists (String c pre), post. now rewrite append_cons, H.
    + intros (pre & post & H). destruct pre as [|p pre].
      * left. now exists post.
      * right. rewrite append_cons in H. injection H as _ H. now exists pre, post.
Qed.

(** [msg.toLowerCase().includes(keyword)] is containment in any letter case. *)
Lemma includes_lower_mentions (keyword msg : string) :
  includes keyword (toLowerCase msg) = true <-> mentions keyword msg.
Proof.
  rewrite includes_spec. split.
  - intros (pre & post & H).
    destruct (toLowerCase_split _ _ _ H) as (s1 & s2 & -> & _ & H2).
    destruct (toLowerCase_split _ _ _ H2) as (m & s3 & -> & Hm & _).
    now exists s1, m, s3.
  - intros (pre & mid & post & -> & <-).
    exists (toLowerCase pre), (toLowerCase post).
    now rewrite !toLowerCase_append.
Qed.

Lemma rateLimitWording_spec (m : string) :
  (let msg := toLowerCase m in
   includes "rate limit" msg || includes "too many requests" msg
   || includes "quota exceeded" msg) = true <-> rateLimitWording m.
Proof.
  unfold rateLimitWording. cbv zeta.
  rewrite !orb_true_iff, !includes_lower_mentions. tauto.
Qed.

Lemma networkWording_spec (m : string) :
  (let msg := toLowerCase m in
   includes "network" msg || includes "fetch" msg || includes "timeout" msg
   || includes "connection refused" msg || includes "connection reset" msg
   || includes "econnrefused" msg || includes "econnreset" msg) = true
  <-> networkWording m.
Proof.
  unfold networkWording. cbv zeta.
  rewrite !orb_true_iff, !includes_lower_mentions. tauto.
Qed.

(** ** The error classifier *)

Lemma isRateLimitError_iff (e : Thrown) :
  isRateLimitError e = true <->
  (exists m, errorMessage e = Some m /\ rateLimitWording m)
  \/ errorStatus e = Some (JNumber 429).
Proof.
  unfold isRateLimitError. rewrite orb_true_iff. split.
  - intros [H | H].
    + left. destruct (errorMessage e) as [m|]; [|discriminate].
      exists m. split; [reflexivity | now apply rateLimitWording_spec].
    + right. destruct (errorStatus e) as [[| |n|]|]; try discriminate.
      destruct (Z.eq_dec n 429) as [->|Hn]; [reflexivity|].
      destruct n as [|p|p]; try discriminate.
      do 9 (destruct p as [p|p|]; try discriminate). congruence.
  - intros [(m & -> & Hm) | ->].
    + left. now apply rateLimitWording_spec.
    + now right.
Qed.

Lemma isRetryableError_iff (e : Thrown) :
  isRetryableError e = true <->
  isRateLimitError e = true
  \/ (exists m, errorMessage e = Some m /\ networkWording m)
  \/ (exists n, errorStatus e = Some (JNumber n) /\ 500 <= n < 600).
Proof.
  unfold isRetryableError. destruct (isRateLimitError e); [tauto|].
  rewrite orb_true_iff. split.
  - intros [H | H]; right.
    + left. destruct (errorMessage e) as [m|]; [|discriminate].
      exists m. split; [reflexivity | now apply networkWording_spec].
    + right. destruct (errorStatus e) as [[| |n|]|]; try discriminate.
      exists n. split; [reflexivity | lia].
  - intros [H | [(m & -> & Hm) | (n & -> & Hn)]]; [discriminate | |].
    + left. now apply networkWording_spec.
    + right. apply andb_true_iff. lia.
Qed.

(** C5, as stated, fails: a rejected value that is a plain object (not an
    [Error] instance) whose message says "Rate limit exceeded" is classified
    neither rate-limited nor retryable, because the message is only read
    under the [error instanceof Error] guard.  Likewise a [statusCode] of
    429 is not looked at when [status] holds something else. *)
Lemma classifier_skips_message_of_plain_object :
  mentions "rate limit" "Rate limit exceeded"
  /\ isRateLimitError (ThrownObject false "Rate limit exceeded" JUndefined JUndefined) = false
  /\ isRetryableError (ThrownObject false "Rate limit exceeded" JUndefined JUndefined) = false
  /\ isRateLimitError (ThrownObject false "" (JText "error") (JNumber 429)) = false.
Proof.
  split; [|repeat split; reflexivity].
  exists "", "Rate limit", " exceeded". split; reflexivity.
Qed.

(** C5, amended: the status the classifier reads is [status ?? statusCode]
    of an object, and the message is the one of an [Error] instance.  With
    that status equal to 429, or such a message worded as a rate limit, the
    failure is rate-limited; with that status in [500,599], or such a
    message worded as a network or timeout failure, it is retryable; with
    that status one of 400, 401, 403, 404 and no such wording it is not
    retryable; and rate-limited implies retryable. *)
Theorem classifier_on_status_and_error_message (e : Thrown) :
  ((errorStatus e = Some (JNumber 429)
    \/ exists m, errorMessage e = Some m /\ rateLimitWording m) ->
   isRateLimitError e = true)
  /\ (((exists n, errorStatus e = Some (JNumber n) /\ 500 <= n <= 599)
       \/ exists m, errorMessage e = Some m /\ networkWording m) ->
      isRetryableError e = true)
  /\ ((exists n, errorStatus e = Some (JNumber n)
                 /\ (n = 400 \/ n = 401 \/ n = 403 \/ n = 404)) ->
      (forall m, errorMessage e = Some m -> ~ rateLimitWording m /\ ~ networkWording m) ->
      isRetryableError e = false)
  /\ (isRateLimitError e = true -> isRetryableError e = true).
Proof.
  repeat split.
  - intros H. apply isRateLimitError_iff. tauto.
  - intros [(n & Hs & Hn) | H]; apply isRetryableError_iff.
    + right; right. exists n. split; [assumption | lia].
    + right; left. assumption.
  - intros (n & Hs & Hn) Hmsg.
    destruct (isRetryableError e) eqn:E; [|reflexivity]. exfalso.
    apply isRetryableError_iff in E.
    destruct E as [E | [(m & Hm & Hw) | (k & Hk & Hr)]].
    + apply isRateLimitError_iff in E. destruct E as [(m & Hm & Hw) | E].
      * now destruct (Hmsg m Hm).
      * rewrite Hs in E. injection E as E. lia.
    + now destruct (Hmsg m Hm).
    + rewrite Hs in Hk. injection Hk as Hk. lia.
  - intros H. apply isRetryableError_iff. now left.
Qed.

Lemma classifier_on_status_and_error_message_witness :
  isRateLimitError (ThrownObject false "" JNull (JNumber 429)) = true
  /\ isRetryableError (newError "Failed to FETCH") = true
  /\ isRetryableError (ThrownObject true "Not Found" (JNumber 404) JUndefined) = false.
Proof.
  split; [|split].
  - apply (proj1 (classifier_on_status_and_error_message _)).
    left. reflexivity.
  - apply (proj1 (proj2 (classifier_on_status_and_error_message _))).
    right. exists "Failed to FETCH". split; [reflexivity|].
    right; left. exists "Failed to ", "FETCH", "". split; reflexivity.
  - apply (proj1 (proj2 (proj2 (classifier_on_status_and_error_message _)))).
    + exists 404. split; [reflexivity | lia].
    + intros m Hm. injection Hm as <-.
      split; intros H; [apply rateLimitWording_spec in H | apply networkWording_spec in H];
        discriminate.
Defined.

(** ** Content validation *)

(** C8: [validateContent] always returns a verdict.  With validation
    disabled or an empty pattern every content is valid; in regex mode a
    pattern the [RegExp] constructor rejects makes every content valid, with
    a warning; in literal mode the verdict is substring containment; and a
    result that is not a string is never handed to the validator. *)
Theorem validateContent_fails_open (host : Host) (settings : Settings) (content : string) :
  (exists verdict warnings, validateContent host content settings = (verdict, warnings))
  /\ (requiredContentEnabled settings = false \/ requiredContentPattern settings = "" ->
      validateContent host content settings = (true, []))
  /\ (requiredContentEnabled settings = true ->
      requiredContentPattern settings <> "" ->
      requiredContentIsRegex settings = true ->
      newRegExp host (requiredContentPattern settings) = None ->
      validateContent host content settings
      = (true, [WarnInvalidRegex (requiredContentPattern settings)]))
  /\ (requiredContentEnabled settings = true ->
      requiredContentPattern settings <> "" ->
      requiredContentIsRegex settings = false ->
      snd (validateContent host content settings) = []
      /\ (fst (validateContent host content settings) = true
          <-> exists pre post, content = pre +:+ requiredContentPattern settings +:+ post))
  /\ (forall tag w, contentInvalid host settings (VOther tag) w = (Done false, w)).
Proof.
  unfold validateContent. split; [|split; [|split; [|split]]].
  - match goal with |- exists v ws, ?x = _ => exists (fst x), (snd x) end.
    apply surjective_pairing.
  - intros [-> | ->]; [reflexivity|].
    rewrite bool_decide_eq_true_2 by reflexivity. now rewrite orb_true_r.
  - intros -> Hp -> ->. now rewrite bool_decide_eq_false_2.
  - intros -> Hp ->. rewrite bool_decide_eq_false_2 by assumption. simpl.
    split; [reflexivity | apply includes_spec].
  - reflexivity.
Qed.

Lemma validateContent_fails_open_witness :
  validateContent (hostOf []) "any reply" badRegexSettings
  = (true, [WarnInvalidRegex "("]).
Proof.
  apply (proj1 (proj2 (proj2
           (validateContent_fails_open (hostOf []) badRegexSettings "any reply"))));
    [reflexivity | discriminate | reflexivity | reflexivity].
Defined.

(** ** Notifications and the timeout race *)

Lemma frame_refl (w : World) : frame w w.
Proof. unfold frame. tauto. Qed.

Lemma frame_trans (w1 w2 w3 : World) : frame w1 w2 -> frame w2 w3 -> frame w1 w3.
Proof.
  unfold frame. intros (C1 & F1 & R1) (C2 & F2 & R2).
  repeat split; try congruence; intros H; [apply R1, R2, H | apply R2, R1, H].
Qed.

Lemma frame_registered (gid : string) (w w' : World) :
  frame w w' -> registered gid w -> registered gid w'.
Proof. intros (_ & _ & R) H. now apply R. Qed.

Lemma frame_addNotices (ns : list Notice) (w : World) : frame w (addNotices ns w).
Proof. unfold frame. simpl. tauto. Qed.

Lemma frame_insert (g : string) (c c' : RetryContext) (w : World) :
  activeContexts w !! g = Some c ->
  frame w (setContexts (<[g := c']> (activeContexts w)) w).
Proof.
  intros H. unfold frame. simpl. repeat split; try reflexivity.
  all: destruct (decide (g = g0)) as [<-|Hne];
    [rewrite ?lookup_insert_eq, ?H; eauto | rewrite ?lookup_insert_ne by assumption; tauto].
Qed.

(** [abortRetry] and [updateTokenTime] return, touch one context at most,
    and only the context of the id they are given. *)
Lemma abortRetry_spec (g : string) (w : World) :
  exists b w', abortRetry g w = (Done b, w') /\ frame w w'
    /\ notices w' = notices w
    /\ (forall gid, gid <> g -> activeContexts w' !! gid = activeContexts w !! gid)
    /\ activeContexts w' !! g = markAborted <$> activeContexts w !! g.
Proof.
  unfold abortRetry. destruct (activeContexts w !! g) as [c|] eqn:E.
  - eexists _, _. split; [reflexivity|]. split; [now apply frame_insert with c|].
    simpl. split; [reflexivity|]. split.
    + intros gid Hne. now rewrite lookup_insert_ne.
    + now rewrite lookup_insert_eq.
  - eexists _, _. split; [reflexivity|]. rewrite E. auto using frame_refl.
Qed.

Lemma updateTokenTime_spec (g : string) (now : Z) (w : World) :
  exists w', updateTokenTime g now w = (Done tt, w') /\ frame w w'
    /\ notices w' = notices w
    /\ (forall gid, gid <> g -> activeContexts w' !! gid = activeContexts w !! gid)
    /\ activeContexts w' !! g = markToken now <$> activeContexts w !! g.
Proof.
  unfold updateTokenTime. destruct (activeContexts w !! g) as [c|] eqn:E.
  - eexists. split; [reflexivity|]. split; [now apply frame_insert with c|].
    simpl. split; [reflexivity|]. split.
    + intros gid Hne. now rewrite lookup_insert_ne.
    + now rewrite lookup_insert_eq.
  - eexists. split; [reflexivity|]. rewrite E. auto using frame_refl.
Qed.

(** Either notification keeps a lowered abort flag of [gid] lowered, unless
    it is the request to abort [gid]. *)
Lemma abortRetry_other (gid g : string) (w : World) :
  EvAbort g <> EvAbort gid -> notAborted gid w -> notAborted gid (snd (abortRetry g w)).
Proof.
  intros Hne (c & Hc & Ha).
  destruct (abortRetry_spec g w) as (b & w' & -> & _ & _ & Ho & _). simpl.
  exists c. rewrite Ho; [auto | congruence].
Qed.

Lemma updateTokenTime_notAborted (gid g : string) (now : Z) (w : World) :
  notAborted gid w -> notAborted gid (snd (updateTokenTime g now w)).
Proof.
  intros (c & Hc & Ha).
  destruct (updateTokenTime_spec g now w) as (w' & -> & _ & _ & Ho & Hs). simpl.
  destruct (decide (gid = g)) as [->|Hne].
  - exists (markToken now c). rewrite Hs, Hc. auto.
  - exists c. rewrite Ho; auto.
Qed.

(** The race never gets stuck while its context is registered, and leaves
    the records of calls and failures alone. *)
Lemma raceEvents_frame (gid : string) (settings : Settings) (events : list Event) :
  forall (r : Race) (w : World),
    registered gid w ->
    fst (raceEvents gid settings r events w) <> Stuck
    /\ frame w (snd (raceEvents gid settings r events w)).
Proof.
  induction events as [|ev rest IH]; intros r w Hreg.
  - simpl. split; [discriminate | apply frame_refl].
  - destruct ev as [g now | g | now | o]; simpl.
    + unfold bind.
      destruct (updateTokenTime_spec g now w) as (w' & -> & Hf & _).
      destruct (IH r w' (frame_registered _ _ _ Hf Hreg)) as [H1 H2].
      split; [assumption | eapply frame_trans; eassumption].
    + unfold bind.
      destruct (abortRetry_spec g w) as (b & w' & -> & Hf & _).
      destruct (IH r w' (frame_registered _ _ _ Hf Hreg)) as [H1 H2].
      split; [assumption | eapply frame_trans; eassumption].
    + destruct (streamingCheckInterval r); [|now apply IH].
      unfold bind, readContext. destruct Hreg as [c Hc]. rewrite Hc.
      destruct (resolved r || aborted c); [apply IH; now exists c|].
      destruct (hasReceivedContent c && _); [|apply IH; now exists c].
      unfold notify, update, when. destruct (showRetryToast settings); simpl.
      * split; [discriminate|].
        eapply frame_trans; apply frame_addNotices.
      * split; [discriminate | apply frame_addNotices].
    + destruct (resolved r); [now apply IH|].
      simpl. split; [discriminate | apply frame_refl].
Qed.

Lemma raceWithTimeouts_frame (gid : string) (settings : Settings)
    (events : list Event) (w : World) :
  registered gid w ->
  fst (raceWithTimeouts gid settings events w) <> Stuck
  /\ frame w (snd (raceWithTimeouts gid settings events w)).
Proof.
  intros Hreg. unfold raceWithTimeouts, bind, readContext.
  destruct Hreg as [c Hc]. rewrite Hc. apply raceEvents_frame. now exists c.
Qed.

Lemma sleep_spec (ms : Q) (events : list Event) :
  forall w : World,
    exists w', sleep ms events w = (Done tt, w') /\ frame w w'
               /\ notices w' = notices w.
Proof.
  induction events as [|ev rest IH]; intros w.
  - exists w. simpl. auto using frame_refl.
  - destruct ev as [g now | g | now | o]; simpl; try apply IH.
    + unfold bind. destruct (updateTokenTime_spec g now w) as (w1 & -> & Hf & Hn & _).
      destruct (IH w1) as (w' & -> & Hf' & Hn').
      exists w'. split; [reflexivity|]. split; [eapply frame_trans; eassumption | congruence].
    + unfold bind. destruct (abortRetry_spec g w) as (b & w1 & -> & Hf & Hn & _).
      destruct (IH w1) as (w' & -> & Hf' & Hn').
      exists w'. split; [reflexivity|]. split; [eapply frame_trans; eassumption | congruence].
Qed.

Lemma awaitOperation_spec (events : list Event) :
  forall w : World,
    fst (awaitOperation events w)
    = match firstSettle events with Some o => Done o | None => Pending end
    /\ frame w (snd (awaitOperation events w))
    /\ notices (snd (awaitOperation events w)) = notices w.
Proof.
  induction events as [|ev rest IH]; intros w.
  - simpl. auto using frame_refl.
  - destruct ev as [g now | g | now | o]; simpl; try apply IH.
    + unfold bind. destruct (updateTokenTime_spec g now w) as (w1 & -> & Hf & Hn & _).
      destruct (IH w1) as (H1 & H2 & H3).
      split; [assumption|]. split; [eapply frame_trans; eassumption | congruence].
    + unfold bind. destruct (abortRetry_spec g w) as (b & w1 & -> & Hf & Hn & _).
      destruct (IH w1) as (H1 & H2 & H3).
      split; [assumption|]. split; [eapply frame_trans; eassumption | congruence].
    + auto using frame_refl.
Qed.

(** Without the interval timer the race is decided by the underlying
    promise alone, and nothing is announced. *)
Lemma raceEvents_without_timer (gid : string) (settings : Settings) (events : list Event) :
  forall (r : Race) (w : World),
    streamingCheckInterval r = false -> resolved r = false ->
    fst (raceEvents gid settings r events w)
    = match firstSettle events with Some o => Done (ByOperation o) | None => Pending end
    /\ notices (snd (raceEvents gid settings r events w)) = notices w.
Proof.
  induction events as [|ev rest IH]; intros r w Ht Hr; [now simpl|].
  destruct ev as [g now | g | now | o]; simpl.
  - unfold bind. destruct (updateTokenTime_spec g now w) as (w1 & -> & _ & Hn & _).
    rewrite <- Hn. now apply IH.
  - unfold bind. destruct (abortRetry_spec g w) as (b & w1 & -> & _ & Hn & _).
    rewrite <- Hn. now apply IH.
  - rewrite Ht. now apply IH.
  - rewrite Hr. now simpl.
Qed.

(** When the interval callback rejects, the timer was installed and the
    context has received content. *)
Lemma raceEvents_stall (gid : string) (settings : Settings) (events : list Event) :
  forall (r : Race) (w w' : World),
    raceEvents gid settings r events w = (Done ByStallTimer, w') ->
    streamingCheckInterval r = true
    /\ exists ctx', activeContexts w' !! gid = Some ctx' /\ hasReceivedContent ctx' = true.
Proof.
  induction events as [|ev rest IH]; intros r w w' H; [discriminate|].
  destruct ev as [g now | g | now | o]; simpl in H.
  - unfold bind in H. destruct (updateTokenTime_spec g now w) as (w1 & E & _).
    rewrite E in H. now apply IH in H.
  - unfold bind in H. destruct (abortRetry_spec g w) as (b & w1 & E & _).
    rewrite E in H. now apply IH in H.
  - destruct (streamingCheckInterval r) eqn:Ht; [|apply IH in H; destruct H; congruence].
    split; [reflexivity|].
    unfold bind, readContext in H.
    destruct (activeContexts w !! gid) as [c|] eqn:Hc; [|discriminate].
    destruct (resolved r || aborted c).
    { apply IH in H. destruct H as [H _]. discriminate. }
    destruct (hasReceivedContent c) eqn:Hrc; simpl in H.
    + destruct (streamingTimeoutMs settings <? now - lastTokenTime c).
      * exists c. split; [|assumption].
        unfold notify, update, when in H. destruct (showRetryToast settings);
          simpl in H; injection H as <-; exact Hc.
      * now apply IH in H.
    + now apply IH in H.
  - destruct (resolved r); [now apply IH in H | discriminate].
Qed.

(** While no token of [gid] arrives, the interval callback never rejects:
    the race can only be settled by the underlying promise. *)
Lemma raceEvents_silent (gid : string) (settings : Settings) (events : list Event) :
  forall (r : Race) (w w' : World) (winner : Winner),
    silent gid w -> noToken gid events ->
    raceEvents gid settings r events w = (Done winner, w') ->
    exists o, winner = ByOperation o /\ In (EvSettle o) events.
Proof.
  induction events as [|ev rest IH]; intros r w w' winner Hs Hq H; [discriminate|].
  apply Forall_cons in Hq. destruct Hq as [Hev Hq].
  assert (Hin : forall o, (exists o', o = ByOperation o' /\ In (EvSettle o') rest) ->
                          exists o', o = ByOperation o' /\ In (EvSettle o') (ev :: rest)).
  { intros o (o' & -> & Hi). exists o'. split; [reflexivity | now right]. }
  destruct ev as [g now | g | now | o]; simpl in H.
  - unfold bind in H. destruct (updateTokenTime_spec g now w) as (w1 & E & _ & _ & Ho & _).
    rewrite E in H. apply Hin. eapply IH; [|eassumption|eassumption].
    destruct Hs as (c & Hc & Hf). exists c. split; [|assumption].
    rewrite Ho; [assumption|]. intros ->. now apply (Hev now).
  - unfold bind in H. destruct (abortRetry_spec g w) as (b & w1 & E & _ & _ & Ho & Hg).
    rewrite E in H. apply Hin. eapply IH; [|eassumption|eassumption].
    destruct Hs as (c & Hc & Hf). destruct (decide (gid = g)) as [->|Hne].
    + exists (markAborted c). now rewrite Hg, Hc.
    + exists c. now rewrite Ho.
  - apply Hin. destruct (streamingCheckInterval r); [|eapply IH; eassumption].
    unfold bind, readContext in H. destruct Hs as (c & Hc & Hf).
    rewrite Hc in H. destruct (resolved r || aborted c).
    + eapply IH; [|eassumption|eassumption]. now exists c.
    + rewrite Hf in H. simpl in H. eapply IH; [|eassumption|eassumption]. now exists c.
  - destruct (resolved r).
    + apply Hin. eapply IH; eassumption.
    + injection H as <- <-. exists o. split; [reflexivity | now left].
Qed.

(** C10: for a context that is not streaming the race installs no timer,
    announces nothing and settles exactly as the underlying promise does
    (or stays pending with it); and whenever the interval callback rejects,
    the context is streaming and its content-received flag is up. *)
Theorem race_without_streaming_is_the_operation (gid : string) (settings : Settings)
    (events : list Event) (w : World) (ctx : RetryContext) :
  activeContexts w !! gid = Some ctx ->
  (isStreaming ctx = false ->
   streamingCheckInterval (raceStart ctx) = false
   /\ fst (raceWithTimeouts gid settings events w)
      = match firstSettle events with
        | Some o => Done (ByOperation o)
        | None => Pending
        end
   /\ notices (snd (raceWithTimeouts gid settings events w)) = notices w)
  /\ (forall w', raceWithTimeouts gid settings events w = (Done ByStallTimer, w') ->
      isStreaming ctx = true
      /\ exists ctx', activeContexts w' !! gid = Some ctx'
                      /\ hasReceivedContent ctx' = true).
Proof.
  intros Hc. unfold raceWithTimeouts, bind, readContext. rewrite Hc. split.
  - intros Hs. split; [exact Hs|].
    apply raceEvents_without_timer; [exact Hs | reflexivity].
  - intros w' H. now apply raceEvents_stall in H.
Qed.

(** C3: the race has no trigger for the time before the first token.  From
    a context with no content received, and while no token arrives, the
    race is settled by the underlying promise or not at all, whatever the
    clock says at the ticks. *)
Theorem race_has_no_thinking_timeout (gid : string) (settings : Settings)
    (events : list Event) (w w' : World) (ctx : RetryContext) (winner : Winner) :
  activeContexts w !! gid = Some ctx ->
  hasReceivedContent ctx = false ->
  noToken gid events ->
  raceWithTimeouts gid settings events w = (Done winner, w') ->
  exists o, winner = ByOperation o /\ In (EvSettle o) events.
Proof.
  intros Hc Hf Hq. unfold raceWithTimeouts, bind, readContext. rewrite Hc.
  apply raceEvents_silent; [now exists ctx | assumption].
Qed.

(** ** Reasoning about engine computations *)

Lemma wp_bind {A B} (pend : Prop) (m : M A) (k : A -> M B) (Q : B -> World -> Prop) (w : World) :
  wp pend (bind m k) Q w = wp pend m (fun a w' => wp pend (k a) Q w') w.
Proof. unfold wp, bind. destruct (m w) as [[a| |] w']; reflexivity. Qed.

Lemma wp_ret {A} (pend : Prop) (a : A) (Q : A -> World -> Prop) (w : World) :
  wp pend (ret a) Q w = Q a w.
Proof. reflexivity. Qed.

Lemma wp_update (pend : Prop) (f : World -> World) (Q : unit -> World -> Prop) (w : World) :
  wp pend (update f) Q w = Q tt (f w).
Proof. reflexivity. Qed.

Lemma wp_notify (pend : Prop) (n : Notice) (Q : unit -> World -> Prop) (w : World) :
  wp pend (notify n) Q w = Q tt (addNotices [n] w).
Proof. reflexivity. Qed.

Lemma wp_when (pend : Prop) (b : bool) (n : Notice) (Q : unit -> World -> Prop) (w : World) :
  wp pend (when b (notify n)) Q w = Q tt (if b then addNotices [n] w else w).
Proof. destruct b; reflexivity. Qed.

Lemma wp_nextEpisode (pend : Prop) (host : Host) (Q : Episode -> World -> Prop) (w : World) :
  wp pend (nextEpisode host) Q w = Q (script host (length (calls w))) w.
Proof. reflexivity. Qed.

Lemma wp_readContext (pend : Prop) (gid : string) (ctx : RetryContext)
    (Q : RetryContext -> World -> Prop) (w : World) :
  activeContexts w !! gid = Some ctx ->
  wp pend (readContext gid) Q w = Q ctx w.
Proof. intros H. unfold wp, readContext. now rewrite H. Qed.

Lemma wp_writeContext (pend : Prop) (gid : string) (f : RetryContext -> RetryContext)
    (ctx : RetryContext) (Q : unit -> World -> Prop) (w : World) :
  activeContexts w !! gid = Some ctx ->
  wp pend (writeContext gid f) Q w
  = Q tt (setContexts (<[gid := f ctx]> (activeContexts w)) w).
Proof.
  intros H. unfold writeContext. rewrite wp_bind, (wp_readContext _ _ ctx) by assumption.
  reflexivity.
Qed.

Lemma wp_assignLastError (pend : Prop) (e : Thrown) (st : Locals.t)
    (Q : Locals.t -> World -> Prop) (w : World) :
  wp pend (assignLastError e st) Q w = Q (Locals.setLastError e st) (addFailure e w).
Proof. reflexivity. Qed.

Lemma wp_callCurrentFn (pend : Prop) (st : Locals.t) (Q : unit -> World -> Prop) (w : World) :
  wp pend (callCurrentFn st) Q w
  = Q tt (addCall {| call_fn := Locals.currentFn st;
                     call_fallbackIndex := Locals.fallbackIndex st;
                     call_attempt := Locals.attempt st |} w).
Proof. reflexivity. Qed.

Lemma wp_conseq {A} (pend pend' : Prop) (m : M A) (Q Q' : A -> World -> Prop) (w : World) :
  wp pend m Q w -> (pend -> pend') -> (forall a w', Q a w' -> Q' a w') -> wp pend' m Q' w.
Proof. unfold wp. destruct (m w) as [[a| |] w']; auto. Qed.

Lemma wp_mono {A} (pend : Prop) (m : M A) (Q Q' : A -> World -> Prop) (w : World) :
  wp pend m Q w -> (forall a w', Q a w' -> Q' a w') -> wp pend m Q' w.
Proof. intros H HQ. eapply wp_conseq; eauto. Qed.

Lemma wp_run {A} (pend : Prop) (m : M A) (Q : A -> World -> Prop) (w : World) (a : A) (w' : World) :
  wp pend m Q w -> m w = (Done a, w') -> Q a w'.
Proof. unfold wp. intros H E. now rewrite E in H. Qed.

Lemma wp_ends {A} (m : M A) (Q : A -> World -> Prop) (w : World) :
  wp False m Q w -> exists a w', m w = (Done a, w') /\ Q a w'.
Proof. unfold wp. destruct (m w) as [[a| |] w']; try easy. intros H. now exists a, w'. Qed.

Lemma wp_not_stuck {A} (pend : Prop) (m : M A) (Q : A -> World -> Prop) (w : World) :
  wp pend m Q w -> fst (m w) <> Stuck.
Proof. unfold wp. destruct (m w) as [[a| |] w']; easy. Qed.

(** *** Waiting *)

Lemma wp_raceWithTimeouts (gid : string) (settings : Settings) (events : list Event) (w : World) :
  registered gid w ->
  wp True (raceWithTimeouts gid settings events) (fun _ w' => frame w w') w.
Proof.
  intros H. destruct (raceWithTimeouts_frame gid settings events w H) as [Hs Hf].
  unfold wp. destruct (raceWithTimeouts _ _ _ _) as [[a| |] w']; simpl in *; auto.
Qed.

Lemma wp_handleRetryDelay (pend : Prop) (attempt : Z) (settings : Settings) (isRateLimit : bool)
    (events : list Event) (w : World) :
  wp pend (handleRetryDelay attempt settings isRateLimit events) (fun _ w' => frame w w') w.
Proof.
  unfold handleRetryDelay. rewrite wp_bind, wp_notify.
  destruct (sleep_spec (calculateDelay attempt settings isRateLimit) events
              (addNotices [Sleep (calculateDelay attempt settings isRateLimit)] w))
    as (w' & E & Hf & _).
  unfold wp. rewrite E. eapply frame_trans; [apply frame_addNotices | exact Hf].
Qed.

Lemma wp_contentInvalid (pend : Prop) (host : Host) (settings : Settings) (v : Value) (w : World) :
  wp pend (contentInvalid host settings v) (fun _ w' => frame w w') w.
Proof.
  destruct v as [s|tag]; simpl; [|apply frame_refl].
  destruct (validateContent host s settings) as [ok warnings].
  rewrite wp_bind, wp_update, wp_ret. apply frame_addNotices.
Qed.

(** *** Keeping track of what has been recorded *)

Lemma grows_refl (w : World) : grows [] [] w w.
Proof. unfold grows. rewrite !app_nil_r. tauto. Qed.

Lemma grows_frame (cs : list Call) (fs : list Thrown) (w w1 w2 : World) :
  grows cs fs w w1 -> frame w1 w2 -> grows cs fs w w2.
Proof.
  intros (C & F & R) (C' & F' & R'). unfold grows.
  rewrite C', F', C, F.
  repeat split; try reflexivity; intros H; [apply R, R', H | apply R', R, H].
Qed.

Lemma grows_trans (cs cs' : list Call) (fs fs' : list Thrown) (w w1 w2 : World) :
  grows cs fs w w1 -> grows cs' fs' w1 w2 -> grows (cs ++ cs') (fs ++ fs') w w2.
Proof.
  intros (C & F & R) (C' & F' & R'). unfold grows.
  rewrite C', F', C, F, !app_assoc.
  repeat split; try reflexivity; intros H; [apply R, R', H | apply R', R, H].
Qed.

Lemma grows_addCall (cs : list Call) (fs : list Thrown) (c : Call) (w w1 : World) :
  grows cs fs w w1 -> grows (cs ++ [c]) fs w (addCall c w1).
Proof. intros (C & F & R). unfold grows. simpl. rewrite C, F, app_assoc. auto. Qed.

Lemma grows_addFailure (cs : list Call) (fs : list Thrown) (e : Thrown) (w w1 : World) :
  grows cs fs w w1 -> grows cs (fs ++ [e]) w (addFailure e w1).
Proof. intros (C & F & R). unfold grows. simpl. rewrite C, F, app_assoc. auto. Qed.

Lemma grows_addNotices (cs : list Call) (fs : list Thrown) (ns : list Notice) (w w1 : World) :
  grows cs fs w w1 -> grows cs fs w (addNotices ns w1).
Proof. intros (C & F & R). unfold grows. simpl. auto. Qed.

Lemma grows_if (cs : list Call) (fs : list Thrown) (b : bool) (w w1 w2 : World) :
  grows cs fs w w1 -> grows cs fs w w2 -> grows cs fs w (if b then w1 else w2).
Proof. now destruct b. Qed.

Lemma grows_insert (cs : list Call) (fs : list Thrown) (g : string) (x : RetryContext)
    (w w1 : World) :
  grows cs fs w w1 -> registered g w ->
  grows cs fs w (setContexts (<[g := x]> (activeContexts w1)) w1).
Proof.
  intros (C & F & R) Hg. unfold grows. simpl. repeat split; try assumption.
  all: destruct (decide (g = g0)) as [<-|Hne];
    [rewrite ?lookup_insert_eq; intros _; first [eauto | exact Hg]
    | rewrite ?lookup_insert_ne by assumption; apply R].
Qed.

Lemma grows_registered (cs : list Call) (fs : list Thrown) (g : string) (w w1 : World) :
  grows cs fs w w1 -> registered g w -> registered g w1.
Proof. intros (_ & _ & R) H. now apply R. Qed.

Ltac grows_tac :=
  repeat match goal with
  | |- grows _ _ _ (addCall _ _) => eapply grows_addCall
  | |- grows _ _ _ (addFailure _ _) => eapply grows_addFailure
  | |- grows _ _ _ (addNotices _ _) => eapply grows_addNotices
  | |- grows _ _ _ (if _ then _ else _) => eapply grows_if
  | |- grows _ _ _ (setContexts (<[_ := _]> _) _) => eapply grows_insert; [|eassumption]
  | |- grows _ _ ?w ?w => apply grows_refl
  | |- grows _ _ _ _ => eassumption
  end.

(** At a computation with a specification [spec]: sum up in [G] what was
    recorded up to the current state, apply [spec], and carry [G] over the
    frame that [spec] promises. *)
Ltac wp_wait G spec :=
  match type of G with
  | grows _ _ ?w0 _ =>
      match goal with
      | |- wp _ _ _ ?w1 =>
          let wa := fresh "wa" in
          let Ga := fresh "Ga" in
          let wn := fresh "w" in
          let Hf := fresh "Hf" in
          let a := fresh "a" in
          set (wa := w1);
          eassert (Ga : grows _ _ w0 wa) by (subst wa; grows_tac);
          clearbody wa; clear G;
          eapply wp_mono; [ spec | ];
          intros a wn Hf; cbv beta;
          pose proof (grows_frame _ _ _ _ _ Ga Hf) as G;
          clear Ga Hf
      end
  end.

(** ** One pass through a loop body *)

Lemma attemptRecorded_intro (st : Locals.t) (w w' : World) (e : Thrown) (step : Step) :
  grows ([] ++ [callOf st]) ([] ++ [e]) w w' ->
  step = Continue (afterFailure e st) \/ step = Break (afterFailure e st) ->
  attemptRecorded st w step w'.
Proof.
  intros (C & F & _) [-> | ->]; simpl;
    (split; [exact C | exists e; split; [exact F | reflexivity]]).
Qed.

Ltac finish_attempt Hreg :=
  rewrite ?wp_ret;
  split;
  [ eapply grows_registered; [|exact Hreg]; grows_tac
  | first [ exact I
          | eapply attemptRecorded_intro;
            [grows_tac | first [left; reflexivity | right; reflexivity]] ] ].

(** Both loop bodies have the same shape; this is the walk through it. *)
Ltac attempt_recorded :=
  let Hreg := fresh "Hreg" in
  let c := fresh "c" in
  let Hc := fresh "Hc" in
  let G := fresh "G" in
  intros Hreg; destruct (Hreg) as [c Hc];
  match goal with |- wp _ _ _ ?w => pose proof (grows_refl w) as G end;
  rewrite wp_bind, (wp_readContext _ _ c) by assumption;
  destruct (aborted c); [finish_attempt Hreg|];
  rewrite wp_bind, wp_nextEpisode;
  rewrite wp_bind, (wp_writeContext _ _ _ c) by assumption;
  rewrite wp_bind, wp_when;
  rewrite wp_bind, wp_callCurrentFn;
  rewrite wp_bind;
  wp_wait G ltac:(apply wp_raceWithTimeouts; eapply grows_registered; eassumption);
  match goal with |- context [settlementOf ?a] => destruct (settlementOf a) as [?v|?e] end;
  [ rewrite wp_bind;
    wp_wait G ltac:(apply wp_contentInvalid);
    match goal with |- context [if ?b then _ else _] => destruct b end;
    [ rewrite wp_bind, wp_when, wp_bind, wp_assignLastError, wp_bind;
      wp_wait G ltac:(apply wp_handleRetryDelay);
      finish_attempt Hreg
    | rewrite wp_bind, wp_when; finish_attempt Hreg ]
  | rewrite wp_bind, wp_assignLastError, wp_bind, wp_notify, wp_bind;
    match goal with
    | |- wp _ (readContext ?gid) _ ?w1 =>
        let c1 := fresh "c" in
        let Hc1 := fresh "Hc" in
        assert (Hc1 : registered gid w1)
          by (eapply grows_registered; [|exact Hreg]; grows_tac);
        destruct Hc1 as [c1 Hc1];
        rewrite (wp_readContext _ _ c1) by exact Hc1;
        destruct (aborted c1); [finish_attempt Hreg|]
    end;
    match goal with |- context [negb ?b] => destruct (negb b) end;
    [finish_attempt Hreg|];
    match goal with |- context [?x <=? ?y] => destruct (x <=? y) end;
    [finish_attempt Hreg|];
    repeat (rewrite wp_bind || rewrite wp_when);
    wp_wait G ltac:(apply wp_handleRetryDelay);
    finish_attempt Hreg ].

Lemma primaryAttempt_recorded (host : Host) (settings : Settings) (gid : string)
    (st : Locals.t) (w : World) :
  registered gid w ->
  wp True (primaryAttempt host settings gid st)
     (fun step w' => registered gid w' /\ attemptRecorded st w step w') w.
Proof. unfold primaryAttempt. attempt_recorded. Qed.

Lemma fallbackAttempt_recorded (host : Host) (settings : Settings) (gid : string)
    (fallbackModel : FallbackModel) (st : Locals.t) (w : World) :
  registered gid w ->
  wp True (fallbackAttempt host settings gid fallbackModel st)
     (fun step w' => registered gid w' /\ attemptRecorded st w step w') w.
Proof. unfold fallbackAttempt. attempt_recorded. Qed.

(** ** The loops keep the locals and the records in step *)

Lemma callsOn_snoc i cs c :
  callsOn i (cs ++ [c]) = callsOn i cs ++ (if decide (call_fallbackIndex c = i) then [c] else []).
Proof.
  unfold callsOn. now rewrite filter_app.
Qed.

Lemma attemptRecorded_consistent st w step w' :
  consistent st w -> attemptRecorded st w step w' ->
  match step with
  | Continue st' | Break st' =>
      consistent st' w' /\ sameBackend st st'
      /\ Locals.attempt st' = Locals.attempt st + 1
  | Return _ => True
  end.
Proof.
  intros (Hn & Hle & He) H.
  assert (K : forall st', calls w' = calls w ++ [callOf st]
              /\ (exists e, failures w' = failures w ++ [e] /\ st' = afterFailure e st) ->
              consistent st' w' /\ sameBackend st st'
              /\ Locals.attempt st' = Locals.attempt st + 1).
  { intros st' (C & e & F & ->). unfold consistent, sameBackend. simpl.
    rewrite C, F, callsOn_snoc, last_snoc. simpl.
    rewrite decide_True by reflexivity. rewrite length_app. simpl.
    repeat split; try reflexivity; [lia|].
    apply Forall_app. split; [assumption|]. constructor; [simpl; lia | constructor]. }
  destruct step; auto.
Qed.

Lemma sameBackend_refl st : sameBackend st st.
Proof. unfold sameBackend. tauto. Qed.

Lemma sameBackend_trans st1 st2 st3 : sameBackend st1 st2 -> sameBackend st2 st3 -> sameBackend st1 st3.
Proof. unfold sameBackend. intuition congruence. Qed.

Lemma retryWhile_consistent settings gid body :
  (forall st w, registered gid w ->
     wp True (body st) (fun step w' => registered gid w' /\ attemptRecorded st w step w') w) ->
  forall fuel st w,
    registered gid w -> consistent st w ->
    (Z.to_nat (maxRetries settings - Locals.attempt st) <= fuel)%nat ->
    wp True (retryWhile settings body fuel st)
       (fun r w' => registered gid w'
                    /\ match r with
                       | inl _ => True
                       | inr st' => consistent st' w' /\ sameBackend st st'
                       end) w.
Proof.
  intros Hbody. induction fuel as [|fuel IH]; intros st w Hreg Hcons Hfuel; simpl.
  - destruct (Locals.attempt st <? maxRetries settings) eqn:E.
    + apply Z.ltb_lt in E. exfalso. lia.
    + rewrite wp_ret. auto using sameBackend_refl.
  - destruct (Locals.attempt st <? maxRetries settings) eqn:E.
    + rewrite wp_bind. eapply wp_mono; [apply Hbody, Hreg|].
      intros step w1 [Hr1 Hrec]. cbv beta.
      pose proof (attemptRecorded_consistent _ _ _ _ Hcons Hrec) as Hstep.
      destruct step as [st'|st'|res].
      * destruct Hstep as (Hc' & Hsb & Ha).
        eapply wp_mono; [apply IH; [assumption|assumption|lia]|].
        intros [res|st''] w2; [tauto|].
        intros (Hr2 & Hc2 & Hsb2). split; [assumption|split; [assumption|]].
        eapply sameBackend_trans; eassumption.
      * rewrite wp_ret. tauto.
      * rewrite wp_ret. tauto.
    + rewrite wp_ret. auto using sameBackend_refl.
Qed.

Lemma consistent_same_records (st : Locals.t) (w w' : World) :
  calls w' = calls w -> failures w' = failures w -> consistent st w -> consistent st w'.
Proof. unfold consistent. now intros -> ->. Qed.

Lemma callsOn_later (i j : Z) (cs : list Call) :
  Forall (fun c => call_fallbackIndex c <= j) cs -> j < i -> callsOn i cs = [].
Proof.
  intros H Hlt. unfold callsOn. induction H as [|c cs Hc _ IH]; [reflexivity|].
  rewrite filter_cons_False by lia. exact IH.
Qed.

Lemma fallbackCascade_consistent (host : Host) (settings : Settings) (gid : string)
    (isRaw : bool) (models : list FallbackModel) :
  forall (i : Z) (st : Locals.t) (w : World) (b : option (Z * FallbackModel)),
    registered gid w -> consistent st w -> onBackend b st -> backendIndex b < i ->
    wp True (fallbackCascade host settings gid isRaw i models st)
       (fun r w' => registered gid w'
                    /\ match r with
                       | inl _ => True
                       | inr st' => consistent st' w' /\ onBackend (lastUsable i models b) st'
                       end) w.
Proof.
  induction models as [|fm rest IH]; intros i st w b Hreg Hcons Hb Hi; simpl.
  - rewrite wp_ret. auto.
  - destruct (unusable fm).
    + rewrite wp_bind, wp_notify.
      apply IH; [exact Hreg | now apply consistent_same_records with w | exact Hb | lia].
    + rewrite wp_bind, wp_when, wp_bind.
      match goal with |- wp _ (retryWhile _ _ _ ?s0) _ ?w1 =>
        set (st0 := s0); set (w0 := w1) end.
      assert (Hreg0 : registered gid w0) by (subst w0; now destruct (showRetryToast settings)).
      assert (Hcons0 : consistent st0 w0).
      { destruct Hcons as (Hn & Hle & He), Hb as (Hbi & _).
        assert (calls w0 = calls w /\ failures w0 = failures w) as [C F]
          by (subst w0; now destruct (showRetryToast settings)).
        unfold consistent. rewrite C, F. subst st0. simpl.
        rewrite (callsOn_later i (Locals.fallbackIndex st)) by (assumption || lia).
        repeat split; [|assumption].
        eapply Forall_impl; [exact Hle|]. simpl. intros c Hc. lia. }
      clearbody w0.
      eapply wp_mono;
        [apply (retryWhile_consistent settings gid);
         [intros; now apply fallbackAttempt_recorded | assumption | assumption
         | subst st0; unfold loopFuel; simpl; lia]|].
      intros [res|st'] w1; cbv beta.
      * intros [Hr1 _]. rewrite wp_ret. auto.
      * intros (Hr1 & Hc1 & Hsb).
        apply (IH (i + 1) st' w1 (Some (i, fm))); try assumption; [|simpl; lia].
        destruct Hsb as (S1 & S2 & S3 & _). unfold onBackend. now rewrite S1, S2, S3.
Qed.

Lemma consistent_start (config : Config) (w : World) :
  calls w = [] -> failures w = [] -> consistent (initialLocals config) w.
Proof. intros C F. unfold consistent. rewrite C, F. simpl. auto. Qed.

Lemma retryLoops_consistent (host : Host) (settings : Settings) (gid : string)
    (config : Config) (isRaw : bool) (w : World) :
  registered gid w -> calls w = [] -> failures w = [] ->
  wp True (retryLoops host settings gid config isRaw)
     (fun r w' => registered gid w'
                  /\ match r with
                     | inl _ => True
                     | inr st => consistent st w' /\ onBackend (lastBackend settings) st
                     end) w.
Proof.
  intros Hreg C F. unfold retryLoops. rewrite wp_bind.
  eapply wp_mono;
    [apply (retryWhile_consistent settings gid);
     [intros; now apply primaryAttempt_recorded | assumption
     | now apply consistent_start | unfold loopFuel; simpl; lia]|].
  intros [res|st] w1; cbv beta.
  - intros [Hr1 _]. rewrite wp_ret. auto.
  - intros (Hr1 & Hc1 & S1 & S2 & S3 & _).
    assert (Hb : onBackend None st) by (unfold onBackend; now rewrite S1, S2, S3).
    unfold lastBackend. destruct (fallbackModelsEnabled settings); simpl.
    + case_bool_decide.
      * now apply fallbackCascade_consistent.
      * rewrite wp_ret. destruct (fallbackModels settings); [auto | simpl in *; lia].
    + rewrite wp_ret. auto.
Qed.

(** ** Whole runs *)

Lemma run_retried (host : Host) (settings : Settings) (config : Config) (isRaw : bool)
    (registry : gmap string RetryContext) :
  shouldRetryGeneration (generationIdOf host config) settings = true ->
  run host settings config isRaw registry
  = tryFinally
      (executeRetryLoop host settings (generationIdOf host config) config isRaw)
      (fun w => setContexts (delete (generationIdOf host config) (activeContexts w)) w)
      (startWorld host config registry).
Proof. intros H. unfold run, executeWithRetry. now rewrite H. Qed.

Lemma startWorld_registered (host : Host) (config : Config)
    (registry : gmap string RetryContext) :
  registered (generationIdOf host config) (startWorld host config registry).
Proof. unfold registered, startWorld. simpl. rewrite lookup_insert_eq. eauto. Qed.

Lemma executeRetryLoop_not_stuck (host : Host) (settings : Settings) (gid : string)
    (config : Config) (isRaw : bool) (w : World) :
  registered gid w -> calls w = [] -> failures w = [] ->
  fst (executeRetryLoop host settings gid config isRaw w) <> Stuck.
Proof.
  intros Hreg C F.
  apply (wp_not_stuck True _ (fun _ _ => True)).
  unfold executeRetryLoop. rewrite wp_bind.
  eapply wp_mono; [now apply retryLoops_consistent|].
  intros [res|st] w' _; cbv beta; [now rewrite wp_ret|].
  now rewrite wp_bind, wp_when, wp_ret.
Qed.

(** The model never fails on its own account: the loop fuel is enough and
    the context the run reads is always registered. *)
Theorem run_not_stuck (host : Host) (settings : Settings) (config : Config) (isRaw : bool)
    (registry : gmap string RetryContext) :
  fst (run host settings config isRaw registry) <> Stuck.
Proof.
  destruct (shouldRetryGeneration (generationIdOf host config) settings) eqn:E.
  - rewrite run_retried by assumption. unfold tryFinally.
    pose proof (executeRetryLoop_not_stuck host settings (generationIdOf host config)
                  config isRaw (startWorld host config registry)
                  (startWorld_registered _ _ _) eq_refl eq_refl) as H.
    destruct (executeRetryLoop _ _ _ _ _ _) as [[res| |] w']; simpl in *; congruence.
  - unfold run, executeWithRetry. rewrite E. simpl.
    unfold passThrough, bind, nextEpisode, update. simpl.
    match goal with |- context [awaitOperation ?evs ?w] =>
      destruct (awaitOperation_spec evs w) as (H & _);
      destruct (awaitOperation evs w) as [[[v|e]| |] w'] end;
      simpl in *; try discriminate.
    destruct (firstSettle _); discriminate.
Qed.


(** C4, as stated, fails: with two attempts per backend and one usable
    fallback, a run whose every call is answered by HTTP 500 makes four
    calls and reports [attempts = 2]. *)
Lemma failed_run_reports_two_of_four_attempts :
  exists res w,
    run (hostOf [EvSettle (Rejected serverError)]) (cascadeSettings [backupModel])
        (request "chat" false) false ∅ = (Done res, w)
    /\ success res = false
    /\ usedFallback res = true
    /\ length (calls w) = 4%nat
    /\ attempts res = 2
    /\ attempts res <> Z.of_nat (length (calls w)).
Proof.
  eexists _, _. split; [vm_compute; reflexivity|].
  repeat split; vm_compute; congruence.
Qed.

(** C4, amended: a run that leaves both loops without a [return] reports
    failure, with [attempts] the number of calls made on the last backend
    it tried (the primary one, or the last usable fallback when fallbacks
    are enabled), the last failure recorded as [error], and the fallback
    flags of that backend. *)
Theorem failed_run_counts_attempts_on_last_backend (host : Host) (settings : Settings)
    (config : Config) (isRaw : bool) (registry : gmap string RetryContext)
    (st : Locals.t) (w : World) :
  shouldRetryGeneration (generationIdOf host config) settings = true ->
  retryLoops host settings (generationIdOf host config) config isRaw
    (startWorld host config registry) = (Done (inr st), w) ->
  exists res w',
    run host settings config isRaw registry = (Done res, w')
    /\ calls w' = calls w /\ failures w' = failures w
    /\ success res = false
    /\ attempts res
       = Z.of_nat (length (callsOn (backendIndex (lastBackend settings)) (calls w')))
    /\ error res = last (failures w')
    /\ usedFallback res = bool_decide (is_Some (lastBackend settings))
    /\ fallbackModel res = snd <$> lastBackend settings.
Proof.
  intros Hf Hloops.
  pose proof (retryLoops_consistent host settings (generationIdOf host config) config
                isRaw (startWorld host config registry)
                (startWorld_registered _ _ _) eq_refl eq_refl) as Hwp.
  apply (wp_run _ _ _ _ _ _ Hwp) in Hloops as Hpost.
  destruct Hpost as (_ & (Hn & _ & He) & Hi & Hu & Hm).
  rewrite run_retried by assumption.
  unfold tryFinally, executeRetryLoop, bind. rewrite Hloops.
  exists (failedResult st).
  destruct (showFailureToast settings); simpl;
    (eexists; split; [reflexivity|]; simpl;
     rewrite <- Hi; repeat split; auto).
Qed.

(** ** The engine on small scripts *)

Example first_call_succeeds :
  fst (run (scriptedHost [[EvSettle (Resolved (VString "hello"))]] [])
           defaultSettings (request "chat" false) false ∅)
  = Done {| success := true; result := Some (VString "hello"); error := None;
            attempts := 1; usedFallback := false; fallbackModel := None |}.
Proof. vm_compute. reflexivity. Qed.

Example two_failures_then_success :
  fst (run (scriptedHost [[EvSettle (Rejected serverError)];
                          [EvSettle (Rejected serverError)];
                          [EvSettle (Resolved (VString "hello"))]] [])
           defaultSettings (request "chat" false) false ∅)
  = Done {| success := true; result := Some (VString "hello"); error := None;
            attempts := 3; usedFallback := false; fallbackModel := None |}.
Proof. vm_compute. reflexivity. Qed.

Example missing_content_is_retried :
  fst (run (scriptedHost [[EvSettle (Resolved (VString "plain text"))];
                          [EvSettle (Resolved (VString "here: ```json {}"))]] [])
           (requireSettings "```json") (request "chat" false) false ∅)
  = Done {| success := true; result := Some (VString "here: ```json {}"); error := None;
            attempts := 2; usedFallback := false; fallbackModel := None |}.
Proof. vm_compute. reflexivity. Qed.

Example not_found_is_not_retried :
  fst (run (scriptedHost [[EvSettle (Rejected notFound)];
                          [EvSettle (Resolved (VString "hello"))]] [])
           defaultSettings (request "chat" false) false ∅)
  = Done {| success := false; result := None; error := Some notFound;
            attempts := 1; usedFallback := false; fallbackModel := None |}.
Proof. vm_compute. reflexivity. Qed.

Example fallback_succeeds_after_primary_is_exhausted :
  fst (run (scriptedHost [[EvSettle (Rejected serverError)];
                          [EvSettle (Rejected serverError)];
                          [EvSettle (Resolved (VString "from backup"))]] [])
           (cascadeSettings [brokenModel; backupModel]) (request "chat" false) false ∅)
  = Done {| success := true; result := Some (VString "from backup"); error := None;
            attempts := 1; usedFallback := true; fallbackModel := Some backupModel |}.
Proof. vm_compute. reflexivity. Qed.

Example stalled_stream_is_retried :
  fst (run (scriptedHost [[EvToken "chat" 500; EvTick 1000; EvTick 31000;
                           EvSettle (Resolved (VString "too late"))];
                          [EvToken "chat" 500; EvSettle (Resolved (VString "hello"))]] [])
           defaultSettings (request "chat" true) false ∅)
  = Done {| success := true; result := Some (VString "hello"); error := None;
            attempts := 2; usedFallback := false; fallbackModel := None |}.
Proof. vm_compute. reflexivity. Qed.

Example abort_during_delay_ends_the_run :
  fst (run (scriptedHost [[EvSettle (Rejected serverError)];
                          [EvSettle (Resolved (VString "hello"))]] [EvAbort "chat"])
           defaultSettings (request "chat" false) false ∅)
  = Done {| success := false; result := None; error := Some (newError "Aborted by user");
            attempts := 1; usedFallback := false; fallbackModel := None |}.
Proof. vm_compute. reflexivity. Qed.

Example abort_before_rejection_ends_the_run :
  fst (run (scriptedHost [[EvAbort "chat"; EvSettle (Rejected serverError)];
                          [EvSettle (Resolved (VString "hello"))]] [])
           defaultSettings (request "chat" false) false ∅)
  = Done {| success := false; result := None; error := Some (newError "Aborted by user");
            attempts := 1; usedFallback := false; fallbackModel := None |}.
Proof. vm_compute. reflexivity. Qed.

(** ** Runs whose operation always fails *)

Lemma notAborted_registered (gid : string) (w : World) : notAborted gid w -> registered gid w.
Proof. intros (c & Hc & _). now exists c. Qed.

Lemma notAborted_same_contexts (gid : string) (w w' : World) :
  activeContexts w' = activeContexts w -> notAborted gid w -> notAborted gid w'.
Proof. unfold notAborted. now intros ->. Qed.

Lemma silent_same_contexts (gid : string) (w w' : World) :
  activeContexts w' = activeContexts w -> silent gid w -> silent gid w'.
Proof. unfold silent. now intros ->. Qed.

(** With nobody aborting, a pending race whose promise rejects is settled:
    by that rejection or, before it, by the stall timer. *)
Lemma raceEvents_rejecting (gid : string) (settings : Settings) (e : Thrown)
    (events : list Event) :
  forall (r : Race) (w : World),
    notAborted gid w -> noAbort gid events -> resolved r = false ->
    firstSettle events = Some (Rejected e) ->
    wp False (raceEvents gid settings r events)
       (fun winner w' => (winner = ByOperation (Rejected e) \/ winner = ByStallTimer)
                         /\ frame w w' /\ notAborted gid w') w.
Proof.
  induction events as [|ev rest IH]; intros r w Hna Hq Hr Hs; [discriminate|].
  apply Forall_cons in Hq. destruct Hq as [Hev Hq].
  destruct ev as [g now | g | now | o]; simpl in *.
  - rewrite wp_bind. unfold wp at 1.
    destruct (updateTokenTime_spec g now w) as (w1 & E & Hf & _).
    pose proof (updateTokenTime_notAborted gid g now w Hna) as Hna1.
    rewrite E in *. simpl in Hna1.
    eapply wp_mono; [now apply IH|]. intros winner w' (H1 & H2 & H3).
    split; [assumption|]. split; [eapply frame_trans; eassumption | assumption].
  - rewrite wp_bind. unfold wp at 1.
    destruct (abortRetry_spec g w) as (b & w1 & E & Hf & _).
    pose proof (abortRetry_other gid g w Hev Hna) as Hna1.
    rewrite E in *. simpl in Hna1.
    eapply wp_mono; [now apply IH|]. intros winner w' (H1 & H2 & H3).
    split; [assumption|]. split; [eapply frame_trans; eassumption | assumption].
  - destruct (streamingCheckInterval r); [|now apply IH].
    destruct (Hna) as (c & Hc & Ha).
    rewrite wp_bind, (wp_readContext _ _ c) by assumption.
    rewrite Hr, Ha. simpl.
    destruct (hasReceivedContent c && _); [|now apply IH].
    rewrite wp_bind, wp_notify, wp_bind, wp_when, wp_ret.
    split; [now right|]. split.
    + destruct (showRetryToast settings);
        [eapply frame_trans|]; apply frame_addNotices.
    + destruct (showRetryToast settings); now exists c.
  - injection Hs as ->. rewrite Hr, wp_ret.
    split; [now left|]. split; [apply frame_refl | assumption].
Qed.

Lemma sleep_notAborted (gid : string) (ms : Q) (events : list Event) :
  forall w : World,
    noAbort gid events -> notAborted gid w -> notAborted gid (snd (sleep ms events w)).
Proof.
  induction events as [|ev rest IH]; intros w Hq Hna; [assumption|].
  apply Forall_cons in Hq. destruct Hq as [Hev Hq].
  destruct ev as [g now | g | now | o]; simpl; try now apply IH.
  - unfold bind. pose proof (updateTokenTime_notAborted gid g now w Hna) as Hna1.
    destruct (updateTokenTime_spec g now w) as (w1 & E & _). rewrite E in *.
    now apply IH.
  - unfold bind. pose proof (abortRetry_other gid g w Hev Hna) as Hna1.
    destruct (abortRetry_spec g w) as (b & w1 & E & _). rewrite E in *.
    now apply IH.
Qed.

Lemma wp_handleRetryDelay_calm (pend : Prop) (gid : string) (attempt : Z)
    (settings : Settings) (isRateLimit : bool) (events : list Event) (w : World) :
  noAbort gid events -> notAborted gid w ->
  wp pend (handleRetryDelay attempt settings isRateLimit events)
     (fun _ w' => frame w w' /\ notAborted gid w') w.
Proof.
  intros Hq Hna. unfold handleRetryDelay. rewrite wp_bind, wp_notify.
  match goal with |- wp _ (sleep ?ms _) _ ?w1 =>
    pose proof (sleep_notAborted gid ms events w1 Hq) as Hs;
    destruct (sleep_spec ms events w1) as (w' & E & Hf & _) end.
  unfold wp. rewrite E in *. split.
  - eapply frame_trans; [apply frame_addNotices | exact Hf].
  - apply Hs. exact Hna.
Qed.

(** An ordinary retryable rejection stays one whether the promise or the
    stall timer settles the race. *)
Lemma raceFails_ordinary (gid : string) (settings : Settings) (events : list Event)
    (e : Thrown) :
  noAbort gid events -> firstSettle events = Some (Rejected e) ->
  isRetryableError e = true -> isRateLimitError e = false ->
  raceFails false gid settings events.
Proof.
  intros Hq Hs Hre Hrl w Hna _. unfold raceWithTimeouts.
  destruct (Hna) as (c & Hc & _).
  rewrite wp_bind, (wp_readContext _ _ c) by assumption.
  eapply wp_mono; [now apply (raceEvents_rejecting gid settings e)|].
  intros winner w' ([-> | ->] & Hf & Hna'); (split; [assumption|split; [assumption|]]).
  - now exists e.
  - now exists (newError "Streaming timeout").
Qed.

(** While no token arrives the stall timer cannot fire: the rejection of the
    promise settles the race, whatever its class. *)
Lemma raceFails_without_tokens (gid : string) (settings : Settings) (events : list Event)
    (e : Thrown) :
  noAbort gid events -> noToken gid events -> firstSettle events = Some (Rejected e) ->
  isRetryableError e = true ->
  raceFails (isRateLimitError e) gid settings events.
Proof.
  intros Hq Ht Hs Hre w Hna Hsil. unfold raceWithTimeouts.
  destruct (Hna) as (c & Hc & _).
  rewrite wp_bind, (wp_readContext _ _ c) by assumption.
  pose proof (raceEvents_rejecting gid settings e events (raceStart c) w Hna Hq eq_refl Hs) as H.
  unfold wp in *.
  destruct (raceEvents gid settings (raceStart c) events w) as [[winner| |] w'] eqn:E;
    try contradiction.
  destruct H as (Hw & Hf & Hna'). split; [assumption|split; [assumption|]].
  destruct (raceEvents_silent _ _ _ _ _ _ _ Hsil Ht E) as (o & -> & _).
  destruct Hw as [Hw | Hw]; [|discriminate]. injection Hw as ->. now exists e.
Qed.

(** A failing pass through either loop body. *)
Ltac failing_pass st w Hna Hrace Hdelay :=
  let c := fresh "c" in
  let Hc := fresh "Hc" in
  let Ha := fresh "Ha" in
  destruct (Hna) as (c & Hc & Ha);
  rewrite wp_bind, (wp_readContext _ _ c) by assumption;
  rewrite Ha;
  rewrite wp_bind, wp_nextEpisode;
  rewrite wp_bind, (wp_writeContext _ _ _ c) by assumption;
  rewrite wp_bind, wp_when;
  rewrite wp_bind, wp_callCurrentFn;
  rewrite wp_bind;
  let wa := fresh "wa" in
  match goal with |- wp _ _ _ ?w1 => set (wa := w1) end;
  let Hca := fresh "Hca" in
  let Hna_a := fresh "Hna" in
  let Hsil := fresh "Hsil" in
  assert (Hca : calls wa = calls w ++ [callOf st])
    by (subst wa; match goal with |- context [if ?b then _ else _] => destruct b end;
        reflexivity);
  assert (Hna_a : notAborted _ wa)
    by (subst wa; match goal with |- context [if ?b then _ else _] => destruct b end;
        (eexists; split; [simpl; apply lookup_insert_eq | exact Ha]));
  assert (Hsil : silent _ wa)
    by (subst wa; match goal with |- context [if ?b then _ else _] => destruct b end;
        (eexists; split; [simpl; apply lookup_insert_eq | reflexivity]));
  clearbody wa;
  eapply wp_mono; [apply Hrace; assumption|];
  let winner := fresh "winner" in
  let w1 := fresh "w" in
  let Hf1 := fresh "Hf" in
  let Hna1 := fresh "Hna" in
  let e := fresh "e" in
  let Hs := fresh "Hs" in
  let Hre := fresh "Hre" in
  let Hrl := fresh "Hrl" in
  intros winner w1 (Hf1 & Hna1 & e & Hs & Hre & Hrl); cbv beta;
  rewrite Hs;
  rewrite wp_bind, wp_assignLastError, wp_bind, wp_notify, wp_bind;
  let c1 := fresh "c" in
  let Hc1 := fresh "Hc" in
  let Ha1 := fresh "Ha" in
  destruct (Hna1) as (c1 & Hc1 & Ha1);
  rewrite (wp_readContext _ _ c1) by exact Hc1;
  rewrite Ha1, Hre; try rewrite Hrl;
  cbn [negb Locals.attempt Locals.setAttempt];
  unfold failingPass;
  match goal with |- context [?x <=? ?y] => destruct (x <=? y) end;
  [ rewrite wp_ret;
    split; [exact Hna1|]; split; [simpl; rewrite (proj1 Hf1); exact Hca|];
    exists e; reflexivity
  | repeat (rewrite wp_bind || rewrite wp_when);
    eapply wp_mono;
    [ eapply wp_handleRetryDelay_calm;
      [exact Hdelay
      | match goal with |- context [if ?b then _ else _] => destruct b | _ => idtac end;
        exact Hna1]
    |];
    let w2 := fresh "w" in
    let Hf2 := fresh "Hf" in
    let Hna2 := fresh "Hna" in
    intros [] w2 (Hf2 & Hna2); rewrite wp_ret;
    split; [exact Hna2|]; split;
    [ rewrite (proj1 Hf2);
      match goal with |- context [if ?b then _ else _] => destruct b | _ => idtac end;
      simpl; rewrite (proj1 Hf1); exact Hca
    | exists e; reflexivity ] ].

Lemma primaryAttempt_failing (host : Host) (settings : Settings) (gid : string)
    (rateLimited : bool) (st : Locals.t) (w : World) :
  notAborted gid w ->
  raceFails rateLimited gid settings (ep_events (script host (length (calls w)))) ->
  noAbort gid (ep_delay (script host (length (calls w)))) ->
  wp False (primaryAttempt host settings gid st)
     (failingPass gid (if rateLimited then rateLimitMaxRetries settings
                       else maxRetries settings) st w) w.
Proof.
  intros Hna Hrace Hdelay. unfold primaryAttempt.
  failing_pass st w Hna Hrace Hdelay.
Qed.

Lemma fallbackAttempt_failing (host : Host) (settings : Settings) (gid : string)
    (rateLimited : bool) (fallbackModel : FallbackModel) (st : Locals.t) (w : World) :
  notAborted gid w ->
  raceFails rateLimited gid settings (ep_events (script host (length (calls w)))) ->
  noAbort gid (ep_delay (script host (length (calls w)))) ->
  wp False (fallbackAttempt host settings gid fallbackModel st)
     (failingPass gid (maxRetries settings) st w) w.
Proof.
  intros Hna Hrace Hdelay. unfold fallbackAttempt.
  failing_pass st w Hna Hrace Hdelay.
Qed.

(** *** The loops under failure *)

Lemma retryWhile_done (settings : Settings) (body : Locals.t -> M Step) (fuel : nat)
    (st : Locals.t) :
  maxRetries settings <= Locals.attempt st ->
  retryWhile settings body fuel st = ret (inr st).
Proof.
  intros H. destruct fuel; simpl;
    (destruct (Locals.attempt st <? maxRetries settings) eqn:E;
     [apply Z.ltb_lt in E; lia | reflexivity]).
Qed.

Lemma attemptCalls_step (fn : Invocation) (idx a n : Z) :
  0 < n ->
  attemptCalls fn idx a (Z.to_nat n)
  = {| call_fn := fn; call_fallbackIndex := idx; call_attempt := a + 1 |}
    :: attemptCalls fn idx (a + 1) (Z.to_nat (n - 1)).
Proof.
  intros H. replace (Z.to_nat n) with (S (Z.to_nat (n - 1))) by lia. reflexivity.
Qed.

Lemma retryWhile_exhausts (settings : Settings) (gid : string)
    (body : Locals.t -> M Step) (limit : Z) :
  (forall st w, notAborted gid w -> wp False (body st) (failingPass gid limit st w) w) ->
  forall fuel st w,
    notAborted gid w ->
    0 <= Locals.attempt st < Z.min (maxRetries settings) limit ->
    (Z.to_nat (maxRetries settings - Locals.attempt st) <= fuel)%nat ->
    wp False (retryWhile settings body fuel st)
       (fun r w' =>
          notAborted gid w'
          /\ exists st', r = inr st' /\ sameBackend st st'
             /\ Locals.attempt st' = Z.min (maxRetries settings) limit
             /\ calls w' = calls w
                  ++ attemptCalls (Locals.currentFn st) (Locals.fallbackIndex st)
                       (Locals.attempt st)
                       (Z.to_nat (Z.min (maxRetries settings) limit - Locals.attempt st))) w.
Proof.
  intros Hbody. induction fuel as [|fuel IH]; intros st w Hna Ha Hfuel; [exfalso; lia|].
  simpl. destruct (Locals.attempt st <? maxRetries settings) eqn:E;
    [|apply Z.ltb_ge in E; exfalso; lia].
  rewrite wp_bind. eapply wp_mono; [apply Hbody, Hna|].
  intros step w1 (Hna1 & Hc1 & e & ->). cbv beta.
  rewrite (attemptCalls_step (Locals.currentFn st) (Locals.fallbackIndex st)
             (Locals.attempt st)
             (Z.min (maxRetries settings) limit - Locals.attempt st)) by lia.
  destruct (limit <=? Locals.attempt st + 1) eqn:El.
  - apply Z.leb_le in El. rewrite wp_ret. split; [assumption|].
    exists (afterFailure e st). split; [reflexivity|].
    split; [unfold sameBackend; simpl; tauto|]. split; [simpl; lia|].
    rewrite Hc1. replace (Z.min _ _ - _ - 1) with 0 by lia. reflexivity.
  - apply Z.leb_gt in El.
    destruct (Z_lt_le_dec (Locals.attempt st + 1) (maxRetries settings)) as [Hlt|Hge].
    + eapply wp_mono; [apply IH; [exact Hna1 | simpl; lia | simpl; lia]|].
      intros r w2 (Hna2 & st' & -> & Hsb & Hat & Hc2). split; [assumption|].
      exists st'. split; [reflexivity|].
      split; [unfold sameBackend in *; simpl in *; tauto|]. split; [assumption|].
      rewrite Hc2, Hc1, <- app_assoc. simpl.
      replace (Z.min (maxRetries settings) limit - (Locals.attempt st + 1))
        with (Z.min (maxRetries settings) limit - Locals.attempt st - 1) by lia.
      reflexivity.
    + rewrite retryWhile_done by (simpl; lia). rewrite wp_ret. split; [assumption|].
      exists (afterFailure e st). split; [reflexivity|].
      split; [unfold sameBackend; simpl; tauto|]. split; [simpl; lia|].
      rewrite Hc1. replace (Z.min _ _ - _ - 1) with 0 by lia. reflexivity.
Qed.

Lemma fallbackConfigOf_sameRequest (config c : Config) (fallbackModel : FallbackModel) :
  sameRequest config c ->
  fallbackConfigOf c fallbackModel = fallbackConfigOf config fallbackModel
  /\ sameRequest config (fallbackConfigOf c fallbackModel).
Proof.
  intros (G & S & P). unfold fallbackConfigOf, sameRequest. simpl.
  rewrite G, S, P. auto.
Qed.

Lemma fallbackCascade_exhausts (host : Host) (settings : Settings) (gid : string)
    (isRaw : bool) (config : Config) (rateLimited : bool) :
  1 <= maxRetries settings ->
  alwaysFails rateLimited host settings gid ->
  forall (models : list FallbackModel) (i : Z) (st : Locals.t) (w : World),
    notAborted gid w -> sameRequest config (Locals.currentConfig st) ->
    wp False (fallbackCascade host settings gid isRaw i models st)
       (fun r w' =>
          notAborted gid w'
          /\ (exists st', r = inr st')
          /\ calls w' = calls w
               ++ cascadeCalls config isRaw (Z.to_nat (maxRetries settings)) i models) w.
Proof.
  intros Hmax Hfail. induction models as [|fm rest IH]; intros i st w Hna Hreq; simpl.
  - rewrite wp_ret, app_nil_r. eauto.
  - destruct (unusable fm); simpl.
    + rewrite wp_bind, wp_notify.
      exact (IH (i + 1) st (addNotices [WarnSkippingFallback i] w) Hna Hreq).
    + rewrite wp_bind, wp_when, wp_bind.
      destruct (fallbackConfigOf_sameRequest config (Locals.currentConfig st) fm Hreq)
        as [Hcfg Hreq'].
      rewrite Hcfg.
      match goal with |- wp _ (retryWhile _ _ _ ?s0) _ ?w1 =>
        set (st0 := s0); set (w0 := w1) end.
      assert (Hna0 : notAborted gid w0) by (subst w0; now destruct (showRetryToast settings)).
      assert (Hc0 : calls w0 = calls w) by (subst w0; now destruct (showRetryToast settings)).
      clearbody w0.
      eapply wp_mono;
        [apply (retryWhile_exhausts settings gid _ (maxRetries settings));
         [ intros st1 w1 Hna1;
           apply (fallbackAttempt_failing host settings gid rateLimited);
           [exact Hna1 | apply Hfail | apply Hfail]
         | exact Hna0
         | subst st0; simpl; lia
         | subst st0; unfold loopFuel; simpl; lia ]|].
      intros r w1 (Hna1 & st' & -> & Hsb & _ & Hc1). cbv beta.
      eapply wp_mono; [apply (IH (i + 1) st' w1 Hna1)|].
      * destruct Hsb as (_ & _ & _ & -> & _). subst st0.
        unfold sameRequest. simpl. auto.
      * intros r w2 (Hna2 & Hst & Hc2). split; [assumption|]. split; [assumption|].
        rewrite Hc2, Hc1, Hc0, <- app_assoc. f_equal. f_equal.
        subst st0. simpl. rewrite Z.min_id, Z.sub_0_r. reflexivity.
Qed.

(** A run whose every attempt fails retryably: the primary loop stops at
    the smaller of [maxRetries] and the limit of the failure class, every
    usable fallback gets [maxRetries] attempts, and the run fails. *)
Lemma run_always_failing (host : Host) (settings : Settings) (config : Config)
    (isRaw : bool) (registry : gmap string RetryContext) (rateLimited : bool) :
  let gid := generationIdOf host config in
  let limit := if rateLimited then rateLimitMaxRetries settings else maxRetries settings in
  1 <= maxRetries settings -> 1 <= limit ->
  shouldRetryGeneration gid settings = true ->
  alwaysFails rateLimited host settings gid ->
  exists res w,
    run host settings config isRaw registry = (Done res, w)
    /\ success res = false
    /\ calls w
       = attemptCalls CallFn (-1) 0 (Z.to_nat (Z.min (maxRetries settings) limit))
         ++ (if fallbackModelsEnabled settings
             then cascadeCalls config isRaw (Z.to_nat (maxRetries settings)) 0
                    (fallbackModels settings)
             else [])
    /\ (fallbackModelsEnabled settings = false ->
        attempts res = Z.min (maxRetries settings) limit /\ usedFallback res = false).
Proof.
  intros gid limit Hmax Hlim Hfilter Hfail.
  rewrite run_retried by assumption. fold gid.
  assert (Hna : notAborted gid (startWorld host config registry)).
  { exists (newContext host config). split; [|reflexivity].
    unfold startWorld. simpl. apply lookup_insert_eq. }
  assert (Hloops :
    wp False (retryLoops host settings gid config isRaw)
       (fun r w' =>
          exists st, r = inr st
          /\ calls w' = attemptCalls CallFn (-1) 0 (Z.to_nat (Z.min (maxRetries settings) limit))
               ++ (if fallbackModelsEnabled settings
                   then cascadeCalls config isRaw (Z.to_nat (maxRetries settings)) 0
                          (fallbackModels settings)
                   else [])
          /\ (fallbackModelsEnabled settings = false ->
              Locals.attempt st = Z.min (maxRetries settings) limit
              /\ Locals.usedFallback st = false))
       (startWorld host config registry)).
  { unfold retryLoops. rewrite wp_bind.
    eapply wp_mono;
      [apply (retryWhile_exhausts settings gid _ limit);
       [ intros st1 w1 Hna1;
         apply (primaryAttempt_failing host settings gid rateLimited);
         [exact Hna1 | apply Hfail | apply Hfail]
       | exact Hna
       | simpl; lia
       | unfold loopFuel; simpl; lia ]|].
    intros r w1 (Hna1 & st' & -> & Hsb & Hat & Hc1). cbv beta.
    simpl in Hc1. rewrite Z.sub_0_r in Hc1.
    destruct (fallbackModelsEnabled settings); simpl.
    - case_bool_decide as Hlen.
      + eapply wp_mono;
          [apply (fallbackCascade_exhausts host settings gid isRaw config rateLimited
                    Hmax Hfail (fallbackModels settings) 0 st' w1 Hna1)|].
        * destruct Hsb as (_ & _ & _ & -> & _). unfold sameRequest. simpl. auto.
        * intros r w2 (_ & [st2 ->] & Hc2). exists st2. split; [reflexivity|].
          split; [now rewrite Hc2, Hc1 | discriminate].
      + rewrite wp_ret. exists st'. split; [reflexivity|].
        destruct (fallbackModels settings); [|simpl in Hlen; lia].
        simpl. rewrite app_nil_r. split; [assumption | discriminate].
    - rewrite wp_ret. exists st'. split; [reflexivity|]. rewrite app_nil_r.
      split; [assumption|]. intros _. split; [assumption|].
      destruct Hsb as (_ & -> & _). reflexivity. }
  apply wp_ends in Hloops. destruct Hloops as (r & w1 & E & st & -> & Hc & Hoff).
  unfold tryFinally, executeRetryLoop, bind. rewrite E.
  exists (failedResult st).
  destruct (showFailureToast settings); simpl;
    (eexists; split; [reflexivity|]; simpl; auto).
Qed.

Lemma cascadeCalls_first_usable (config : Config) (isRaw : bool) (n : nat)
    (skipped : list FallbackModel) :
  forall (i : Z) (fallbackModel : FallbackModel) (rest : list FallbackModel),
    Forall (fun fm => unusable fm = true) skipped ->
    unusable fallbackModel = false ->
    cascadeCalls config isRaw n i (skipped ++ fallbackModel :: rest)
    = attemptCalls (fallbackCall config isRaw fallbackModel)
        (i + Z.of_nat (length skipped)) 0 n
      ++ cascadeCalls config isRaw n (i + Z.of_nat (length skipped) + 1) rest.
Proof.
  induction skipped as [|fm skipped IH]; intros i fallbackModel rest Hskip Hu; simpl.
  - now rewrite Hu, Z.add_0_r.
  - apply Forall_cons in Hskip. destruct Hskip as [Hfm Hskip].
    rewrite Hfm, (IH (i + 1) fallbackModel rest Hskip Hu). simpl.
    now replace (i + 1 + Z.of_nat (length skipped))
      with (i + Z.of_nat (S (length skipped))) by lia.
Qed.

(** C6: when every call of the operation is rejected with an ordinary
    retryable failure (rate-limited: no) and nobody aborts, the run makes
    exactly [maxRetries] calls of the caller's function, then exactly
    [maxRetries] calls on every usable fallback descriptor in configured
    order, passing over the unusable ones, and fails; with fallbacks
    disabled it fails after the [maxRetries] primary attempts.  In
    particular the call that follows the primary attempts goes to the
    first usable descriptor. *)
Theorem ordinary_failures_exhaust_maxRetries (host : Host) (settings : Settings)
    (config : Config) (isRaw : bool) (registry : gmap string RetryContext) :
  1 <= maxRetries settings ->
  shouldRetryGeneration (generationIdOf host config) settings = true ->
  (forall n, failsRetryably false (generationIdOf host config) (script host n)) ->
  exists res w,
    run host settings config isRaw registry = (Done res, w)
    /\ success res = false
    /\ calls w
       = attemptCalls CallFn (-1) 0 (Z.to_nat (maxRetries settings))
         ++ (if fallbackModelsEnabled settings
             then cascadeCalls config isRaw (Z.to_nat (maxRetries settings)) 0
                    (fallbackModels settings)
             else [])
    /\ (fallbackModelsEnabled settings = false ->
        attempts res = maxRetries settings /\ usedFallback res = false)
    /\ (forall skipped fallbackModel rest,
          fallbackModelsEnabled settings = true ->
          fallbackModels settings = skipped ++ fallbackModel :: rest ->
          Forall (fun fm => unusable fm = true) skipped ->
          unusable fallbackModel = false ->
          exists later,
            calls w
            = attemptCalls CallFn (-1) 0 (Z.to_nat (maxRetries settings))
              ++ attemptCalls (fallbackCall config isRaw fallbackModel)
                   (Z.of_nat (length skipped)) 0 (Z.to_nat (maxRetries settings))
              ++ later).
Proof.
  intros Hmax Hfilter Hfail.
  destruct (run_always_failing host settings config isRaw registry false Hmax Hmax Hfilter)
    as (res & w & Hrun & Hs & Hc & Hoff).
  { intros n. destruct (Hfail n) as (Hq & Hd & e & Hfs & Hre & Hrl).
    split; [now apply raceFails_ordinary with e | assumption]. }
  rewrite Z.min_id in *.
  exists res, w. repeat (split; [assumption|]).
  intros skipped fm rest Hen Hmodels Hskip Husable.
  rewrite Hc, Hen, Hmodels.
  rewrite (cascadeCalls_first_usable config isRaw _ skipped 0 fm rest Hskip Husable).
  rewrite Z.add_0_l. eauto.
Qed.

(** ** Abort while an attempt is outstanding *)

Lemma wp_hangs {A} (m : M A) (w : World) :
  wp True m (fun _ _ => False) w -> fst (m w) = Pending.
Proof. unfold wp. destruct (m w) as [[a| |] w']; simpl; tauto. Qed.

(** Once [cleanup] has run, no handler settles the race any more. *)
Lemma raceEvents_after_cleanup (gid : string) (settings : Settings) (events : list Event) :
  forall (r : Race) (w : World),
    resolved r = true -> streamingCheckInterval r = false ->
    wp True (raceEvents gid settings r events) (fun _ _ => False) w.
Proof.
  induction events as [|ev rest IH]; intros r w Hr Ht; [exact I|].
  destruct ev as [g now | g | now | o]; simpl.
  - rewrite wp_bind. unfold wp at 1.
    destruct (updateTokenTime_spec g now w) as (w1 & -> & _). now apply IH.
  - rewrite wp_bind. unfold wp at 1.
    destruct (abortRetry_spec g w) as (b & w1 & -> & _). now apply IH.
  - rewrite Ht. now apply IH.
  - rewrite Hr. now apply IH.
Qed.

(** With the abort flag up, the next tick of a live timer runs [cleanup]
    and returns: the race stays pending whatever comes later. *)
Lemma raceEvents_abort_then_tick (gid : string) (settings : Settings)
    (mid : list Event) (now : Z) (post : list Event) :
  forall (r : Race) (w : World),
    streamingCheckInterval r = true -> abortRequested gid w -> uneventful mid ->
    wp True (raceEvents gid settings r (mid ++ EvTick now :: post)) (fun _ _ => False) w.
Proof.
  induction mid as [|ev rest IH]; intros r w Ht Hab Hq.
  - simpl. rewrite Ht. destruct Hab as (c & Hc & Ha).
    rewrite wp_bind, (wp_readContext _ _ c) by assumption.
    rewrite Ha, orb_true_r. now apply raceEvents_after_cleanup.
  - apply Forall_cons in Hq. destruct Hq as [Hev Hq].
    destruct Hab as (c & Hc & Ha).
    destruct ev as [g t | g | t | o]; try contradiction; simpl.
    + rewrite wp_bind. unfold wp at 1.
      destruct (updateTokenTime_spec g t w) as (w1 & -> & _ & _ & Ho & Hg).
      apply IH; try assumption.
      destruct (decide (gid = g)) as [->|Hne].
      * exists (markToken t c). now rewrite Hg, Hc.
      * exists c. now rewrite Ho.
    + rewrite wp_bind. unfold wp at 1.
      destruct (abortRetry_spec g w) as (b & w1 & -> & _ & _ & Ho & Hg).
      apply IH; try assumption.
      destruct (decide (gid = g)) as [->|Hne].
      * exists (markAborted c). now rewrite Hg, Hc.
      * exists c. now rewrite Ho.
Qed.

Lemma raceEvents_aborted_in_flight (gid : string) (settings : Settings)
    (pre mid : list Event) (now : Z) (post : list Event) :
  forall (r : Race) (w : World),
    streamingCheckInterval r = true -> registered gid w ->
    uneventful pre -> uneventful mid ->
    wp True (raceEvents gid settings r (pre ++ EvAbort gid :: mid ++ EvTick now :: post))
       (fun _ _ => False) w.
Proof.
  induction pre as [|ev rest IH]; intros r w Ht Hreg Hp Hm.
  - simpl. rewrite wp_bind. unfold wp at 1.
    destruct (abortRetry_spec gid w) as (b & w1 & -> & _ & _ & _ & Hg).
    apply raceEvents_abort_then_tick; try assumption.
    destruct Hreg as [c Hc]. exists (markAborted c). now rewrite Hg, Hc.
  - apply Forall_cons in Hp. destruct Hp as [Hev Hp].
    destruct ev as [g t | g | t | o]; try contradiction; simpl.
    + rewrite wp_bind. unfold wp at 1.
      destruct (updateTokenTime_spec g t w) as (w1 & -> & Hf & _).
      apply IH; try assumption. eapply frame_registered; eassumption.
    + rewrite wp_bind. unfold wp at 1.
      destruct (abortRetry_spec g w) as (b & w1 & -> & Hf & _).
      apply IH; try assumption. eapply frame_registered; eassumption.
Qed.

(** C2: in a streaming run, when [abortRetry] reaches the context during
    the first attempt and the interval timer ticks before the promise
    settles, the race is never settled and the run never returns, whatever
    the promise does afterwards: no Aborted outcome is produced. *)
Theorem abort_seen_by_timer_leaves_run_pending (host : Host) (settings : Settings)
    (config : Config) (isRaw : bool) (registry : gmap string RetryContext)
    (pre mid : list Event) (now : Z) (post : list Event) :
  1 <= maxRetries settings ->
  shouldRetryGeneration (generationIdOf host config) settings = true ->
  should_stream config = Some true ->
  ep_events (script host 0)
  = pre ++ EvAbort (generationIdOf host config) :: mid ++ EvTick now :: post ->
  uneventful pre -> uneventful mid ->
  fst (run host settings config isRaw registry) = Pending.
Proof.
  intros Hmax Hfilter Hstream Hev Hp Hm.
  rewrite run_retried by assumption. unfold tryFinally.
  match goal with |- fst (match ?m ?w with _ => _ end) = _ =>
    assert (H : fst (m w) = Pending); [|destruct (m w) as [[res| |] w']; simpl in *; congruence]
  end.
  apply wp_hangs. unfold executeRetryLoop, retryLoops. rewrite !wp_bind.
  unfold loopFuel. destruct (Z.to_nat (maxRetries settings)) as [|fuel] eqn:Ef; [lia|].
  simpl retryWhile.
  replace (0 <? maxRetries settings) with true by (symmetry; apply Z.ltb_lt; lia).
  rewrite wp_bind. unfold primaryAttempt.
  set (gid := generationIdOf host config) in *.
  assert (Hc : activeContexts (startWorld host config registry) !! gid
               = Some (newContext host config))
    by (unfold startWorld; simpl; apply lookup_insert_eq).
  rewrite wp_bind, (wp_readContext _ _ _ _ _ Hc). simpl aborted. cbv iota.
  rewrite wp_bind, wp_nextEpisode.
  rewrite wp_bind, (wp_writeContext _ _ _ _ _ _ Hc).
  rewrite wp_bind, wp_when, wp_bind, wp_callCurrentFn, wp_bind.
  simpl length. rewrite Hev.
  unfold raceWithTimeouts. rewrite wp_bind.
  match goal with |- wp _ _ _ ?w1 => set (wa := w1) end.
  assert (Hca : activeContexts wa !! gid
                = Some (markAttemptStart (ep_now (script host 0)) (newContext host config))).
  { subst wa. match goal with |- context [if ?b then _ else _] => destruct b end;
      simpl; apply lookup_insert_eq. }
  rewrite (wp_readContext _ _ _ _ _ Hca).
  eapply wp_mono.
  - apply raceEvents_aborted_in_flight; try assumption.
    + simpl. now rewrite Hstream.
    + eexists. exact Hca.
  - intros ? ? [].
Qed.

(** ** Rate-limited failures *)

(** C1: when every call of the operation is rejected as rate-limited and
    nobody aborts, the primary loop makes min(maxRetries,
    rateLimitMaxRetries) attempts, not rateLimitMaxRetries: the loop
    condition [attempt < maxRetries] ends it first when
    rateLimitMaxRetries is the larger one. *)
Theorem rate_limited_failures_stop_at_smaller_limit (host : Host) (settings : Settings)
    (config : Config) (isRaw : bool) (registry : gmap string RetryContext) :
  1 <= maxRetries settings ->
  1 <= rateLimitMaxRetries settings ->
  shouldRetryGeneration (generationIdOf host config) settings = true ->
  (forall n, failsRetryably true (generationIdOf host config) (script host n)
             /\ noToken (generationIdOf host config) (ep_events (script host n))) ->
  exists res w,
    run host settings config isRaw registry = (Done res, w)
    /\ success res = false
    /\ calls w
       = attemptCalls CallFn (-1) 0
           (Z.to_nat (Z.min (maxRetries settings) (rateLimitMaxRetries settings)))
         ++ (if fallbackModelsEnabled settings
             then cascadeCalls config isRaw (Z.to_nat (maxRetries settings)) 0
                    (fallbackModels settings)
             else [])
    /\ (fallbackModelsEnabled settings = false ->
        attempts res = Z.min (maxRetries settings) (rateLimitMaxRetries settings)).
Proof.
  intros Hmax Hrl Hfilter Hfail.
  destruct (run_always_failing host settings config isRaw registry true Hmax Hrl Hfilter)
    as (res & w & Hrun & Hs & Hc & Hoff).
  { intros n. destruct (Hfail n) as ((Hq & Hd & e & Hfs & Hre & Hcl) & Ht).
    split; [|assumption]. rewrite <- Hcl. now apply raceFails_without_tokens. }
  exists res, w. repeat (split; [assumption|]). intros H. now apply Hoff.
Qed.

Lemma always_rejected (gid : string) (rateLimited : bool) (e : Thrown) :
  isRetryableError e = true -> isRateLimitError e = rateLimited ->
  forall n, failsRetryably rateLimited gid (script (hostOf [EvSettle (Rejected e)]) n)
            /\ noToken gid (ep_events (script (hostOf [EvSettle (Rejected e)]) n)).
Proof.
  intros Hre Hrl n. unfold failsRetryably, noAbort, noToken. simpl.
  repeat split; try (repeat constructor; discriminate).
  now exists e.
Qed.

(** The schema defaults (maxRetries 3, rateLimitMaxRetries 5) and an
    operation that always answers HTTP 429: three attempts, not five. *)
Lemma rate_limited_failures_stop_at_smaller_limit_witness :
  rateLimitMaxRetries defaultSettings = 5
  /\ exists res w,
       run (hostOf [EvSettle (Rejected tooManyRequests)]) defaultSettings
           (request "chat" false) false ∅ = (Done res, w)
       /\ success res = false
       /\ calls w = attemptCalls CallFn (-1) 0 3
       /\ attempts res = 3.
Proof.
  split; [reflexivity|].
  destruct (rate_limited_failures_stop_at_smaller_limit
              (hostOf [EvSettle (Rejected tooManyRequests)]) defaultSettings
              (request "chat" false) false ∅)
    as (res & w & Hrun & Hs & Hc & Hoff).
  - simpl. lia.
  - simpl. lia.
  - reflexivity.
  - apply always_rejected; reflexivity.
  - exists res, w. split; [exact Hrun|]. split; [exact Hs|].
    split; [rewrite Hc; reflexivity | apply Hoff; reflexivity].
Defined.

(** ** Ordinary failures *)

Lemma ordinary_failures_exhaust_maxRetries_witness :
  exists res w,
    run (hostOf [EvSettle (Rejected serverError)])
        (cascadeSettings [brokenModel; backupModel]) (request "chat" false) false ∅
    = (Done res, w)
    /\ success res = false
    /\ calls w
       = attemptCalls CallFn (-1) 0 2
         ++ attemptCalls (fallbackCall (request "chat" false) false backupModel) 1 0 2.
Proof.
  destruct (ordinary_failures_exhaust_maxRetries
              (hostOf [EvSettle (Rejected serverError)])
              (cascadeSettings [brokenModel; backupModel]) (request "chat" false) false ∅)
    as (res & w & Hrun & Hs & Hc & _).
  - simpl. lia.
  - reflexivity.
  - intros n. exact (proj1 (always_rejected "chat" false serverError eq_refl eq_refl n)).
  - exists res, w. split; [exact Hrun|]. split; [exact Hs|]. rewrite Hc. reflexivity.
Defined.

Lemma failed_run_counts_attempts_on_last_backend_witness :
  exists res w,
    run (hostOf [EvSettle (Rejected serverError)])
        (cascadeSettings [brokenModel; backupModel]) (request "chat" false) false ∅
    = (Done res, w)
    /\ attempts res
       = Z.of_nat (length (callsOn
                     (backendIndex (lastBackend (cascadeSettings [brokenModel; backupModel])))
                     (calls w))).
Proof.
  edestruct (failed_run_counts_attempts_on_last_backend
               (hostOf [EvSettle (Rejected serverError)])
               (cascadeSettings [brokenModel; backupModel])
               (request "chat" false) false ∅)
    as (res & w' & Hrun & _ & _ & _ & Hatt & _);
    [reflexivity | vm_compute; reflexivity |].
  exists res, w'. split; [exact Hrun | exact Hatt].
Defined.

(** ** Abort *)

Lemma abort_seen_by_timer_leaves_run_pending_witness :
  fst (run (hostOf [EvAbort "chat"; EvTick 1000; EvSettle (Resolved (VString "late reply"))])
           defaultSettings (request "chat" true) false ∅) = Pending.
Proof.
  apply (abort_seen_by_timer_leaves_run_pending
           (hostOf [EvAbort "chat"; EvTick 1000; EvSettle (Resolved (VString "late reply"))])
           defaultSettings (request "chat" true) false ∅
           [] [] 1000 [EvSettle (Resolved (VString "late reply"))]).
  - simpl. lia.
  - reflexivity.
  - reflexivity.
  - reflexivity.
  - constructor.
  - constructor.
Defined.

(** The same abort in a run that does not stream: no timer looks at the
    flag, the promise resolves, and the run returns success. *)
Lemma abort_without_streaming_is_overtaken_by_success :
  exists w,
    run (hostOf [EvAbort "chat"; EvSettle (Resolved (VString "late reply"))])
        defaultSettings (request "chat" false) false ∅
    = (Done {| success := true; result := Some (VString "late reply"); error := None;
               attempts := 1; usedFallback := false; fallbackModel := None |}, w).
Proof. eexists. vm_compute. reflexivity. Qed.

(** After the hang the context is still registered, with its flag up. *)
Lemma pending_run_keeps_its_context :
  aborted <$> getActiveContext "chat"
    (snd (run (hostOf [EvAbort "chat"; EvTick 1000; EvSettle (Resolved (VString "late reply"))])
              defaultSettings (request "chat" true) false ∅))
  = Some true.
Proof. vm_compute. reflexivity. Qed.

(** ** The timeout race on concrete scripts *)

Lemma race_has_no_thinking_timeout_witness :
  exists winner w',
    raceWithTimeouts "chat" defaultSettings
      [EvTick 200000; EvTick 400000; EvSettle (Resolved (VString "at last"))]
      (worldWith "chat" true)
    = (Done winner, w')
    /\ exists o, winner = ByOperation o
                 /\ In (EvSettle o)
                      [EvTick 200000; EvTick 400000;
                       EvSettle (Resolved (VString "at last"))].
Proof.
  destruct (raceWithTimeouts "chat" defaultSettings
              [EvTick 200000; EvTick 400000; EvSettle (Resolved (VString "at last"))]
              (worldWith "chat" true)) as [r w'] eqn:E.
  assert (Hr : exists winner, r = Done winner)
    by (apply (f_equal fst) in E; vm_compute in E; subst r; eauto).
  destruct Hr as [winner ->].
  assert (Hq : noToken "chat"
                 [EvTick 200000; EvTick 400000; EvSettle (Resolved (VString "at last"))])
    by (repeat constructor; discriminate).
  exists winner, w'. split; [reflexivity|].
  exact (race_has_no_thinking_timeout "chat" defaultSettings _
           (worldWith "chat" true) w'
           (newContext (hostOf []) (request "chat" true)) winner
           (lookup_singleton_eq _ _) eq_refl Hq E).
Defined.

(** A streaming attempt that has produced no token is still pending 400
    seconds after it started. *)
Lemma race_pending_long_before_first_token :
  fst (raceWithTimeouts "chat" defaultSettings [EvTick 200000; EvTick 400000]
         (worldWith "chat" true)) = Pending.
Proof. vm_compute. reflexivity. Qed.

Lemma race_without_streaming_is_the_operation_witness :
  fst (raceWithTimeouts "chat" defaultSettings
         [EvAbort "chat"; EvTick 90000; EvSettle (Rejected serverError)]
         (worldWith "chat" false))
  = Done (ByOperation (Rejected serverError)).
Proof.
  apply (proj1 (race_without_streaming_is_the_operation "chat" defaultSettings
                  [EvAbort "chat"; EvTick 90000; EvSettle (Rejected serverError)]
                  (worldWith "chat" false)
                  (newContext (hostOf []) (request "chat" false))
                  (lookup_singleton_eq _ _)) eq_refl).
Defined.

(** ** Registry cleanup *)


(** * Further properties *)

(** ** Notifications *)

Lemma setContexts_same (w : World) : setContexts (activeContexts w) w = w.
Proof. now destruct w. Qed.

(** X1: [abortRetry] answers whether the id has a context.  For an unknown
    id it changes nothing; for a known one it raises the abort flag of that
    context and touches nothing else, neither the other fields nor the
    other contexts nor what was recorded; and asking twice is asking
    once. *)
Theorem abortRetry_flags_one_context (g : string) (w : World) :
  (activeContexts w !! g = None -> abortRetry g w = (Done false, w))
  /\ (forall ctx, activeContexts w !! g = Some ctx ->
      exists ctx' w',
        abortRetry g w = (Done true, w')
        /\ activeContexts w' !! g = Some ctx'
        /\ aborted ctx' = true /\ sameButAborted ctx ctx'
        /\ (forall g', g' <> g -> activeContexts w' !! g' = activeContexts w !! g')
        /\ calls w' = calls w /\ failures w' = failures w /\ notices w' = notices w)
  /\ snd (abortRetry g (snd (abortRetry g w))) = snd (abortRetry g w).
Proof.
  split; [|split].
  - intros H. unfold abortRetry. now rewrite H.
  - intros ctx H. unfold abortRetry. rewrite H.
    eexists _, _. split; [reflexivity|]. simpl.
    rewrite lookup_insert_eq. split; [reflexivity|]. split; [reflexivity|].
    split; [unfold sameButAborted; simpl; tauto|].
    split; [|auto]. intros g' Hne. now rewrite lookup_insert_ne.
  - unfold abortRetry. destruct (activeContexts w !! g) as [ctx|] eqn:H; simpl.
    + rewrite lookup_insert_eq. simpl. unfold setContexts. simpl.
      now rewrite insert_insert_eq.
    + now rewrite H.
Qed.

Lemma abortRetry_flags_one_context_witness :
  fst (abortRetry "ghost" (worldWith "chat" true)) = Done false
  /\ exists ctx' w',
       abortRetry "chat" (worldWith "chat" true) = (Done true, w')
       /\ activeContexts w' !! "chat" = Some ctx' /\ aborted ctx' = true.
Proof.
  split.
  - rewrite (proj1 (abortRetry_flags_one_context "ghost" (worldWith "chat" true)));
      reflexivity.
  - destruct (proj1 (proj2 (abortRetry_flags_one_context "chat" (worldWith "chat" true)))
                (newContext (hostOf []) (request "chat" true))
                (lookup_singleton_eq _ _))
      as (ctx' & w' & E & Hc & Ha & _).
    now exists ctx', w'.
Defined.

(** X2: token arrivals and abort requests do not interfere.  In either
    order [updateTokenTime] and [abortRetry], for the same id or for
    different ids, leave the same state; a token for an unknown id changes
    nothing; a token never lowers an abort flag and leaves the last
    arrival's time in [lastTokenTime]. *)
Theorem notifications_commute (g g' : string) (now : Z) (w : World) :
  snd (abortRetry g (snd (updateTokenTime g' now w)))
  = snd (updateTokenTime g' now (snd (abortRetry g w)))
  /\ (activeContexts w !! g' = None -> updateTokenTime g' now w = (Done tt, w))
  /\ (forall ctx, activeContexts w !! g' = Some ctx ->
      exists ctx',
        activeContexts (snd (updateTokenTime g' now w)) !! g' = Some ctx'
        /\ aborted ctx' = aborted ctx /\ lastTokenTime ctx' = now
        /\ hasReceivedContent ctx' = true).
Proof.
  split; [|split].
  - unfold abortRetry, updateTokenTime.
    destruct (decide (g = g')) as [<-|Hne].
    + destruct (activeContexts w !! g) as [c|] eqn:H; simpl;
        rewrite ?lookup_insert_eq, ?H; simpl; [|reflexivity].
      unfold setContexts. simpl. now rewrite !insert_insert_eq.
    + destruct (activeContexts w !! g) as [c|] eqn:H;
        destruct (activeContexts w !! g') as [c'|] eqn:H'; simpl;
        rewrite ?lookup_insert_ne by congruence; rewrite ?H, ?H'; simpl;
        try reflexivity.
      unfold setContexts. simpl. f_equal. now apply insert_insert_ne.
  - intros H. unfold updateTokenTime. now rewrite H.
  - intros ctx H. unfold updateTokenTime. rewrite H. simpl.
    rewrite lookup_insert_eq. now eexists.
Qed.

Lemma notifications_commute_witness :
  exists ctx',
    activeContexts (snd (updateTokenTime "chat" 1234 (worldWith "chat" true))) !! "chat"
    = Some ctx'
    /\ aborted ctx' = false /\ lastTokenTime ctx' = 1234
    /\ hasReceivedContent ctx' = true.
Proof.
  exact (proj2 (proj2 (notifications_commute "chat" "chat" 1234 (worldWith "chat" true)))
           (newContext (hostOf []) (request "chat" true)) (lookup_singleton_eq _ _)).
Defined.

(** ** What a run leaves alone *)

Lemma stable_ret {A} (P : World -> Prop) (a : A) : stable P (ret a).
Proof. now intros w H. Qed.

Lemma stable_bind {A B} (P : World -> Prop) (m : M A) (k : A -> M B) :
  stable P m -> (forall a, stable P (k a)) -> stable P (bind m k).
Proof.
  intros Hm Hk w H. unfold bind. specialize (Hm w H).
  destruct (m w) as [[a| |] w']; simpl in *; [now apply Hk | assumption | assumption].
Qed.

Lemma stable_records (P : World -> Prop) (f : World -> World) :
  aboutContexts P -> (forall w, activeContexts (f w) = activeContexts w) ->
  stable P (update f).
Proof. intros HP Hf w H. simpl. now apply (HP w). Qed.

Lemma stable_notify (P : World -> Prop) (n : Notice) : aboutContexts P -> stable P (notify n).
Proof. intros HP. now apply stable_records. Qed.

Lemma stable_when (P : World -> Prop) (b : bool) (n : Notice) :
  aboutContexts P -> stable P (when b (notify n)).
Proof. intros HP. destruct b; [now apply stable_notify | apply stable_ret]. Qed.

Lemma stable_readContext (P : World -> Prop) (gid : string) : stable P (readContext gid).
Proof. intros w H. unfold readContext. now destruct (activeContexts w !! gid). Qed.

Lemma stable_raceEvents (P : World -> Prop) (gid : string) (settings : Settings)
    (events : list Event) :
  aboutContexts P -> Forall (harmless P) events ->
  forall r, stable P (raceEvents gid settings r events).
Proof.
  intros HP. induction events as [|ev rest IH]; intros Hev r; [now intros w H|].
  apply Forall_cons in Hev. destruct Hev as [Hh Hrest].
  destruct ev as [g now | g | now | o]; simpl.
  - apply stable_bind; [exact Hh | intros _; now apply IH].
  - apply stable_bind; [exact Hh | intros _; now apply IH].
  - destruct (streamingCheckInterval r); [|now apply IH].
    apply stable_bind; [apply stable_readContext|]. intros ctx.
    destruct (resolved r || aborted ctx); [now apply IH|].
    destruct (hasReceivedContent ctx && _); [|now apply IH].
    apply stable_bind; [now apply stable_notify|]. intros _.
    apply stable_bind; [now apply stable_when | intros _; apply stable_ret].
  - destruct (resolved r); [now apply IH | apply stable_ret].
Qed.

Lemma stable_raceWithTimeouts (P : World -> Prop) (gid : string) (settings : Settings)
    (events : list Event) :
  aboutContexts P -> Forall (harmless P) events ->
  stable P (raceWithTimeouts gid settings events).
Proof.
  intros HP Hev. apply stable_bind; [apply stable_readContext|].
  intros ctx. now apply stable_raceEvents.
Qed.

Lemma stable_sleep (P : World -> Prop) (ms : Q) (events : list Event) :
  Forall (harmless P) events -> stable P (sleep ms events).
Proof.
  induction events as [|ev rest IH]; intros Hev; [apply stable_ret|].
  apply Forall_cons in Hev. destruct Hev as [Hh Hrest].
  destruct ev as [g now | g | now | o]; simpl; try now apply IH.
  - apply stable_bind; [exact Hh | intros _; now apply IH].
  - apply stable_bind; [exact Hh | intros _; now apply IH].
Qed.

Lemma stable_awaitOperation (P : World -> Prop) (events : list Event) :
  Forall (harmless P) events -> stable P (awaitOperation events).
Proof.
  induction events as [|ev rest IH]; intros Hev; [now intros w H|].
  apply Forall_cons in Hev. destruct Hev as [Hh Hrest].
  destruct ev as [g now | g | now | o]; simpl; try now apply IH.
  - apply stable_bind; [exact Hh | intros _; now apply IH].
  - apply stable_bind; [exact Hh | intros _; now apply IH].
  - apply stable_ret.
Qed.

Lemma stable_handleRetryDelay (P : World -> Prop) (attempt : Z) (settings : Settings)
    (isRateLimit : bool) (events : list Event) :
  aboutContexts P -> Forall (harmless P) events ->
  stable P (handleRetryDelay attempt settings isRateLimit events).
Proof.
  intros HP Hev. apply stable_bind; [now apply stable_notify|].
  intros _. now apply stable_sleep.
Qed.

Lemma stable_contentInvalid (P : World -> Prop) (host : Host) (settings : Settings)
    (v : Value) :
  aboutContexts P -> stable P (contentInvalid host settings v).
Proof.
  intros HP. destruct v as [s|tag]; simpl; [|apply stable_ret].
  destruct (validateContent host s settings) as [ok warnings].
  apply stable_bind; [now apply stable_records | intros _; apply stable_ret].
Qed.

(** Walks through a loop body, one computation at a time. *)
Ltac stable_pass HP Hw Hq Hd :=
  repeat first
    [ apply stable_ret
    | apply stable_readContext
    | apply Hw
    | apply stable_when; exact HP
    | apply stable_notify; exact HP
    | apply stable_records; [exact HP | reflexivity]
    | apply stable_raceWithTimeouts; [exact HP | apply Hq]
    | apply stable_handleRetryDelay; [exact HP | apply Hd]
    | apply stable_contentInvalid; exact HP
    | apply stable_bind; [|intros ?]
    | match goal with
      | |- stable _ (if ?b then _ else _) => destruct b
      | |- stable _ (match settlementOf ?x with _ => _ end) => destruct (settlementOf x)
      end ].

(** The loops keep what their bodies and the notices keep. *)
Section StableLoops.
Variable P : World -> Prop.
Variable host : Host.
Variable settings : Settings.
Variable gid : string.
Hypothesis P_notices : forall ns w, P w -> P (addNotices ns w).
Hypothesis P_primary : forall st, stable P (primaryAttempt host settings gid st).
Hypothesis P_fallback :
  forall fallbackModel st, stable P (fallbackAttempt host settings gid fallbackModel st).

Lemma stable_retryWhile (body : Locals.t -> M Step) :
  (forall st, stable P (body st)) ->
  forall fuel st, stable P (retryWhile settings body fuel st).
Proof.
  intros Hbody. induction fuel as [|fuel IH]; intros st; simpl;
    destruct (Locals.attempt st <? maxRetries settings); try apply stable_ret.
  - now intros w H.
  - apply stable_bind; [apply Hbody|]. intros [st'|st'|res]; [apply IH | |]; apply stable_ret.
Qed.

Lemma stable_noticed (b : bool) (n : Notice) : stable P (when b (notify n)).
Proof. destruct b; [|apply stable_ret]. intros w H. now apply P_notices. Qed.

Lemma stable_fallbackCascade (isRaw : bool) (models : list FallbackModel) :
  forall i st, stable P (fallbackCascade host settings gid isRaw i models st).
Proof.
  induction models as [|fm rest IH]; intros i st; simpl; [apply stable_ret|].
  destruct (unusable fm).
  - apply stable_bind; [apply (stable_noticed true) | intros _; apply IH].
  - apply stable_bind; [apply stable_noticed|]. intros _.
    apply stable_bind; [apply stable_retryWhile, P_fallback|].
    intros [res|st']; [apply stable_ret | apply IH].
Qed.

Lemma stable_loops (config : Config) (isRaw : bool) :
  stable P (executeRetryLoop host settings gid config isRaw).
Proof.
  unfold executeRetryLoop, retryLoops.
  apply stable_bind.
  - apply stable_bind; [apply stable_retryWhile, P_primary|].
    intros [res|st]; [apply stable_ret|].
    destruct (_ && _); [apply stable_fallbackCascade | apply stable_ret].
  - intros [res|st]; [apply stable_ret|].
    apply stable_bind; [apply stable_noticed | intros _; apply stable_ret].
Qed.
End StableLoops.

(** What is about the contexts only, survives the reset at the start of an
    attempt and is not disturbed by the host's notifications, survives the
    run. *)
Section Stable.
Variable P : World -> Prop.
Variable host : Host.
Variable settings : Settings.
Variable gid : string.
Hypothesis P_contexts : aboutContexts P.
Hypothesis P_reset : forall now, stable P (writeContext gid (markAttemptStart now)).
Hypothesis P_quiet : quietHost P host.

Lemma stable_nextEpisode_then {A} (k : Episode -> M A) :
  (forall n, stable P (k (script host n))) -> stable P (bind (nextEpisode host) k).
Proof. intros Hk w H. unfold bind, nextEpisode. simpl. now apply Hk. Qed.

Lemma stable_primaryAttempt (st : Locals.t) :
  stable P (primaryAttempt host settings gid st).
Proof.
  unfold primaryAttempt. apply stable_bind; [apply stable_readContext|]. intros ctx.
  destruct (aborted ctx); [apply stable_ret|].
  apply stable_nextEpisode_then. intros n. destruct (P_quiet n) as [Hq Hd].
  unfold callCurrentFn, assignLastError.
  stable_pass P_contexts P_reset Hq Hd.
Qed.

Lemma stable_fallbackAttempt (fallbackModel : FallbackModel) (st : Locals.t) :
  stable P (fallbackAttempt host settings gid fallbackModel st).
Proof.
  unfold fallbackAttempt. apply stable_bind; [apply stable_readContext|]. intros ctx.
  destruct (aborted ctx); [apply stable_ret|].
  apply stable_nextEpisode_then. intros n. destruct (P_quiet n) as [Hq Hd].
  unfold callCurrentFn, assignLastError.
  stable_pass P_contexts P_reset Hq Hd.
Qed.

Lemma stable_executeRetryLoop (config : Config) (isRaw : bool) :
  stable P (executeRetryLoop host settings gid config isRaw).
Proof.
  apply stable_loops.
  - intros ns w H. now apply (P_contexts w).
  - apply stable_primaryAttempt.
  - apply stable_fallbackAttempt.
Qed.
End Stable.

(** ** Outcomes of engine computations, pending ones included *)

Lemma post_bind {A B} (m : M A) (k : A -> M B) (Q : Res B -> World -> Prop) (w : World) :
  post (bind m k) Q w
  = post m (fun r w' => match r with
                        | Done a => post (k a) Q w'
                        | Pending => Q Pending w'
                        | Stuck => Q Stuck w'
                        end) w.
Proof. unfold post, bind. destruct (m w) as [[a| |] w']; reflexivity. Qed.

Lemma post_ret {A} (a : A) (Q : Res A -> World -> Prop) (w : World) :
  post (ret a) Q w = Q (Done a) w.
Proof. reflexivity. Qed.

Lemma post_update (f : World -> World) (Q : Res unit -> World -> Prop) (w : World) :
  post (update f) Q w = Q (Done tt) (f w).
Proof. reflexivity. Qed.

Lemma post_notify (n : Notice) (Q : Res unit -> World -> Prop) (w : World) :
  post (notify n) Q w = Q (Done tt) (addNotices [n] w).
Proof. reflexivity. Qed.

Lemma post_when (b : bool) (n : Notice) (Q : Res unit -> World -> Prop) (w : World) :
  post (when b (notify n)) Q w = Q (Done tt) (if b then addNotices [n] w else w).
Proof. destruct b; reflexivity. Qed.

Lemma post_nextEpisode (host : Host) (Q : Res Episode -> World -> Prop) (w : World) :
  post (nextEpisode host) Q w = Q (Done (script host (length (calls w)))) w.
Proof. reflexivity. Qed.

Lemma post_readContext (gid : string) (ctx : RetryContext)
    (Q : Res RetryContext -> World -> Prop) (w : World) :
  activeContexts w !! gid = Some ctx -> post (readContext gid) Q w = Q (Done ctx) w.
Proof. intros H. unfold post, readContext. now rewrite H. Qed.

Lemma post_writeContext (gid : string) (f : RetryContext -> RetryContext)
    (ctx : RetryContext) (Q : Res unit -> World -> Prop) (w : World) :
  activeContexts w !! gid = Some ctx ->
  post (writeContext gid f) Q w
  = Q (Done tt) (setContexts (<[gid := f ctx]> (activeContexts w)) w).
Proof.
  intros H. unfold writeContext. rewrite post_bind, (post_readContext _ ctx) by assumption.
  reflexivity.
Qed.

Lemma post_assignLastError (e : Thrown) (st : Locals.t)
    (Q : Res Locals.t -> World -> Prop) (w : World) :
  post (assignLastError e st) Q w = Q (Done (Locals.setLastError e st)) (addFailure e w).
Proof. reflexivity. Qed.

Lemma post_callCurrentFn (st : Locals.t) (Q : Res unit -> World -> Prop) (w : World) :
  post (callCurrentFn st) Q w
  = Q (Done tt) (addCall {| call_fn := Locals.currentFn st;
                            call_fallbackIndex := Locals.fallbackIndex st;
                            call_attempt := Locals.attempt st |} w).
Proof. reflexivity. Qed.

Lemma post_mono {A} (m : M A) (Q Q' : Res A -> World -> Prop) (w : World) :
  post m Q w -> (forall r w', Q r w' -> Q' r w') -> post m Q' w.
Proof. unfold post. auto. Qed.

Lemma post_stable {A} (P : World -> Prop) (m : M A) (w : World) :
  stable P m -> P w -> post m (fun _ w' => P w') w.
Proof. intros H Hw. now apply H. Qed.

(** *** What follows the race *)

Lemma delays_addNotices (ns : list Notice) (w : World) :
  delays (addNotices ns w) = delays w ++ omap delayOf ns.
Proof. unfold delays. simpl. apply omap_app. Qed.

Lemma tailFrame_refl (delay : list Event) (w : World) : tailFrame delay [] w w.
Proof. split; [reflexivity|]. split; [now rewrite app_nil_r | auto]. Qed.

Lemma tailFrame_trans (delay : list Event) (s1 s2 : list Q) (w1 w2 w3 : World) :
  tailFrame delay s1 w1 w2 -> tailFrame delay s2 w2 w3 ->
  tailFrame delay (s1 ++ s2) w1 w3.
Proof.
  intros (C1 & D1 & H1) (C2 & D2 & H2). split; [congruence|].
  split; [rewrite D2, D1; now rewrite app_assoc|].
  intros P HP Hd Hw. apply H2; [assumption..|]. now apply H1.
Qed.

Lemma tailFrame_records (delay : list Event) (slept : list Q) (w w1 w2 : World) :
  calls w2 = calls w1 -> delays w2 = delays w1 ->
  activeContexts w2 = activeContexts w1 ->
  tailFrame delay slept w w1 -> tailFrame delay slept w w2.
Proof.
  intros Hc Hd Ha (C & D & H). split; [congruence|]. split; [congruence|].
  intros P HP Hq Hw. apply (HP w1); [assumption | now apply H].
Qed.

Lemma tailFrame_addNotices (delay : list Event) (slept : list Q) (ns : list Notice)
    (w w1 : World) :
  omap delayOf ns = [] ->
  tailFrame delay slept w w1 -> tailFrame delay slept w (addNotices ns w1).
Proof.
  intros Hns. apply tailFrame_records; try reflexivity.
  rewrite delays_addNotices, Hns. apply app_nil_r.
Qed.

Lemma tailFrame_addFailure (delay : list Event) (slept : list Q) (e : Thrown)
    (w w1 : World) :
  tailFrame delay slept w w1 -> tailFrame delay slept w (addFailure e w1).
Proof. now apply tailFrame_records. Qed.

Lemma tailFrame_if (delay : list Event) (slept : list Q) (b : bool) (w w1 w2 : World) :
  tailFrame delay slept w w1 -> tailFrame delay slept w w2 ->
  tailFrame delay slept w (if b then w1 else w2).
Proof. now destruct b. Qed.

Ltac tail_tac :=
  repeat match goal with
  | |- tailFrame _ _ _ (addFailure _ _) => apply tailFrame_addFailure
  | |- tailFrame _ _ _ (addNotices _ _) => apply tailFrame_addNotices; [reflexivity|]
  | |- tailFrame _ _ _ (if _ then _ else _) => apply tailFrame_if
  | |- tailFrame _ _ _ _ => eassumption
  | |- tailFrame _ _ ?w ?w => apply tailFrame_refl
  end.

Lemma validateContent_no_delay (host : Host) (content : string) (settings : Settings) :
  omap delayOf (snd (validateContent host content settings)) = [].
Proof.
  unfold validateContent. destruct (_ || _); [reflexivity|].
  destruct (requiredContentIsRegex settings); [|reflexivity].
  now destruct (newRegExp host _).
Qed.

Lemma post_contentInvalid (host : Host) (settings : Settings) (v : Value)
    (delay : list Event) (w : World) :
  post (contentInvalid host settings v)
       (fun r w' => r = Done (negb (acceptable host settings v))
                    /\ tailFrame delay [] w w') w.
Proof.
  destruct v as [s|tag]; simpl.
  - unfold post. pose proof (validateContent_no_delay host s settings) as Hn.
    destruct (validateContent host s settings) as [ok warnings]. simpl in *.
    split; [reflexivity|]. apply tailFrame_addNotices; [exact Hn | apply tailFrame_refl].
  - unfold post. simpl. split; [reflexivity | apply tailFrame_refl].
Qed.

Lemma post_handleRetryDelay (attempt : Z) (settings : Settings) (isRateLimit : bool)
    (delay : list Event) (w : World) :
  post (handleRetryDelay attempt settings isRateLimit delay)
       (fun r w' => r = Done tt
                    /\ tailFrame delay [calculateDelay attempt settings isRateLimit] w w') w.
Proof.
  unfold handleRetryDelay. rewrite post_bind, post_notify.
  match goal with |- post (sleep ?ms _) _ ?w1 =>
    destruct (sleep_spec ms delay w1) as (w' & E & (Hc & _) & Hn);
    pose proof (fun P (H : Forall (harmless P) delay) => stable_sleep P ms delay H w1) as Hs
  end.
  unfold post. rewrite E in *. simpl in *. split; [reflexivity|].
  split; [exact Hc|]. split; [unfold delays; rewrite Hn; now rewrite omap_app|].
  intros P HP Hd Hw. apply Hs; [assumption|]. now apply (HP w).
Qed.

Lemma raceEvents_delays (gid : string) (settings : Settings) (events : list Event) :
  forall (r : Race) (w : World),
    delays (snd (raceEvents gid settings r events w)) = delays w.
Proof.
  induction events as [|ev rest IH]; intros r w; [reflexivity|].
  destruct ev as [g now | g | now | o]; simpl.
  - unfold bind. destruct (updateTokenTime_spec g now w) as (w' & -> & _ & Hn & _).
    rewrite IH. unfold delays. now rewrite Hn.
  - unfold bind. destruct (abortRetry_spec g w) as (b & w' & -> & _ & Hn & _).
    rewrite IH. unfold delays. now rewrite Hn.
  - destruct (streamingCheckInterval r); [|apply IH].
    unfold bind, readContext. destruct (activeContexts w !! gid) as [c|]; [|reflexivity].
    destruct (resolved r || aborted c); [apply IH|].
    destruct (hasReceivedContent c && _); [|apply IH].
    unfold notify, update, when. destruct (showRetryToast settings); simpl;
      unfold delays; simpl; rewrite ?omap_app; simpl; now rewrite ?app_nil_r.
  - destruct (resolved r); [apply IH | reflexivity].
Qed.

Lemma raceWithTimeouts_delays (gid : string) (settings : Settings) (events : list Event)
    (w : World) :
  delays (snd (raceWithTimeouts gid settings events w)) = delays w.
Proof.
  unfold raceWithTimeouts, bind, readContext.
  destruct (activeContexts w !! gid) as [c|]; [apply raceEvents_delays | reflexivity].
Qed.

(** At a computation with a specification in terms of [tailFrame]: carry
    the frame [T] over it. *)
Ltac post_wait T tac :=
  match type of T with
  | tailFrame ?delay ?slept ?w0 _ =>
      match goal with
      | |- post _ _ ?w1 =>
          let wa := fresh "wa" in
          let Ta := fresh "Ta" in
          let r := fresh "r" in
          let wn := fresh "w" in
          let H := fresh "H" in
          let Hf := fresh "Hf" in
          set (wa := w1);
          assert (Ta : tailFrame delay slept w0 wa) by (subst wa; tail_tac);
          clearbody wa; clear T;
          eapply post_mono; [ tac | ];
          intros r wn [H Hf]; cbv beta;
          pose proof (tailFrame_trans _ _ _ _ _ _ Ta Hf) as T;
          clear Ta Hf; subst r
      end
  end.

(** ** A pass through a loop body, taken apart *)

Lemma aboutContexts_registered (gid : string) : aboutContexts (registered gid).
Proof. intros w w' E. unfold registered. now rewrite E. Qed.

Lemma aboutContexts_abortRequested (gid : string) : aboutContexts (abortRequested gid).
Proof. intros w w' E. unfold abortRequested. now rewrite E. Qed.

Lemma harmless_registered (gid : string) (ev : Event) : harmless (registered gid) ev.
Proof.
  destruct ev as [g now | g | now | o]; simpl; auto; intros w H.
  - destruct (updateTokenTime_spec g now w) as (w' & E & (_ & _ & F) & _).
    rewrite E. simpl. now apply F.
  - destruct (abortRetry_spec g w) as (b & w' & E & (_ & _ & F) & _).
    rewrite E. simpl. now apply F.
Qed.

Lemma harmless_abortRequested (gid : string) (ev : Event) : harmless (abortRequested gid) ev.
Proof.
  destruct ev as [g now | g | now | o]; simpl; auto; intros w (c & Hc & Ha).
  - destruct (updateTokenTime_spec g now w) as (w' & E & _ & _ & Hne & Heq).
    rewrite E. simpl. destruct (decide (gid = g)) as [->|Hg].
    + rewrite Hc in Heq. now exists (markToken now c).
    + exists c. now rewrite Hne.
  - destruct (abortRetry_spec g w) as (b & w' & E & _ & _ & Hne & Heq).
    rewrite E. simpl. destruct (decide (gid = g)) as [->|Hg].
    + rewrite Hc in Heq. now exists (markAborted c).
    + exists c. now rewrite Hne.
Qed.

Lemma tailFrame_registered (gid : string) (delay : list Event) (slept : list Q)
    (w w' : World) :
  tailFrame delay slept w w' -> registered gid w -> registered gid w'.
Proof.
  intros (_ & _ & H). apply H; [apply aboutContexts_registered|].
  apply Forall_forall. intros ev _. apply harmless_registered.
Qed.

Lemma tailFrame_abortRequested (gid : string) (delay : list Event) (slept : list Q)
    (w w' : World) :
  tailFrame delay slept w w' -> abortRequested gid w -> abortRequested gid w'.
Proof.
  intros (_ & _ & H). apply H; [apply aboutContexts_abortRequested|].
  apply Forall_forall. intros ev _. apply harmless_abortRequested.
Qed.

Lemma prefixed_intro (gid : string) (host : Host) (st : Locals.t) (c : RetryContext)
    (b : bool) (n : Notice) (w : World) :
  delayOf n = None ->
  prefixed gid host st c w
    (addCall {| call_fn := Locals.currentFn st;
                call_fallbackIndex := Locals.fallbackIndex st;
                call_attempt := Locals.attempt st + 1 |}
       (if b
        then addNotices [n]
               (setContexts (<[gid := markAttemptStart
                                        (ep_now (script host (length (calls w)))) c]>
                               (activeContexts w)) w)
        else setContexts (<[gid := markAttemptStart
                                     (ep_now (script host (length (calls w)))) c]>
                            (activeContexts w)) w)).
Proof.
  intros Hn. destruct b; repeat split.
  unfold delays. simpl. rewrite omap_app. simpl. rewrite Hn. apply app_nil_r.
Qed.

Lemma prefixed_registered (gid : string) (host : Host) (st : Locals.t) (c : RetryContext)
    (w wa : World) :
  prefixed gid host st c w wa -> registered gid wa.
Proof. intros (_ & _ & _ & E). unfold registered. rewrite E, lookup_insert_eq. eauto. Qed.

Lemma if_same {A} (b : bool) (x : A) : (if b then x else x) = x.
Proof. now destruct b. Qed.

(** The end of a walk through a loop body: the race gave [Er], the tail is
    [T], and the tests on the way are among the hypotheses. *)
Ltac pass_end c Hc Ha Hpre Er T :=
  exists c; split; [exact Hc|]; right; split; [exact Ha|];
  eexists _, _, _, _; split; [exact Hpre|];
  split; [exact Er|]; split; [tail_tac|];
  unfold passOutcome; cbv zeta;
  repeat match goal with
         | H : settlementOf _ = _ |- _ => rewrite H
         | H : acceptable _ _ _ = _ |- _ => rewrite H
         end;
  try (split; reflexivity).

Ltac pass_decomposed host settings gid st w :=
  let c := fresh "c" in
  let Hc := fresh "Hc" in
  let Ha := fresh "Ha" in
  let Hpre := fresh "Hpre" in
  let Hreg := fresh "Hreg" in
  let Hns := fresh "Hns" in
  let Hrr := fresh "Hrr" in
  let wa := fresh "wa" in
  let rr := fresh "rr" in
  let wr := fresh "wr" in
  let Er := fresh "Er" in
  let T := fresh "T" in
  let H := fresh "H" in
  intros [c Hc];
  rewrite post_bind, (post_readContext _ c) by assumption;
  destruct (aborted c) eqn:Ha;
  [ rewrite post_ret; exists c; split; [exact Hc|]; left;
    split; [exact Ha|]; split; reflexivity |];
  rewrite post_bind, post_nextEpisode;
  rewrite post_bind, (post_writeContext _ _ c) by assumption;
  rewrite post_bind, post_when;
  rewrite post_bind, post_callCurrentFn;
  rewrite post_bind;
  match goal with |- post (raceWithTimeouts _ _ ?evs) _ ?w1 =>
    assert (Hpre : prefixed gid host st c w w1) by (apply prefixed_intro; reflexivity);
    set (wa := w1) in *; clearbody wa;
    pose proof (prefixed_registered _ _ _ _ _ _ Hpre) as Hreg;
    pose proof (raceWithTimeouts_frame gid settings evs wa Hreg) as [Hns Hrr];
    unfold post at 1;
    destruct (raceWithTimeouts gid settings evs wa) as [rr wr] eqn:Er;
    simpl in Hns, Hrr |- *;
    apply (fun F => proj2 (proj2 F) gid) in Hrr;
    apply Hrr in Hreg
  end;
  pose proof (tailFrame_refl (ep_delay (script host (length (calls w)))) wr) as T;
  destruct rr as [?winner| |]; [| pass_end c Hc Ha Hpre Er T | now destruct Hns];
  match goal with |- context [settlementOf ?a] => destruct (settlementOf a) as [?v|?e] eqn:?Es end;
  [ rewrite post_bind; post_wait T ltac:(apply post_contentInvalid);
    match goal with |- context [negb (acceptable ?h ?s ?v)] =>
      destruct (acceptable h s v) eqn:?Hv end; cbn [negb];
    [ rewrite post_bind, post_when, post_ret; pass_end c Hc Ha Hpre Er T
    | rewrite post_bind, post_when, post_bind, post_assignLastError, post_bind;
      post_wait T ltac:(apply post_handleRetryDelay);
      rewrite post_ret; pass_end c Hc Ha Hpre Er T ]
  | rewrite post_bind, post_assignLastError, post_bind, post_notify, post_bind;
    match goal with |- post (readContext _) _ ?w1 =>
      let c1 := fresh "c" in
      let Hc1 := fresh "Hc" in
      let Hab := fresh "Hab" in
      let Hre := fresh "Hre" in
      let Hli := fresh "Hli" in
      destruct Hreg as [c1 Hc1];
      rewrite (post_readContext _ c1) by exact Hc1;
      destruct (aborted c1) eqn:Hab;
      [ rewrite post_ret; pass_end c Hc Ha Hpre Er T;
        exists c1; split; [exact Hc1|]; rewrite Hab; split; reflexivity |];
      match goal with |- context [negb (isRetryableError ?e)] =>
        destruct (isRetryableError e) eqn:Hre end; cbn [negb];
      [| rewrite post_ret; pass_end c Hc Ha Hpre Er T;
         exists c1; split; [exact Hc1|]; rewrite Hab, Hre; split; reflexivity ];
      match goal with |- context [?x <=? ?y] => destruct (x <=? y) eqn:Hli end;
      [ rewrite post_ret; pass_end c Hc Ha Hpre Er T;
        exists c1; split; [exact Hc1|]; rewrite Hab, Hre; cbn [negb orb];
        rewrite ?if_same in *; cbn [Locals.attempt Locals.setAttempt] in Hli;
        rewrite Hli; split; reflexivity |];
      repeat (rewrite post_bind || rewrite post_when);
      post_wait T ltac:(apply post_handleRetryDelay);
      rewrite post_ret; pass_end c Hc Ha Hpre Er T;
      exists c1; split; [exact Hc1|]; rewrite Hab, Hre; cbn [negb orb];
      rewrite ?if_same in *; cbn [Locals.attempt Locals.setAttempt] in Hli;
      rewrite Hli; split; reflexivity
    end ].

Lemma primaryAttempt_decomposed (host : Host) (settings : Settings) (gid : string)
    (st : Locals.t) (w : World) :
  registered gid w ->
  post (primaryAttempt host settings gid st)
       (passDecomposed host settings gid None (rateLimitMaxRetries settings) st w) w.
Proof. unfold primaryAttempt. pass_decomposed host settings gid st w. Qed.

Lemma fallbackAttempt_decomposed (host : Host) (settings : Settings) (gid : string)
    (fallbackModel : FallbackModel) (st : Locals.t) (w : World) :
  registered gid w ->
  post (fallbackAttempt host settings gid fallbackModel st)
       (passDecomposed host settings gid (Locals.currentFallbackModel st)
          (maxRetries settings) st w) w.
Proof. unfold fallbackAttempt. pass_decomposed host settings gid st w. Qed.

(** ** What a run does to the registry *)

Lemma stable_writeContext_other (gid g : string) (o : option RetryContext)
    (f : RetryContext -> RetryContext) :
  g <> gid -> stable (fun w => activeContexts w !! g = o) (writeContext gid f).
Proof.
  intros Hne w H. unfold writeContext, bind, readContext.
  destruct (activeContexts w !! gid); simpl; [|assumption].
  now rewrite lookup_insert_ne.
Qed.

Lemma harmless_elsewhere (g : string) (o : option RetryContext) (ev : Event) :
  ~ addressedTo g ev -> harmless (fun w => activeContexts w !! g = o) ev.
Proof.
  destruct ev as [g' now | g' | now | s]; simpl; auto; intros Hne w H.
  - destruct (updateTokenTime_spec g' now w) as (w' & E & _ & _ & F & _).
    rewrite E. simpl. rewrite F; [assumption | congruence].
  - destruct (abortRetry_spec g' w) as (b & w' & E & _ & _ & F & _).
    rewrite E. simpl. rewrite F; [assumption | congruence].
Qed.

Lemma stable_passThrough (P : World -> Prop) (host : Host) :
  (forall c w, P w -> P (addCall c w)) ->
  (forall n, Forall (harmless P) (ep_events (script host n))) ->
  stable P (passThrough host).
Proof.
  intros Hc Hq w H. unfold passThrough.
  apply stable_nextEpisode_then; [|exact H]. intros n.
  apply stable_bind; [intros w1 H1; now apply Hc|]. intros _.
  apply stable_bind; [apply stable_awaitOperation, Hq|].
  intros [v|e]; apply stable_ret.
Qed.

(** X4: a run changes no context but its own. *)
Theorem run_leaves_other_generations (host : Host) (settings : Settings) (config : Config)
    (isRaw : bool) (registry : gmap string RetryContext) (g : string) :
  g <> generationIdOf host config ->
  (forall n, Forall (fun ev => ~ addressedTo g ev) (ep_events (script host n))
             /\ Forall (fun ev => ~ addressedTo g ev) (ep_delay (script host n))) ->
  activeContexts (snd (run host settings config isRaw registry)) !! g = registry !! g.
Proof.
  intros Hne Hev.
  set (P := fun w : World => activeContexts w !! g = registry !! g).
  assert (Hq : quietHost P host).
  { intros n. destruct (Hev n) as [H1 H2].
    split; (eapply Forall_impl; [eassumption|]); intros ev; apply harmless_elsewhere. }
  destruct (shouldRetryGeneration (generationIdOf host config) settings) eqn:Hs.
  - rewrite run_retried by assumption. unfold tryFinally.
    pose proof (stable_executeRetryLoop P host settings (generationIdOf host config)) as St.
    specialize (St (fun w w' E H => eq_trans (f_equal (fun m => m !! g) E) H)).
    specialize (St (fun now => stable_writeContext_other _ _ _ _ Hne) Hq config isRaw
                   (startWorld host config registry)).
    assert (P (startWorld host config registry)) as H0.
    { unfold P, startWorld. simpl. now rewrite lookup_insert_ne. }
    specialize (St H0).
    destruct (executeRetryLoop _ _ _ _ _ _) as [[res| |] w']; simpl in *; try exact St.
    rewrite lookup_delete_ne by congruence. exact St.
  - unfold run, executeWithRetry. rewrite Hs. simpl.
    apply (stable_passThrough P); [now intros | apply Hq | reflexivity].
Qed.

Lemma run_leaves_other_generations_witness :
  activeContexts
    (snd (run (hostOf [EvToken "chat" 5; EvAbort "chat"; EvSettle (Resolved (VString "ok"))])
              defaultSettings (request "chat" true) false
              {[ "other" := newContext (hostOf []) (request "other" true) ]}))
    !! "other"
  = Some (newContext (hostOf []) (request "other" true)).
Proof.
  rewrite (run_leaves_other_generations
             (hostOf [EvToken "chat" 5; EvAbort "chat"; EvSettle (Resolved (VString "ok"))])
             defaultSettings (request "chat" true) false
             {[ "other" := newContext (hostOf []) (request "other" true) ]} "other").
  - apply lookup_singleton_eq.
  - simpl. discriminate.
  - intros n. split; simpl; repeat constructor; simpl; first [discriminate | tauto].
Defined.

Lemma stable_writeContext_registered (gid : string) (f : RetryContext -> RetryContext) :
  stable (registered gid) (writeContext gid f).
Proof.
  intros w [c Hc]. unfold writeContext, bind, readContext. rewrite Hc. simpl.
  unfold registered. simpl. rewrite lookup_insert_eq. eauto.
Qed.

Lemma quietHost_registered (gid : string) (host : Host) : quietHost (registered gid) host.
Proof.
  intros n. split; apply Forall_forall; intros ev _; apply harmless_registered.
Qed.

(** X5: for a run that has its generation id to itself, [isRetrying] tells
    whether the run is still under way: it is true in the state of a run
    that has not settled and false once the run has settled.  No other run
    with the same id is under way when this one starts (the registry holds
    nothing under the id), and the hosts of this model start none while
    it runs; another call of [executeWithRetry] with the same id would
    replace or delete the entry [isRetrying] looks at. *)
Theorem isRetrying_until_run_settles (host : Host) (settings : Settings) (config : Config)
    (isRaw : bool) (registry : gmap string RetryContext) :
  registry !! generationIdOf host config = None ->
  shouldRetryGeneration (generationIdOf host config) settings = true ->
  match fst (run host settings config isRaw registry) with
  | Done _ =>
      isRetrying (generationIdOf host config) (snd (run host settings config isRaw registry))
      = false
  | Pending =>
      isRetrying (generationIdOf host config) (snd (run host settings config isRaw registry))
      = true
  | Stuck => False
  end.
Proof.
  intros _ Hs. pose proof (run_not_stuck host settings config isRaw registry) as Hns.
  rewrite run_retried in * by assumption. unfold tryFinally in *.
  pose proof (stable_executeRetryLoop (registered (generationIdOf host config)) host settings
                (generationIdOf host config) (aboutContexts_registered _)
                (fun now => stable_writeContext_registered _ _)
                (quietHost_registered _ _) config isRaw
                (startWorld host config registry) (startWorld_registered _ _ _)) as St.
  destruct (executeRetryLoop _ _ _ _ _ _) as [[res| |] w']; simpl in *.
  - unfold isRetrying, getActiveContext. simpl. rewrite lookup_delete_eq.
    apply bool_decide_eq_false. auto.
  - unfold isRetrying, getActiveContext. apply bool_decide_eq_true.
    destruct St as [c Hc]. congruence.
  - now apply Hns.
Qed.

Lemma isRetrying_until_run_settles_witness :
  isRetrying "chat"
    (snd (run (hostOf [EvToken "chat" 5]) defaultSettings (request "chat" true) false ∅))
  = true.
Proof.
  exact (isRetrying_until_run_settles (hostOf [EvToken "chat" 5]) defaultSettings
           (request "chat" true) false ∅ (lookup_empty _) eq_refl).
Defined.

(** ** An abort request ends the attempts *)

Lemma abortRetry_raises (gid : string) (w : World) :
  registered gid w -> abortRequested gid (snd (abortRetry gid w)).
Proof.
  intros [c Hc]. destruct (abortRetry_spec gid w) as (b & w' & E & _ & _ & _ & Heq).
  rewrite E. simpl. rewrite Hc in Heq. now exists (markAborted c).
Qed.

Lemma quiet_abortRequested (gid : string) (events : list Event) :
  Forall (harmless (abortRequested gid)) events.
Proof. apply Forall_forall. intros ev _. apply harmless_abortRequested. Qed.

Lemma quiet_registered (gid : string) (events : list Event) :
  Forall (harmless (registered gid)) events.
Proof. apply Forall_forall. intros ev _. apply harmless_registered. Qed.

Lemma raceEvents_raises (gid : string) (settings : Settings) (r : Race)
    (pre rest : list Event) :
  uneventful pre ->
  forall w, registered gid w ->
    abortRequested gid (snd (raceEvents gid settings r (pre ++ EvAbort gid :: rest) w)).
Proof.
  induction pre as [|ev pre IH]; intros Hpre w Hreg.
  - simpl. unfold bind. pose proof (abortRetry_raises gid w Hreg) as H.
    destruct (abortRetry_spec gid w) as (b & w' & E & _). rewrite E in *. simpl in H.
    apply (stable_raceEvents (abortRequested gid)); auto using
      aboutContexts_abortRequested, quiet_abortRequested.
  - apply Forall_cons in Hpre. destruct Hpre as [Hev Hpre].
    destruct ev as [g now | g | now | o]; try contradiction; simpl; unfold bind.
    + pose proof (harmless_registered gid (EvToken g now) w Hreg) as H.
      destruct (updateTokenTime_spec g now w) as (w' & E & _). rewrite E in *.
      now apply IH.
    + pose proof (harmless_registered gid (EvAbort g) w Hreg) as H.
      destruct (abortRetry_spec g w) as (b & w' & E & _). rewrite E in *.
      now apply IH.
Qed.

Lemma raceWithTimeouts_raises (gid : string) (settings : Settings)
    (pre rest : list Event) (w : World) :
  uneventful pre -> registered gid w ->
  abortRequested gid (snd (raceWithTimeouts gid settings (pre ++ EvAbort gid :: rest) w)).
Proof.
  intros Hpre Hreg. unfold raceWithTimeouts, bind, readContext.
  destruct (Hreg) as [c Hc]. rewrite Hc. now apply raceEvents_raises.
Qed.

Lemma abortedAfter_pass (host : Host) (settings : Settings) (gid : string) (k : nat)
    (pre rest : list Event) (reported : option FallbackModel) (rateLimitLimit : Z)
    (st : Locals.t) (w : World) (r : Res Step) (w' : World) :
  ep_events (script host k) = pre ++ EvAbort gid :: rest -> uneventful pre ->
  passDecomposed host settings gid reported rateLimitLimit st w r w' ->
  abortedAfter gid k w -> abortedAfter gid k w'.
Proof.
  intros Hev Hpre (c & Hc & [(Ha & -> & _) | (Ha & wa & rr & wr & slept & Hp & Er & T & _)]) Inv;
    [exact Inv|].
  destruct Inv as (Hreg & Hle & Hab).
  assert (Hlt : (length (calls w) <= k)%nat).
  { destruct (decide (length (calls w) = (k + 1)%nat)) as [E|E]; [|lia].
    destruct (Hab E) as (c' & Hc' & Ha'). congruence. }
  pose proof (prefixed_registered _ _ _ _ _ _ Hp) as Hra.
  destruct Hp as (Hca & _).
  pose proof (raceWithTimeouts_frame gid settings
                (ep_events (script host (length (calls w)))) wa Hra) as [_ (Hcr & _ & Hrr)].
  rewrite Er in Hcr, Hrr. simpl in Hcr, Hrr.
  assert (Hlen : length (calls w') = S (length (calls w))).
  { destruct T as (-> & _). rewrite Hcr, Hca, length_app. simpl. lia. }
  split; [|split].
  - apply (tailFrame_registered gid _ _ wr _ T). now apply Hrr.
  - lia.
  - intros E. assert (length (calls w) = k) as Ek by lia. subst k.
    apply (tailFrame_abortRequested gid _ _ wr _ T).
    rewrite Hev in Er.
    pose proof (raceWithTimeouts_raises gid settings pre rest wa Hpre Hra) as H.
    now rewrite Er in H.
Qed.

Lemma abortedAfter_notices (gid : string) (k : nat) (ns : list Notice) (w : World) :
  abortedAfter gid k w -> abortedAfter gid k (addNotices ns w).
Proof. intros H. exact H. Qed.

(** X6: once the abort flag of the run's context has been raised while a
    call is in flight, before any timer tick or settlement of that call, the
    run makes no further call.  [abortRetry] raises the flag of the context
    registered under the id, which is this run's: no other run with the
    same id is under way when this one starts, and the hosts of this model
    start none while it runs. *)
Theorem abort_during_attempt_is_last_call (host : Host) (settings : Settings)
    (config : Config) (isRaw : bool) (registry : gmap string RetryContext)
    (k : nat) (pre rest : list Event) :
  registry !! generationIdOf host config = None ->
  shouldRetryGeneration (generationIdOf host config) settings = true ->
  ep_events (script host k) = pre ++ EvAbort (generationIdOf host config) :: rest ->
  uneventful pre ->
  (length (calls (snd (run host settings config isRaw registry))) <= k + 1)%nat.
Proof.
  intros _ Hs Hev Hpre. rewrite run_retried by assumption.
  set (gid := generationIdOf host config) in *.
  assert (St : stable (abortedAfter gid k) (executeRetryLoop host settings gid config isRaw)).
  { apply stable_loops.
    - apply abortedAfter_notices.
    - intros st w Inv.
      apply (abortedAfter_pass host settings gid k pre rest None
               (rateLimitMaxRetries settings) st w
               (fst (primaryAttempt host settings gid st w))); try assumption.
      apply primaryAttempt_decomposed, Inv.
    - intros fm st w Inv.
      apply (abortedAfter_pass host settings gid k pre rest
               (Locals.currentFallbackModel st) (maxRetries settings) st w
               (fst (fallbackAttempt host settings gid fm st w))); try assumption.
      apply fallbackAttempt_decomposed, Inv. }
  specialize (St (startWorld host config registry)).
  destruct St as (_ & H & _).
  { split; [apply startWorld_registered|]. simpl. split; [lia|]. intros E. lia. }
  unfold tryFinally.
  destruct (executeRetryLoop _ _ _ _ _ _) as [[res| |] w']; simpl in *; exact H.
Qed.

Lemma abort_during_attempt_is_last_call_witness :
  (length (calls (snd (run (hostOf [EvAbort "chat"; EvSettle (Resolved (VString ""))])
                           (requireSettings "needed") (request "chat" false) false ∅)))
   <= 0 + 1)%nat.
Proof.
  apply (abort_during_attempt_is_last_call
           (hostOf [EvAbort "chat"; EvSettle (Resolved (VString ""))])
           (requireSettings "needed") (request "chat" false) false ∅ 0 []
           [EvSettle (Resolved (VString ""))]).
  - apply lookup_empty.
  - reflexivity.
  - reflexivity.
  - constructor.
Defined.

(** ** The schedule of a run and the shape of its result *)

Lemma passDecomposed_summary (host : Host) (settings : Settings) (gid : string)
    (reported : option FallbackModel) (rateLimitLimit : Z) (st : Locals.t) (w : World)
    (r : Res Step) (w' : World) :
  passDecomposed host settings gid reported rateLimitLimit st w r w' ->
  passSummary gid reported st w r w'.
Proof.
  intros (c & Hc & [(Ha & -> & ->) | (Ha & wa & rr & wr & slept & Hp & Er & T & Ho)]).
  { split; [now exists c|]. left. now split. }
  pose proof (prefixed_registered _ _ _ _ _ _ Hp) as Hra.
  destruct Hp as (Hca & _).
  pose proof (raceWithTimeouts_frame gid settings
                (ep_events (script host (length (calls w)))) wa Hra) as [_ (Hcr & _ & Hrr)].
  rewrite Er in Hcr, Hrr. simpl in Hcr, Hrr.
  assert (Hcalls : calls w' = calls w ++ [callOf st])
    by (destruct T as (-> & _); congruence).
  split; [apply (tailFrame_registered gid _ _ wr _ T); now apply Hrr|].
  unfold passOutcome in Ho. cbv zeta in Ho.
  destruct rr as [winner| |]; [| now destruct Ho as [-> _] | contradiction].
  destruct (settlementOf winner) as [v|e].
  - destruct (acceptable host settings v); destruct Ho as [-> _]; eauto 6.
  - destruct Ho as (c1 & _ & Ho). destruct (aborted c1); [destruct Ho as [-> _]; eauto|].
    destruct (_ || _); destruct Ho as [-> _]; eauto.
Qed.

Lemma prefix_sublist {A} (l1 l2 : list A) : l1 `prefix_of` l2 -> l1 `sublist_of` l2.
Proof. intros [k ->]. now apply sublist_inserts_r. Qed.

Lemma attemptCalls_next (st : Locals.t) (limit : Z) :
  Locals.attempt st < limit ->
  attemptCalls (Locals.currentFn st) (Locals.fallbackIndex st) (Locals.attempt st)
               (Z.to_nat (limit - Locals.attempt st))
  = callOf st
    :: attemptCalls (Locals.currentFn st) (Locals.fallbackIndex st) (Locals.attempt st + 1)
                    (Z.to_nat (limit - (Locals.attempt st + 1))).
Proof.
  intros H. replace (Z.to_nat (limit - Locals.attempt st))
    with (S (Z.to_nat (limit - (Locals.attempt st + 1)))) by lia.
  reflexivity.
Qed.

Lemma wellFormed_aborted (settings : Settings) (n : Z) (usedFallback : bool)
    (fallbackModel : option FallbackModel) :
  0 <= n <= maxRetries settings -> backendOk settings usedFallback fallbackModel ->
  wellFormed settings (abortedResult n usedFallback fallbackModel).
Proof. intros Hn Hb. split; [|split]; simpl; [split; [|split]; eauto; lia | lia | exact Hb]. Qed.

Lemma wellFormed_success (settings : Settings) (v : Value) (st : Locals.t) :
  1 <= Locals.attempt st <= maxRetries settings ->
  backendOk settings (Locals.usedFallback st) (Locals.currentFallbackModel st) ->
  wellFormed settings (successResult v st).
Proof. intros Hn Hb. split; [|split]; simpl; [split; [|split]; eauto; lia | lia | exact Hb]. Qed.

Section LoopDone.
Variable host : Host.
Variable settings : Settings.
Variable gid : string.
Variable body : Locals.t -> M Step.
Variable st0 : Locals.t.
Variable rateLimitLimit : Z.
Hypothesis body_decomposed :
  forall st w, sameBackend st0 st -> registered gid w ->
    post (body st)
         (passDecomposed host settings gid (Locals.currentFallbackModel st0)
            rateLimitLimit st w) w.

Lemma retryWhile_loopDone :
  forall fuel st w,
    sameBackend st0 st -> registered gid w ->
    (Z.to_nat (maxRetries settings - Locals.attempt st) <= fuel)%nat ->
    post (retryWhile settings body fuel st) (loopDone settings gid st w) w.
Proof.
  assert (Hexit : forall st w, registered gid w ->
            (Locals.attempt st <? maxRetries settings) = false ->
            post (ret (inr st)) (loopDone settings gid st w) w).
  { intros st w Hreg Hlt. apply Z.ltb_ge in Hlt. rewrite post_ret.
    split; [exact Hreg|]. split.
    - exists []. rewrite app_nil_r. split; [reflexivity | apply prefix_nil].
    - split; [apply sameBackend_refl|]. split; [lia|]. split; [auto|].
      intros [H|H]; [lia | exact H]. }
  induction fuel as [|fuel IH]; intros st w Hsb Hreg Hfuel; simpl;
    destruct (Locals.attempt st <? maxRetries settings) eqn:Hlt; auto.
  - apply Z.ltb_lt in Hlt. lia.
  - apply Z.ltb_lt in Hlt. rewrite post_bind.
    eapply post_mono; [apply (body_decomposed st w Hsb Hreg)|].
    intros r w' D. apply passDecomposed_summary in D. destruct D as [Hreg' D].
    assert (Hfm : Locals.currentFallbackModel st = Locals.currentFallbackModel st0)
      by apply Hsb.
    destruct r as [[st'|st'|res]| |]; try contradiction.
    + destruct D as [Hc [e ->]].
      eapply post_mono.
      { apply (IH (afterFailure e st) w'); [| exact Hreg' | simpl; lia].
        destruct Hsb as (?&?&?&?&?). now repeat split. }
      intros r w'' (Hreg'' & (cs & Hcs & Hpre) & Hr).
      split; [exact Hreg''|]. split.
      * exists (callOf st :: cs). split.
        -- rewrite Hcs, Hc, <- app_assoc. reflexivity.
        -- rewrite attemptCalls_next by assumption. now apply prefix_cons.
      * destruct r as [[res|st'']| |]; auto.
        -- intros [Ha Hb]. apply Hr. split; [simpl; lia | exact Hb].
        -- destruct Hr as (Hs & Hle & Hmax & Herr). split.
           ++ destruct Hs as (?&?&?&?&?). simpl in *. now repeat split.
           ++ simpl in *. split; [lia|]. split; [intros _; apply Hmax; lia|].
              intros _. apply Herr. right. eauto.
    + destruct D as [Hc [e ->]]. rewrite post_ret.
      split; [exact Hreg'|]. split.
      * exists [callOf st]. split; [exact Hc|].
        rewrite attemptCalls_next by assumption. apply prefix_cons, prefix_nil.
      * split; [now repeat split|]. simpl. split; [lia|]. split; [lia|]. eauto.
    + rewrite post_ret. split; [exact Hreg'|].
      destruct D as [[Hc ->] | [Hc Hres]]; split.
      * exists []. rewrite app_nil_r. split; [exact Hc | apply prefix_nil].
      * intros [Ha Hb]. apply wellFormed_aborted; [lia|]. now rewrite <- Hfm.
      * exists [callOf st]. split; [exact Hc|].
        rewrite attemptCalls_next by assumption. apply prefix_cons, prefix_nil.
      * intros [Ha Hb]. destruct Hres as [-> | [v ->]].
        -- apply wellFormed_aborted; [lia|]. now rewrite <- Hfm.
        -- apply wellFormed_success; [simpl; lia | exact Hb].
    + split; [exact Hreg'|]. split; [|exact I].
      exists [callOf st]. split; [exact D|].
      rewrite attemptCalls_next by assumption. apply prefix_cons, prefix_nil.
Qed.
End LoopDone.

Lemma fallbackCascade_cascadeDone (host : Host) (settings : Settings) (gid : string)
    (config : Config) (isRaw : bool) (models : list FallbackModel) :
  forall i st w,
    registered gid w ->
    sameRequest config (Locals.currentConfig st) ->
    (forall fm, fm ∈ models -> unusable fm = false -> fm ∈ usableModels settings) ->
    post (fallbackCascade host settings gid isRaw i models st)
         (cascadeDone settings gid config isRaw i models
            (0 <= maxRetries settings /\ localsOk settings st
             /\ is_Some (Locals.lastError st)) w) w.
Proof.
  induction models as [|fm rest IH]; intros i st w Hreg Hreq Hin; simpl.
  { rewrite post_ret. split; [exact Hreg|]. split.
    - exists []. now rewrite app_nil_r.
    - intros (_ & Hl & He). now split. }
  assert (Hrest : forall fm', fm' ∈ rest -> unusable fm' = false ->
                              fm' ∈ usableModels settings)
    by (intros fm' H; apply Hin; now right).
  destruct (unusable fm) eqn:Hu.
  - rewrite post_bind, post_notify.
    eapply post_mono; [apply (IH (i + 1) st); assumption|].
    intros r w' H. unfold cascadeDone in *. simpl. rewrite Hu. exact H.
  - rewrite post_bind, post_when, post_bind.
    destruct (fallbackConfigOf_sameRequest config (Locals.currentConfig st) fm Hreq)
      as [Hcfg Hreq'].
    match goal with |- post (retryWhile _ _ _ ?stf) _ ?w1 =>
      set (st1 := stf); set (w1' := w1);
      assert (Hreg1 : registered gid w1') by (subst w1'; now destruct (showRetryToast settings));
      assert (Hc1 : calls w1' = calls w) by (subst w1'; now destruct (showRetryToast settings));
      clearbody w1'
    end.
    eapply post_mono.
    { apply (retryWhile_loopDone host settings gid (fallbackAttempt host settings gid fm) st1
               (maxRetries settings));
        [| apply sameBackend_refl | exact Hreg1 | unfold loopFuel; simpl; lia].
      intros st' w' Hsb Hr.
      replace (Locals.currentFallbackModel st1) with (Locals.currentFallbackModel st')
        by apply Hsb.
      now apply fallbackAttempt_decomposed. }
    intros r w' (Hreg' & (cs & Hcs & Hpre) & Hr).
    assert (Hsched : cs `sublist_of`
              attemptCalls (fallbackCall config isRaw fm) i 0
                           (Z.to_nat (maxRetries settings))).
    { apply prefix_sublist. simpl in Hpre. rewrite Z.sub_0_r in Hpre.
      unfold fallbackCall. rewrite <- Hcfg. exact Hpre. }
    assert (Hok1 : 0 <= maxRetries settings -> localsOk settings st1).
    { intros Hm. split; [simpl; lia|]. simpl. split; [reflexivity|].
      apply Hin; [left | exact Hu]. }
    destruct r as [[res|st']| |]; try contradiction.
    + rewrite post_ret. split; [exact Hreg'|]. split.
      * exists cs. split; [congruence|]. simpl. rewrite Hu. now apply sublist_inserts_r.
      * intros (Hm & _). auto.
    + destruct Hr as (Hsb & Hle & Hmax & Herr).
      eapply post_mono.
      { apply (IH (i + 1) st' w'); [exact Hreg' | | exact Hrest].
        destruct Hsb as (_ & _ & _ & -> & _). exact Hreq'. }
      intros r w'' (Hreg'' & (cs' & Hcs' & Hsub) & Hr).
      split; [exact Hreg''|]. split.
      * exists (cs ++ cs'). split; [rewrite Hcs', Hcs, Hc1; now rewrite app_assoc|].
        simpl. rewrite Hu. now apply sublist_app.
      * assert (Hok' : 0 <= maxRetries settings /\ localsOk settings st
                       /\ is_Some (Locals.lastError st) ->
                       0 <= maxRetries settings /\ localsOk settings st'
                       /\ is_Some (Locals.lastError st')).
        { intros (Hm & _ & He). split; [exact Hm|]. split.
          - destruct (Hok1 Hm) as [Ha Hb]. simpl in Hle, Hmax. split; [lia|].
            destruct Hsb as (_ & -> & -> & _). exact Hb.
          - apply Herr. now right. }
        destruct r as [[res|st'']| |]; auto.
    + split; [exact Hreg'|]. split; [|exact I].
      exists cs. split; [congruence|]. simpl. rewrite Hu. now apply sublist_inserts_r.
Qed.

Lemma executeRetryLoop_scheduled (host : Host) (settings : Settings) (config : Config)
    (isRaw : bool) (registry : gmap string RetryContext) :
  post (executeRetryLoop host settings (generationIdOf host config) config isRaw)
       (fun r w' =>
          calls w' `sublist_of` schedule settings config isRaw
          /\ match r with
             | Done res => 1 <= maxRetries settings -> wellFormed settings res
             | Pending => True
             | Stuck => False
             end)
       (startWorld host config registry).
Proof.
  set (gid := generationIdOf host config).
  unfold executeRetryLoop, retryLoops. rewrite !post_bind.
  eapply post_mono.
  { apply (retryWhile_loopDone host settings gid (primaryAttempt host settings gid)
             (initialLocals config) (rateLimitMaxRetries settings));
      [| apply sameBackend_refl | apply startWorld_registered | unfold loopFuel; simpl; lia].
    intros st w _ Hr. now apply primaryAttempt_decomposed. }
  intros r w (Hreg & (cs & Hcs & Hpre) & Hr).
  simpl in Hcs, Hpre. rewrite Z.sub_0_r in Hpre. apply prefix_sublist in Hpre.
  assert (Hinit : 1 <= maxRetries settings -> localsOk settings (initialLocals config))
    by (intros Hm; split; simpl; [lia | reflexivity]).
  destruct r as [[res|st]| |]; try contradiction.
  - rewrite !post_ret. split; [|now auto].
    rewrite Hcs. now apply sublist_inserts_r.
  - destruct Hr as (Hsb & Hle & Hmax & Herr). simpl in Hle, Hmax, Herr.
    assert (Hst : 1 <= maxRetries settings ->
                  localsOk settings st /\ is_Some (Locals.lastError st)).
    { intros Hm. split; [|apply Herr; left; lia]. split; [lia|].
      destruct Hsb as (_ & -> & -> & _). reflexivity. }
    assert (Hfail : forall st' w', 
              calls w' `sublist_of` schedule settings config isRaw ->
              (1 <= maxRetries settings ->
               localsOk settings st' /\ is_Some (Locals.lastError st')) ->
              post (when (showFailureToast settings) (notify ToastFailed) ;;;
                    ret (failedResult st'))
                   (fun r w' =>
                      calls w' `sublist_of` schedule settings config isRaw
                      /\ match r with
                         | Done res => 1 <= maxRetries settings -> wellFormed settings res
                         | Pending => True
                         | Stuck => False
                         end) w').
    { intros st' w' Hc Hl. rewrite post_bind, post_when, post_ret. split.
      - now destruct (showFailureToast settings).
      - intros Hm. destruct (Hl Hm) as [[Ha Hb] He].
        split; [|split]; simpl; [split; [|split]; auto; lia | lia | exact Hb]. }
    destruct (fallbackModelsEnabled settings
              && bool_decide (0 < length (fallbackModels settings))%nat) eqn:Hen.
    + apply andb_true_iff in Hen. destruct Hen as [Hen _].
      eapply post_mono.
      { apply (fallbackCascade_cascadeDone host settings gid config isRaw
                 (fallbackModels settings) 0 st w Hreg).
        - destruct Hsb as (_ & _ & _ & -> & _). unfold sameRequest. simpl. auto.
        - intros fm Hin Hu. unfold usableModels. rewrite Hen.
          apply list_elem_of_filter. now split. }
      intros r w' (Hreg' & (cs' & Hcs' & Hsub) & Hr).
      assert (Hc' : calls w' `sublist_of` schedule settings config isRaw).
      { rewrite Hcs', Hcs. unfold schedule. rewrite Hen. now apply sublist_app. }
      destruct r as [[res|st']| |]; try contradiction.
      * rewrite post_ret. split; [exact Hc'|]. intros Hm. apply Hr.
        destruct (Hst Hm). split; [lia | now split].
      * apply Hfail; [exact Hc'|]. intros Hm. apply Hr.
        destruct (Hst Hm). split; [lia | now split].
      * split; [exact Hc' | exact I].
    + rewrite post_ret. apply Hfail; [|exact Hst].
      rewrite Hcs. unfold schedule. now apply sublist_inserts_r.
  - split; [|exact I]. rewrite Hcs. now apply sublist_inserts_r.
Qed.

Lemma length_attemptCalls (fn : Invocation) (i : Z) (n : nat) :
  forall done, length (attemptCalls fn i done n) = n.
Proof. induction n as [|n IH]; intros done; simpl; [reflexivity | now rewrite IH]. Qed.

Lemma length_cascadeCalls (config : Config) (isRaw : bool) (n : nat)
    (models : list FallbackModel) :
  forall i, length (cascadeCalls config isRaw n i models)
            = (n * length (filter (fun fm => unusable fm = false) models))%nat.
Proof.
  induction models as [|fm rest IH]; intros i; simpl; [lia|].
  rewrite length_app, IH. destruct (unusable fm) eqn:Hu.
  - rewrite filter_cons_False by (rewrite Hu; discriminate). simpl. lia.
  - rewrite filter_cons_True by exact Hu. simpl. rewrite length_attemptCalls. lia.
Qed.

Lemma length_schedule (settings : Settings) (config : Config) (isRaw : bool) :
  length (schedule settings config isRaw)
  = (Z.to_nat (maxRetries settings) * (1 + length (usableModels settings)))%nat.
Proof.
  unfold schedule, usableModels. rewrite length_app, length_attemptCalls.
  destruct (fallbackModelsEnabled settings); simpl; [rewrite length_cascadeCalls|]; lia.
Qed.

(** X7: every call of a run is one of the schedule, in the schedule's order. *)
Theorem calls_follow_the_schedule (host : Host) (settings : Settings) (config : Config)
    (isRaw : bool) (registry : gmap string RetryContext) :
  shouldRetryGeneration (generationIdOf host config) settings = true ->
  calls (snd (run host settings config isRaw registry))
    `sublist_of` schedule settings config isRaw
  /\ (length (calls (snd (run host settings config isRaw registry)))
      <= Z.to_nat (maxRetries settings) * (1 + length (usableModels settings)))%nat.
Proof.
  intros Hs.
  assert (H : calls (snd (run host settings config isRaw registry))
                `sublist_of` schedule settings config isRaw).
  { rewrite run_retried by assumption. unfold tryFinally.
    pose proof (executeRetryLoop_scheduled host settings config isRaw registry) as [H _].
    destruct (executeRetryLoop _ _ _ _ _ _) as [[res| |] w']; exact H. }
  split; [exact H|]. rewrite <- (length_schedule settings config isRaw).
  now apply sublist_length.
Qed.

Lemma calls_follow_the_schedule_witness :
  (length (calls (snd (run (hostOf [EvSettle (Rejected serverError)])
                           (cascadeSettings [brokenModel; backupModel])
                           (request "chat" false) false ∅)))
   <= 4)%nat.
Proof.
  exact (proj2 (calls_follow_the_schedule (hostOf [EvSettle (Rejected serverError)])
                  (cascadeSettings [brokenModel; backupModel])
                  (request "chat" false) false ∅ eq_refl)).
Defined.

(** X8: the result of a run is well formed. *)
Theorem run_result_is_well_formed (host : Host) (settings : Settings) (config : Config)
    (isRaw : bool) (registry : gmap string RetryContext) (res : RetryResult) (w' : World) :
  1 <= maxRetries settings ->
  run host settings config isRaw registry = (Done res, w') ->
  wellFormed settings res.
Proof.
  intros Hm. destruct (shouldRetryGeneration (generationIdOf host config) settings) eqn:Hs.
  - rewrite run_retried by assumption. unfold tryFinally.
    pose proof (executeRetryLoop_scheduled host settings config isRaw registry) as [_ H].
    destruct (executeRetryLoop _ _ _ _ _ _) as [[res'| |] w'']; intros [= <- _]; auto.
  - unfold run, executeWithRetry. rewrite Hs. simpl. unfold passThrough, bind. simpl.
    destruct (awaitOperation _ _) as [[[v|e]| |] w'']; intros [= <- _];
      (split; [|split]; simpl; [split; [|split]; eauto; lia | lia | reflexivity]).
Qed.

Lemma run_result_is_well_formed_witness :
  wellFormed (cascadeSettings [brokenModel; backupModel])
    {| success := false; result := None; error := Some serverError; attempts := 2;
       usedFallback := true; fallbackModel := Some backupModel |}.
Proof.
  apply (run_result_is_well_formed (hostOf [EvSettle (Rejected serverError)])
           (cascadeSettings [brokenModel; backupModel])
           (request "chat" false) false ∅
           {| success := false; result := None; error := Some serverError; attempts := 2;
              usedFallback := true; fallbackModel := Some backupModel |}
           (snd (run (hostOf [EvSettle (Rejected serverError)])
                     (cascadeSettings [brokenModel; backupModel])
                     (request "chat" false) false ∅))).
  - simpl. lia.
  - vm_compute. reflexivity.
Defined.

(** ** The race, by the clock *)

Lemma raceEvents_decided (gid : string) (settings : Settings) (events : list Event) :
  forall (r : Race) (w : World) (c : RetryContext),
    activeContexts w !! gid = Some c -> aborted c = false ->
    resolved r = false -> noAbort gid events ->
    let stalled := streamingCheckInterval r
                   && stalls gid (streamingTimeoutMs settings) (latestToken c) events in
    fst (raceEvents gid settings r events w)
    = (if stalled then Done ByStallTimer
       else match firstSettle events with
            | Some o => Done (ByOperation o)
            | None => Pending
            end)
    /\ notices (snd (raceEvents gid settings r events w))
       = notices w ++ (if stalled then stallNotices settings c else [])
    /\ notAborted gid (snd (raceEvents gid settings r events w)).
Proof.
  induction events as [|ev rest IH]; intros r w c Hc Ha Hr Hq; cbv zeta.
  { simpl. rewrite andb_false_r, app_nil_r. repeat split. now exists c. }
  apply Forall_cons in Hq. destruct Hq as [Hev Hq].
  destruct ev as [g now | g | now | o]; simpl.
  - unfold bind.
    destruct (updateTokenTime_spec g now w) as (w1 & E & _ & Hn & Hne & Heq).
    rewrite E. rewrite <- Hn. destruct (decide (g = gid)) as [->|Hg].
    + rewrite Hc in Heq. simpl in Heq.
      apply (IH r w1 (markToken now c)); auto.
    + apply (IH r w1 c); auto. rewrite Hne; auto.
  - unfold bind.
    destruct (abortRetry_spec g w) as (b & w1 & E & _ & Hn & Hne & _).
    rewrite E. rewrite <- Hn.
    apply (IH r w1 c); auto. rewrite Hne; [assumption|]. intros ->. now apply Hev.
  - destruct (streamingCheckInterval r) eqn:Ht; simpl.
    2:{ specialize (IH r w c Hc Ha Hr Hq). rewrite Ht in IH. exact IH. }
    unfold bind, readContext. rewrite Hc, Hr, Ha. simpl.
    specialize (IH r w c Hc Ha Hr Hq). rewrite Ht in IH. simpl in IH.
    unfold latestToken in *. destruct (hasReceivedContent c); simpl; [|exact IH].
    destruct (streamingTimeoutMs settings <? now - lastTokenTime c); simpl; [|exact IH].
    unfold stallNotices. destruct (showRetryToast settings); simpl;
      (split; [reflexivity|]; split; [now rewrite <- ?app_assoc | now exists c]).
  - rewrite Hr, andb_false_r, app_nil_r. simpl. repeat split. now exists c.
Qed.

(** X9: without an abort request, the clock decides the race. *)
Theorem race_is_decided_by_the_clock (gid : string) (settings : Settings)
    (events : list Event) (w : World) (ctx : RetryContext) :
  activeContexts w !! gid = Some ctx -> aborted ctx = false -> noAbort gid events ->
  let stalled := isStreaming ctx
                 && stalls gid (streamingTimeoutMs settings) (latestToken ctx) events in
  fst (raceWithTimeouts gid settings events w)
  = (if stalled then Done ByStallTimer
     else match firstSettle events with
          | Some o => Done (ByOperation o)
          | None => Pending
          end)
  /\ notices (snd (raceWithTimeouts gid settings events w))
     = notices w ++ (if stalled then stallNotices settings ctx else []).
Proof.
  intros Hc Ha Hq. unfold raceWithTimeouts, bind, readContext. rewrite Hc.
  destruct (raceEvents_decided gid settings events (raceStart ctx) w ctx Hc Ha eq_refl Hq)
    as (H1 & H2 & _).
  split; assumption.
Qed.

Lemma race_is_decided_by_the_clock_witness :
  fst (raceWithTimeouts "chat" defaultSettings
         [EvToken "chat" 500; EvTick 1000; EvTick 30500; EvTick 30501;
          EvSettle (Resolved (VString "too late"))]
         (worldWith "chat" true))
  = Done ByStallTimer.
Proof.
  exact (proj1 (race_is_decided_by_the_clock "chat" defaultSettings
                  [EvToken "chat" 500; EvTick 1000; EvTick 30500; EvTick 30501;
                   EvSettle (Resolved (VString "too late"))]
                  (worldWith "chat" true)
                  (newContext (hostOf []) (request "chat" true))
                  (lookup_singleton_eq _ _) eq_refl
                  ltac:(repeat constructor; discriminate))).
Defined.

(** ** Passes nobody interrupts *)

Lemma aboutContexts_notAborted (gid : string) : aboutContexts (notAborted gid).
Proof. intros w w' E. unfold notAborted. now rewrite E. Qed.

Lemma harmless_notAborted (gid : string) (events : list Event) :
  noAbort gid events -> Forall (harmless (notAborted gid)) events.
Proof.
  intros H. eapply Forall_impl; [exact H|]. intros ev Hev.
  destruct ev as [g now | g | now | o]; simpl; auto; intros w Hw.
  - now apply updateTokenTime_notAborted.
  - now apply abortRetry_other.
Qed.

Lemma raceWithTimeouts_decided (gid : string) (settings : Settings)
    (events : list Event) (w : World) (ctx : RetryContext) :
  activeContexts w !! gid = Some ctx -> aborted ctx = false -> noAbort gid events ->
  fst (raceWithTimeouts gid settings events w)
  = (if isStreaming ctx
        && stalls gid (streamingTimeoutMs settings) (latestToken ctx) events
     then Done ByStallTimer
     else match firstSettle events with
          | Some o => Done (ByOperation o)
          | None => Pending
          end)
  /\ notAborted gid (snd (raceWithTimeouts gid settings events w)).
Proof.
  intros Hc Ha Hq. unfold raceWithTimeouts, bind, readContext. rewrite Hc.
  destruct (raceEvents_decided gid settings events (raceStart ctx) w ctx Hc Ha eq_refl Hq)
    as (H1 & _ & H3).
  split; assumption.
Qed.

(** A pass from a state in which the abort flag is down, with no abort
    request while the call is in flight. *)
Lemma calm_pass (host : Host) (settings : Settings) (gid : string)
    (reported : option FallbackModel) (rateLimitLimit : Z) (st : Locals.t) (w : World)
    (r : Res Step) (w' : World) :
  passDecomposed host settings gid reported rateLimitLimit st w r w' ->
  notAborted gid w ->
  noAbort gid (ep_events (script host (length (calls w)))) ->
  exists c rr wr slept,
    activeContexts w !! gid = Some c
    /\ rr = (if isStreaming c
                && stalls gid (streamingTimeoutMs settings) None
                          (ep_events (script host (length (calls w))))
             then Done ByStallTimer
             else match firstSettle (ep_events (script host (length (calls w)))) with
                  | Some o => Done (ByOperation o)
                  | None => Pending
                  end)
    /\ notAborted gid wr
    /\ calls w' = calls w ++ [callOf st]
    /\ delays w' = delays w ++ slept
    /\ (noAbort gid (ep_delay (script host (length (calls w)))) -> notAborted gid w')
    /\ passOutcome gid host settings reported rateLimitLimit st rr wr r slept.
Proof.
  intros (c & Hc & [(Ha & _) | (Ha & wa & rr & wr & slept & Hp & Er & T & Ho)])
         (c' & Hc' & Ha') Hq.
  { congruence. }
  pose proof (prefixed_registered _ _ _ _ _ _ Hp) as Hra.
  destruct Hp as (Hca & _ & Hda & Hctx).
  set (c0 := markAttemptStart (ep_now (script host (length (calls w)))) c) in *.
  assert (Hc0 : activeContexts wa !! gid = Some c0) by (rewrite Hctx; apply lookup_insert_eq).
  destruct (raceWithTimeouts_decided gid settings _ wa c0 Hc0 Ha Hq) as [Hfst Hna].
  pose proof (raceWithTimeouts_frame gid settings
                (ep_events (script host (length (calls w)))) wa Hra) as [_ (Hcr & _)].
  pose proof (raceWithTimeouts_delays gid settings
                (ep_events (script host (length (calls w)))) wa) as Hdr.
  rewrite Er in Hfst, Hna, Hcr, Hdr. simpl in Hfst, Hna, Hcr, Hdr.
  destruct T as (Hct & Hdt & Ht).
  exists c, rr, wr, slept. split; [exact Hc|]. split; [exact Hfst|].
  split; [exact Hna|]. split; [congruence|]. split; [congruence|].
  split; [|exact Ho].
  intros Hd. apply Ht; [apply aboutContexts_notAborted | now apply harmless_notAborted | exact Hna].
Qed.

Lemma post_run {A} (m : M A) (Q : Res A -> World -> Prop) (w : World) :
  post m Q w -> exists r w', m w = (r, w') /\ Q r w'.
Proof. unfold post. intros H. destruct (m w) as [r w']. eauto. Qed.


Section Scenarios.
Variable host : Host.
Variable settings : Settings.
Variable gid : string.
Variable body : Locals.t -> M Step.
Variable st0 : Locals.t.
Variable rateLimitLimit : Z.
Hypothesis body_decomposed :
  forall st w, sameBackend st0 st -> registered gid w ->
    post (body st)
         (passDecomposed host settings gid (Locals.currentFallbackModel st0)
            rateLimitLimit st w) w.

Lemma body_calm (st : Locals.t) (w : World) :
  sameBackend st0 st -> notAborted gid w ->
  noAbort gid (ep_events (script host (length (calls w)))) ->
  exists r w' c rr wr slept,
    body st w = (r, w')
    /\ activeContexts w !! gid = Some c
    /\ rr = (if isStreaming c
                && stalls gid (streamingTimeoutMs settings) None
                          (ep_events (script host (length (calls w))))
             then Done ByStallTimer
             else match firstSettle (ep_events (script host (length (calls w)))) with
                  | Some o => Done (ByOperation o)
                  | None => Pending
                  end)
    /\ notAborted gid wr
    /\ calls w' = calls w ++ [callOf st]
    /\ delays w' = delays w ++ slept
    /\ (noAbort gid (ep_delay (script host (length (calls w)))) -> notAborted gid w')
    /\ passOutcome gid host settings (Locals.currentFallbackModel st0) rateLimitLimit
         st rr wr r slept.
Proof.
  intros Hsb Hna Hq.
  destruct (post_run _ _ _ (body_decomposed st w Hsb (notAborted_registered _ _ Hna)))
    as (r & w' & E & D).
  destruct (calm_pass _ _ _ _ _ _ _ _ _ D Hna Hq) as (c & rr & wr & slept & H).
  exists r, w', c, rr, wr, slept. split; [exact E | exact H].
Qed.

(** A pass whose call fails in an ordinary retryable way. *)
Lemma failing_pass_outcome (st : Locals.t) (w : World) :
  sameBackend st0 st -> notAborted gid w ->
  failsRetryably false gid (script host (length (calls w))) ->
  exists e w',
    body st w
    = (Done (if maxRetries settings <=? Locals.attempt st + 1
             then Break (afterFailure e st) else Continue (afterFailure e st)), w')
    /\ notAborted gid w' /\ calls w' = calls w ++ [callOf st]
    /\ delays w' = delays w
                   ++ (if maxRetries settings <=? Locals.attempt st + 1 then []
                       else [calculateDelay (Locals.attempt st + 1) settings false]).
Proof.
  intros Hsb Hna (Hq & Hd & e & Hs & Hre & Hrl).
  destruct (body_calm st w Hsb Hna Hq)
    as (r & w' & c & rr & wr & slept & E & Hc & Hrr & Hnr & Hcalls & Hdel & Hn' & Ho).
  rewrite Hs in Hrr.
  assert (Hw : exists e', rr = Done (if isStreaming c && stalls gid (streamingTimeoutMs settings)
                                          None (ep_events (script host (length (calls w))))
                                     then ByStallTimer else ByOperation (Rejected e))
                          /\ settlementOf (if isStreaming c && stalls gid (streamingTimeoutMs settings)
                                          None (ep_events (script host (length (calls w))))
                                     then ByStallTimer else ByOperation (Rejected e)) = Rejected e'
                          /\ isRetryableError e' = true /\ isRateLimitError e' = false).
  { destruct (_ && _); [exists (newError "Streaming timeout") | exists e]; subst rr; auto. }
  destruct Hw as (e' & -> & Hse & Hre' & Hrl').
  unfold passOutcome in Ho. cbv zeta in Ho. rewrite Hse in Ho.
  destruct Ho as (c1 & Hc1 & Ho). destruct Hnr as (c2 & Hc2 & Ha2).
  assert (c1 = c2) as -> by congruence. rewrite Ha2, Hre', Hrl' in Ho. simpl in Ho.
  exists e', w'. destruct (maxRetries settings <=? Locals.attempt st + 1);
    destruct Ho as [-> ->]; (split; [exact E|]); auto.
Qed.

(** A pass whose call resolves with an acceptable value. *)
Lemma succeeding_pass_outcome (st : Locals.t) (w : World) (v : Value) :
  sameBackend st0 st -> notAborted gid w ->
  noAbort gid (ep_events (script host (length (calls w)))) ->
  stalls gid (streamingTimeoutMs settings) None
         (ep_events (script host (length (calls w)))) = false ->
  firstSettle (ep_events (script host (length (calls w)))) = Some (Resolved v) ->
  acceptable host settings v = true ->
  exists w',
    body st w
    = (Done (Return (successResult v (Locals.setAttempt (Locals.attempt st + 1) st))), w')
    /\ calls w' = calls w ++ [callOf st] /\ delays w' = delays w.
Proof.
  intros Hsb Hna Hq Hst Hs Hv.
  destruct (body_calm st w Hsb Hna Hq)
    as (r & w' & c & rr & wr & slept & E & Hc & Hrr & Hnr & Hcalls & Hdel & Hn' & Ho).
  rewrite Hst, andb_false_r, Hs in Hrr. subst rr.
  unfold passOutcome in Ho. cbv zeta in Ho. simpl in Ho. rewrite Hv in Ho.
  destruct Ho as [-> ->]. exists w'. rewrite app_nil_r in Hdel. auto.
Qed.

(** A pass whose call is rejected with a failure that is not retryable. *)
Lemma rejected_pass_outcome (st : Locals.t) (w : World) (e : Thrown) :
  sameBackend st0 st -> notAborted gid w ->
  noAbort gid (ep_events (script host (length (calls w)))) ->
  stalls gid (streamingTimeoutMs settings) None
         (ep_events (script host (length (calls w)))) = false ->
  firstSettle (ep_events (script host (length (calls w)))) = Some (Rejected e) ->
  isRetryableError e = false ->
  exists w',
    body st w = (Done (Break (afterFailure e st)), w')
    /\ calls w' = calls w ++ [callOf st] /\ delays w' = delays w.
Proof.
  intros Hsb Hna Hq Hst Hs Hre.
  destruct (body_calm st w Hsb Hna Hq)
    as (r & w' & c & rr & wr & slept & E & Hc & Hrr & Hnr & Hcalls & Hdel & Hn' & Ho).
  rewrite Hst, andb_false_r, Hs in Hrr. subst rr.
  unfold passOutcome in Ho. cbv zeta in Ho. simpl in Ho.
  destruct Ho as (c1 & Hc1 & Ho). destruct Hnr as (c2 & Hc2 & Ha2).
  assert (c1 = c2) as -> by congruence. rewrite Ha2, Hre in Ho. simpl in Ho.
  destruct Ho as [-> ->]. exists w'. rewrite app_nil_r in Hdel. auto.
Qed.


(** The delays before attempts [a + 2], ..., [a + k + 1] of one backend. *)
Lemma retryWhile_skips :
  forall (k fuel : nat) (st : Locals.t) (w : World),
    sameBackend st0 st -> notAborted gid w ->
    (forall i, (i < k)%nat ->
               failsRetryably false gid (script host (length (calls w) + i))) ->
    Locals.attempt st + Z.of_nat k < maxRetries settings ->
    exists st' w',
      retryWhile settings body (k + fuel) st w = retryWhile settings body fuel st' w'
      /\ sameBackend st0 st' /\ Locals.attempt st' = Locals.attempt st + Z.of_nat k
      /\ notAborted gid w'
      /\ calls w' = calls w ++ attemptCalls (Locals.currentFn st) (Locals.fallbackIndex st)
                                (Locals.attempt st) k
      /\ delays w' = delays w
                     ++ map (fun i => calculateDelay (Locals.attempt st + Z.of_nat i)
                                        settings false) (seq 1 k).
Proof.
  induction k as [|k IH]; intros fuel st w Hsb Hna Hfail Hlt.
  { exists st, w. simpl. rewrite Z.add_0_r, !app_nil_r. repeat split; auto; apply Hsb. }
  assert (Hf0 : failsRetryably false gid (script host (length (calls w))))
    by (specialize (Hfail 0%nat); rewrite Nat.add_0_r in Hfail; apply Hfail; lia).
  destruct (failing_pass_outcome st w Hsb Hna Hf0) as (e & w1 & E & Hna1 & Hc1 & Hd1).
  replace (maxRetries settings <=? Locals.attempt st + 1) with false in *
    by (symmetry; apply Z.leb_gt; lia).
  assert (Hsb1 : sameBackend st0 (afterFailure e st))
    by (destruct Hsb as (?&?&?&?&?); now repeat split).
  assert (Hf1 : forall i, (i < k)%nat ->
                  failsRetryably false gid (script host (length (calls w1) + i))).
  { intros i Hi. rewrite Hc1, length_app. simpl.
    replace (length (calls w) + 1 + i)%nat with (length (calls w) + S i)%nat by lia.
    apply Hfail. lia. }
  assert (Hlt1 : Locals.attempt (afterFailure e st) + Z.of_nat k < maxRetries settings)
    by (simpl; lia).
  destruct (IH fuel (afterFailure e st) w1 Hsb1 Hna1 Hf1 Hlt1)
    as (st' & w' & Eq & Hsb' & Hat & Hna' & Hc' & Hd').
  exists st', w'. split; [|split; [exact Hsb'|split; [simpl in Hat; lia|split; [exact Hna'|]]]].
  - simpl. replace (Locals.attempt st <? maxRetries settings) with true
        by (symmetry; apply Z.ltb_lt; lia).
    unfold bind at 1. rewrite E. exact Eq.
  - split.
    + rewrite Hc', Hc1, <- app_assoc. reflexivity.
    + rewrite Hd', Hd1, <- app_assoc. f_equal.
      change (seq 1 (S k)) with (1%nat :: seq 2 k).
      rewrite <- (seq_shift k 1), map_cons, map_map.
      change (Locals.attempt (afterFailure e st)) with (Locals.attempt st + 1).
      cbn [app]. f_equal; try (f_equal; lia).
      apply map_ext. intros i. f_equal. lia.
Qed.
End Scenarios.

(** ** Runs that end at a decisive attempt *)

Lemma attemptCalls_snoc (fn : Invocation) (idx : Z) (k : nat) :
  forall a,
    attemptCalls fn idx a (S k)
    = attemptCalls fn idx a k
      ++ [{| call_fn := fn; call_fallbackIndex := idx;
             call_attempt := a + Z.of_nat k + 1 |}].
Proof.
  induction k as [|k IH]; intros a.
  - simpl. now rewrite Z.add_0_r.
  - change (attemptCalls fn idx a (S (S k)))
      with ({| call_fn := fn; call_fallbackIndex := idx; call_attempt := a + 1 |}
            :: attemptCalls fn idx (a + 1) (S k)).
    rewrite IH. replace (a + Z.of_nat (S k) + 1) with (a + 1 + Z.of_nat k + 1) by lia.
    reflexivity.
Qed.

Lemma startWorld_notAborted (host : Host) (config : Config)
    (registry : gmap string RetryContext) :
  notAborted (generationIdOf host config) (startWorld host config registry).
Proof.
  exists (newContext host config). split; [|reflexivity].
  unfold startWorld. simpl. apply lookup_insert_eq.
Qed.

Lemma primaryAttempt_body (host : Host) (settings : Settings) (gid : string)
    (config : Config) :
  forall st w, sameBackend (initialLocals config) st -> registered gid w ->
    post (primaryAttempt host settings gid st)
         (passDecomposed host settings gid
            (Locals.currentFallbackModel (initialLocals config))
            (rateLimitMaxRetries settings) st w) w.
Proof. intros st w _ Hr. now apply primaryAttempt_decomposed. Qed.

Lemma fallbackAttempt_body (host : Host) (settings : Settings) (gid : string)
    (fallbackModel : FallbackModel) (st0 : Locals.t) :
  forall st w, sameBackend st0 st -> registered gid w ->
    post (fallbackAttempt host settings gid fallbackModel st)
         (passDecomposed host settings gid (Locals.currentFallbackModel st0)
            (maxRetries settings) st w) w.
Proof.
  intros st w Hsb Hr.
  replace (Locals.currentFallbackModel st0) with (Locals.currentFallbackModel st)
    by apply Hsb.
  now apply fallbackAttempt_decomposed.
Qed.

(** The primary loop up to a decisive attempt: [k] ordinary failures, then
    the pass [decisive]. *)
Lemma primary_loop_decided (host : Host) (settings : Settings) (config : Config)
    (registry : gmap string RetryContext) (k : nat) :
  Z.of_nat k < maxRetries settings ->
  (forall n, (n < k)%nat ->
             failsRetryably false (generationIdOf host config) (script host n)) ->
  exists st w,
    retryWhile settings (primaryAttempt host settings (generationIdOf host config))
      (loopFuel settings) (initialLocals config) (startWorld host config registry)
    = (step <- primaryAttempt host settings (generationIdOf host config) st ;;
       match step with
       | Continue st' =>
           retryWhile settings (primaryAttempt host settings (generationIdOf host config))
             (Z.to_nat (maxRetries settings) - k - 1) st'
       | Break st' => ret (inr st')
       | Return r => ret (inl r)
       end) w
    /\ sameBackend (initialLocals config) st /\ Locals.attempt st = Z.of_nat k
    /\ notAborted (generationIdOf host config) w
    /\ calls w = attemptCalls CallFn (-1) 0 k
    /\ delays w = map (fun i => calculateDelay (Z.of_nat i) settings false) (seq 1 k).
Proof.
  intros Hk Hfail. set (gid := generationIdOf host config).
  destruct (retryWhile_skips host settings gid (primaryAttempt host settings gid)
              (initialLocals config) (rateLimitMaxRetries settings)
              (primaryAttempt_body host settings gid config)
              k (S (Z.to_nat (maxRetries settings) - k - 1))
              (initialLocals config) (startWorld host config registry)
              (sameBackend_refl _) (startWorld_notAborted host config registry))
    as (st & w & Eq & Hsb & Hat & Hna & Hc & Hd); [exact Hfail | simpl; lia |].
  exists st, w. split; [|split; [exact Hsb|split; [exact Hat|split; [exact Hna|]]]].
  - unfold loopFuel.
    replace (Z.to_nat (maxRetries settings))
      with (k + S (Z.to_nat (maxRetries settings) - k - 1))%nat at 1 by lia.
    rewrite Eq. simpl.
    replace (Locals.attempt st <? maxRetries settings) with true
      by (symmetry; apply Z.ltb_lt; simpl in Hat; lia).
    reflexivity.
  - split; [exact Hc|]. rewrite Hd. simpl. apply map_ext. intros i. reflexivity.
Qed.

Lemma run_returns (host : Host) (settings : Settings) (config : Config) (isRaw : bool)
    (registry : gmap string RetryContext) (res : RetryResult) (w : World) :
  shouldRetryGeneration (generationIdOf host config) settings = true ->
  retryWhile settings (primaryAttempt host settings (generationIdOf host config))
    (loopFuel settings) (initialLocals config) (startWorld host config registry)
  = (Done (inl res), w) ->
  exists w', run host settings config isRaw registry = (Done res, w')
             /\ calls w' = calls w /\ delays w' = delays w.
Proof.
  intros Hs E. rewrite run_retried by assumption.
  unfold tryFinally, executeRetryLoop, retryLoops, bind. rewrite E. simpl.
  eexists. split; [reflexivity|]. split; reflexivity.
Qed.

Lemma fallbackCascade_skips (host : Host) (settings : Settings) (gid : string)
    (isRaw : bool) (skipped more : list FallbackModel) :
  Forall (fun fm => unusable fm = true) skipped ->
  forall i st w,
    exists w',
      fallbackCascade host settings gid isRaw i (skipped ++ more) st w
      = fallbackCascade host settings gid isRaw (i + Z.of_nat (length skipped)) more st w'
      /\ activeContexts w' = activeContexts w /\ calls w' = calls w
      /\ delays w' = delays w.
Proof.
  induction skipped as [|fm skipped IH]; intros Hsk i st w.
  - exists w. simpl. now rewrite Z.add_0_r.
  - apply Forall_cons in Hsk. destruct Hsk as [Hu Hsk].
    destruct (IH Hsk (i + 1) st (addNotices [WarnSkippingFallback i] w))
      as (w' & E & Ha & Hc & Hd).
    exists w'. split; [|split; [exact Ha|split; [exact Hc|]]].
    + simpl. rewrite Hu. unfold bind at 1. simpl. rewrite E. f_equal. lia.
    + rewrite Hd, delays_addNotices. apply app_nil_r.
Qed.

Lemma unusable_models (settings : Settings) :
  usableModels settings = [] -> fallbackModelsEnabled settings = true ->
  Forall (fun fm => unusable fm = true) (fallbackModels settings).
Proof.
  unfold usableModels. intros H Hen. rewrite Hen in H.
  induction (fallbackModels settings) as [|fm l IH]; [constructor|].
  destruct (unusable fm) eqn:Hu.
  - rewrite filter_cons_False in H by (rewrite Hu; discriminate). constructor; auto.
  - rewrite filter_cons_True in H by exact Hu. discriminate.
Qed.

Lemma run_breaks_without_fallback (host : Host) (settings : Settings) (config : Config)
    (isRaw : bool) (registry : gmap string RetryContext) (st : Locals.t) (w : World) :
  shouldRetryGeneration (generationIdOf host config) settings = true ->
  usableModels settings = [] ->
  retryWhile settings (primaryAttempt host settings (generationIdOf host config))
    (loopFuel settings) (initialLocals config) (startWorld host config registry)
  = (Done (inr st), w) ->
  exists w', run host settings config isRaw registry = (Done (failedResult st), w')
             /\ calls w' = calls w /\ delays w' = delays w.
Proof.
  intros Hs Hu E. rewrite run_retried by assumption.
  unfold tryFinally, executeRetryLoop, retryLoops. unfold bind at 1 2. rewrite E.
  destruct (fallbackModelsEnabled settings
            && bool_decide (0 < length (fallbackModels settings))%nat) eqn:Hen.
  - apply andb_true_iff in Hen. destruct Hen as [Hen _].
    destruct (fallbackCascade_skips host settings (generationIdOf host config) isRaw
                (fallbackModels settings) [] (unusable_models settings Hu Hen) 0 st w)
      as (w1 & Ec & _ & Hc & Hd).
    rewrite app_nil_r in Ec. rewrite Ec. simpl.
    destruct (showFailureToast settings); simpl;
      (eexists; split; [reflexivity|]; split; [exact Hc|]);
      unfold delays in *; simpl; rewrite ?omap_app; simpl; rewrite ?app_nil_r; exact Hd.
  - simpl. destruct (showFailureToast settings); simpl;
      (eexists; split; [reflexivity|]; split; [reflexivity|]);
      unfold delays; simpl; rewrite ?omap_app; simpl; rewrite ?app_nil_r; reflexivity.
Qed.

(** X10: the run retries through ordinary failures until an attempt
    succeeds. *)
Theorem retry_until_success (host : Host) (settings : Settings) (config : Config)
    (isRaw : bool) (registry : gmap string RetryContext) (k : nat) (v : Value) :
  shouldRetryGeneration (generationIdOf host config) settings = true ->
  Z.of_nat k < maxRetries settings ->
  (forall n, (n < k)%nat ->
             failsRetryably false (generationIdOf host config) (script host n)) ->
  noAbort (generationIdOf host config) (ep_events (script host k)) ->
  stalls (generationIdOf host config) (streamingTimeoutMs settings) None
         (ep_events (script host k)) = false ->
  firstSettle (ep_events (script host k)) = Some (Resolved v) ->
  acceptable host settings v = true ->
  exists w,
    run host settings config isRaw registry
    = (Done {| success := true; result := Some v; error := None;
               attempts := Z.of_nat k + 1; usedFallback := false;
               fallbackModel := None |}, w)
    /\ calls w = attemptCalls CallFn (-1) 0 (S k)
    /\ delays w = map (fun i => calculateDelay (Z.of_nat i) settings false) (seq 1 k).
Proof.
  intros Hs Hk Hfail Hq Hst Hfs Hv.
  destruct (primary_loop_decided host settings config registry k Hk Hfail)
    as (st & w & Eq & Hsb & Hat & Hna & Hc & Hd).
  assert (Hlen : length (calls w) = k) by (rewrite Hc; apply length_attemptCalls).
  destruct (succeeding_pass_outcome host settings (generationIdOf host config)
              (primaryAttempt host settings (generationIdOf host config))
              (initialLocals config) (rateLimitMaxRetries settings)
              (primaryAttempt_body host settings _ config) st w v Hsb Hna)
    as (w1 & E & Hc1 & Hd1); rewrite ?Hlen; try assumption.
  unfold bind in Eq. rewrite E in Eq. simpl in Eq.
  destruct (run_returns host settings config isRaw registry _ w1 Hs Eq)
    as (w2 & Hrun & Hc2 & Hd2).
  exists w2. split; [|split].
  - rewrite Hrun. unfold successResult. simpl. rewrite Hat.
    destruct Hsb as (_ & -> & -> & _). reflexivity.
  - rewrite Hc2, Hc1, Hc, attemptCalls_snoc. unfold callOf.
    destruct Hsb as (-> & _ & _ & _ & ->). rewrite Hat. reflexivity.
  - congruence.
Qed.

Lemma retry_until_success_witness :
  exists w,
    run (scriptedHost [[EvSettle (Rejected serverError)];
                       [EvToken "chat" 10; EvTick 20; EvSettle (Resolved (VString "hello"))]]
                      [])
        defaultSettings (request "chat" true) false ∅
    = (Done {| success := true; result := Some (VString "hello"); error := None;
               attempts := 2; usedFallback := false; fallbackModel := None |}, w)
    /\ delays w = [inject_Z 1000 * (3 # 2) ^ 0]%Q.
Proof.
  destruct (retry_until_success
              (scriptedHost [[EvSettle (Rejected serverError)];
                             [EvToken "chat" 10; EvTick 20;
                              EvSettle (Resolved (VString "hello"))]] [])
              defaultSettings (request "chat" true) false ∅ 1 (VString "hello"))
    as (w & Hrun & _ & Hd).
  - reflexivity.
  - simpl. lia.
  - intros n Hn. assert (n = 0%nat) as -> by lia.
    split; [repeat constructor; discriminate|]. split; [constructor|].
    exists serverError. repeat split.
  - repeat constructor; discriminate.
  - reflexivity.
  - reflexivity.
  - reflexivity.
  - exists w. split; [exact Hrun | exact Hd].
Defined.

(** X11: a failure that is not retryable ends the attempts on the backend
    at once. *)
Theorem non_retryable_failure_is_final (host : Host) (settings : Settings)
    (config : Config) (isRaw : bool) (registry : gmap string RetryContext)
    (k : nat) (e : Thrown) :
  shouldRetryGeneration (generationIdOf host config) settings = true ->
  Z.of_nat k < maxRetries settings ->
  (forall n, (n < k)%nat ->
             failsRetryably false (generationIdOf host config) (script host n)) ->
  noAbort (generationIdOf host config) (ep_events (script host k)) ->
  stalls (generationIdOf host config) (streamingTimeoutMs settings) None
         (ep_events (script host k)) = false ->
  firstSettle (ep_events (script host k)) = Some (Rejected e) ->
  isRetryableError e = false ->
  usableModels settings = [] ->
  exists w,
    run host settings config isRaw registry
    = (Done {| success := false; result := None; error := Some e;
               attempts := Z.of_nat k + 1; usedFallback := false;
               fallbackModel := None |}, w)
    /\ calls w = attemptCalls CallFn (-1) 0 (S k)
    /\ delays w = map (fun i => calculateDelay (Z.of_nat i) settings false) (seq 1 k).
Proof.
  intros Hs Hk Hfail Hq Hst Hfs Hre Hu.
  destruct (primary_loop_decided host settings config registry k Hk Hfail)
    as (st & w & Eq & Hsb & Hat & Hna & Hc & Hd).
  assert (Hlen : length (calls w) = k) by (rewrite Hc; apply length_attemptCalls).
  destruct (rejected_pass_outcome host settings (generationIdOf host config)
              (primaryAttempt host settings (generationIdOf host config))
              (initialLocals config) (rateLimitMaxRetries settings)
              (primaryAttempt_body host settings _ config) st w e Hsb Hna)
    as (w1 & E & Hc1 & Hd1); rewrite ?Hlen; try assumption.
  unfold bind in Eq. rewrite E in Eq. simpl in Eq.
  destruct (run_breaks_without_fallback host settings config isRaw registry _ w1 Hs Hu Eq)
    as (w2 & Hrun & Hc2 & Hd2).
  exists w2. split; [|split].
  - rewrite Hrun. unfold failedResult. simpl. rewrite Hat.
    destruct Hsb as (_ & -> & -> & _). reflexivity.
  - rewrite Hc2, Hc1, Hc, attemptCalls_snoc. unfold callOf.
    destruct Hsb as (-> & _ & _ & _ & ->). rewrite Hat. reflexivity.
  - congruence.
Qed.

Lemma non_retryable_failure_is_final_witness :
  exists w,
    run (scriptedHost [[EvSettle (Rejected notFound)];
                       [EvSettle (Resolved (VString "hello"))]] [])
        defaultSettings (request "chat" false) false ∅
    = (Done {| success := false; result := None; error := Some notFound;
               attempts := 1; usedFallback := false; fallbackModel := None |}, w)
    /\ delays w = [].
Proof.
  destruct (non_retryable_failure_is_final
              (scriptedHost [[EvSettle (Rejected notFound)];
                             [EvSettle (Resolved (VString "hello"))]] [])
              defaultSettings (request "chat" false) false ∅ 0 notFound)
    as (w & Hrun & _ & Hd).
  - reflexivity.
  - simpl. lia.
  - intros n Hn. lia.
  - repeat constructor; discriminate.
  - reflexivity.
  - reflexivity.
  - reflexivity.
  - reflexivity.
  - exists w. split; [exact Hrun | exact Hd].
Defined.



Lemma primary_loop_exhausted (host : Host) (settings : Settings) (config : Config)
    (registry : gmap string RetryContext) :
  1 <= maxRetries settings ->
  (forall n, (n < Z.to_nat (maxRetries settings))%nat ->
             failsRetryably false (generationIdOf host config) (script host n)) ->
  exists st w,
    retryWhile settings (primaryAttempt host settings (generationIdOf host config))
      (loopFuel settings) (initialLocals config) (startWorld host config registry)
    = (Done (inr st), w)
    /\ sameBackend (initialLocals config) st
    /\ notAborted (generationIdOf host config) w
    /\ calls w = attemptCalls CallFn (-1) 0 (Z.to_nat (maxRetries settings))
    /\ delays w = map (fun i => calculateDelay (Z.of_nat i) settings false)
                      (seq 1 (Z.to_nat (maxRetries settings) - 1)).
Proof.
  intros Hm Hfail.
  destruct (primary_loop_decided host settings config registry
              (Z.to_nat (maxRetries settings) - 1)) as (st & w & Eq & Hsb & Hat & Hna & Hc & Hd).
  { lia. }
  { intros n Hn. apply Hfail. lia. }
  assert (Hlen : length (calls w) = (Z.to_nat (maxRetries settings) - 1)%nat)
    by (rewrite Hc; apply length_attemptCalls).
  destruct (failing_pass_outcome host settings (generationIdOf host config)
              (primaryAttempt host settings (generationIdOf host config))
              (initialLocals config) (rateLimitMaxRetries settings)
              (primaryAttempt_body host settings _ config) st w Hsb Hna)
    as (e & w1 & E & Hna1 & Hc1 & Hd1).
  { rewrite Hlen. apply Hfail. lia. }
  replace (maxRetries settings <=? Locals.attempt st + 1) with true in *
    by (symmetry; apply Z.leb_le; lia).
  unfold bind in Eq. rewrite E in Eq. simpl in Eq.
  exists (afterFailure e st), w1. split; [exact Eq|]. split.
  { destruct Hsb as (?&?&?&?&?). now repeat split. }
  split; [exact Hna1|]. split.
  - rewrite Hc1, Hc. unfold callOf. destruct Hsb as (-> & _ & _ & _ & ->). rewrite Hat.
    replace (Z.to_nat (maxRetries settings))
      with (S (Z.to_nat (maxRetries settings) - 1)) at 3 by lia.
    rewrite attemptCalls_snoc. reflexivity.
  - rewrite Hd1, app_nil_r. exact Hd.
Qed.

Lemma run_cascade_returns (host : Host) (settings : Settings) (config : Config)
    (isRaw : bool) (registry : gmap string RetryContext) (st : Locals.t)
    (res : RetryResult) (w w1 : World) :
  shouldRetryGeneration (generationIdOf host config) settings = true ->
  retryWhile settings (primaryAttempt host settings (generationIdOf host config))
    (loopFuel settings) (initialLocals config) (startWorld host config registry)
  = (Done (inr st), w) ->
  fallbackModelsEnabled settings = true ->
  (0 < length (fallbackModels settings))%nat ->
  fallbackCascade host settings (generationIdOf host config) isRaw 0
    (fallbackModels settings) st w = (Done (inl res), w1) ->
  exists w', run host settings config isRaw registry = (Done res, w')
             /\ calls w' = calls w1 /\ delays w' = delays w1.
Proof.
  intros Hs E Hen Hlen Ec. rewrite run_retried by assumption.
  unfold tryFinally, executeRetryLoop, retryLoops. unfold bind at 1 2. rewrite E.
  rewrite Hen. rewrite bool_decide_eq_true_2 by exact Hlen. cbn [andb].
  rewrite Ec. simpl. eexists. split; [reflexivity|]. split; reflexivity.
Qed.

(** The cascade from a descriptor whose first call succeeds. *)
Lemma fallbackCascade_succeeds (host : Host) (settings : Settings) (gid : string)
    (isRaw : bool) (i : Z) (fallbackModel : FallbackModel) (rest : list FallbackModel)
    (st : Locals.t) (w : World) (v : Value) :
  1 <= maxRetries settings -> notAborted gid w ->
  unusable fallbackModel = false ->
  noAbort gid (ep_events (script host (length (calls w)))) ->
  stalls gid (streamingTimeoutMs settings) None
         (ep_events (script host (length (calls w)))) = false ->
  firstSettle (ep_events (script host (length (calls w)))) = Some (Resolved v) ->
  acceptable host settings v = true ->
  exists w',
    fallbackCascade host settings gid isRaw i (fallbackModel :: rest) st w
    = (Done (inl {| success := true; result := Some v; error := None; attempts := 1;
                    usedFallback := true; fallbackModel := Some fallbackModel |}), w')
    /\ calls w'
       = calls w
         ++ [{| call_fn := if isRaw
                           then CallGenerateRaw
                                  (fallbackConfigOf (Locals.currentConfig st) fallbackModel)
                           else CallGenerate
                                  (fallbackConfigOf (Locals.currentConfig st) fallbackModel);
                call_fallbackIndex := i; call_attempt := 1 |}]
    /\ delays w' = delays w.
Proof.
  intros Hm Hna Hu Hq Hst Hfs Hv. cbn [fallbackCascade]. rewrite Hu.
  unfold bind at 1.
  assert (Hwhen : forall b n, delayOf n = None ->
            exists w0, when b (notify n) w = (Done tt, w0)
                       /\ activeContexts w0 = activeContexts w /\ calls w0 = calls w
                       /\ delays w0 = delays w).
  { intros b n Hn. destruct b; simpl; eexists; (split; [reflexivity|]); repeat split.
    unfold delays. simpl. rewrite omap_app. simpl. rewrite Hn. apply app_nil_r. }
  destruct (Hwhen (showRetryToast settings) (ToastTryingFallback (fm_model fallbackModel))
              eq_refl) as (w0 & -> & Ha0 & Hc0 & Hd0).
  match goal with |- context [retryWhile _ ?b _ ?s] => set (body := b); set (st1 := s) end.
  destruct (succeeding_pass_outcome host settings gid body st1 (maxRetries settings)
              (fallbackAttempt_body host settings gid fallbackModel st1) st1 w0 v
              (sameBackend_refl _)) as (w' & E & Hc' & Hd');
    rewrite ?Hc0; try assumption.
  { destruct Hna as (c & Hc & Hab). exists c. now rewrite Ha0. }
  exists w'. split; [|split; [rewrite Hc', Hc0; reflexivity | congruence]].
  unfold bind. unfold loopFuel.
  replace (Z.to_nat (maxRetries settings)) with (S (Z.to_nat (maxRetries settings) - 1))
    by lia.
  cbn [retryWhile]. 
  replace (Locals.attempt st1 <? maxRetries settings) with true
    by (symmetry; apply Z.ltb_lt; simpl; lia).
  unfold bind. rewrite E. reflexivity.
Qed.

(** X13: when the primary backend is exhausted the first usable fallback
    descriptor takes over. *)
Theorem first_usable_fallback_takes_over (host : Host) (settings : Settings)
    (config : Config) (isRaw : bool) (registry : gmap string RetryContext)
    (skipped rest : list FallbackModel) (fallbackModel : FallbackModel) (v : Value) :
  shouldRetryGeneration (generationIdOf host config) settings = true ->
  1 <= maxRetries settings ->
  (forall n, (n < Z.to_nat (maxRetries settings))%nat ->
             failsRetryably false (generationIdOf host config) (script host n)) ->
  fallbackModelsEnabled settings = true ->
  fallbackModels settings = skipped ++ fallbackModel :: rest ->
  Forall (fun fm => unusable fm = true) skipped ->
  unusable fallbackModel = false ->
  noAbort (generationIdOf host config)
          (ep_events (script host (Z.to_nat (maxRetries settings)))) ->
  stalls (generationIdOf host config) (streamingTimeoutMs settings) None
         (ep_events (script host (Z.to_nat (maxRetries settings)))) = false ->
  firstSettle (ep_events (script host (Z.to_nat (maxRetries settings))))
  = Some (Resolved v) ->
  acceptable host settings v = true ->
  exists w,
    run host settings config isRaw registry
    = (Done {| success := true; result := Some v; error := None; attempts := 1;
               usedFallback := true; fallbackModel := Some fallbackModel |}, w)
    /\ calls w
       = attemptCalls CallFn (-1) 0 (Z.to_nat (maxRetries settings))
         ++ [{| call_fn := fallbackCall config isRaw fallbackModel;
                call_fallbackIndex := Z.of_nat (length skipped);
                call_attempt := 1 |}].
Proof.
  intros Hs Hm Hfail Hen Hmodels Hsk Hu Hq Hst Hfs Hv.
  destruct (primary_loop_exhausted host settings config registry Hm Hfail)
    as (st & w & E & Hsb & Hna & Hc & _).
  destruct (fallbackCascade_skips host settings (generationIdOf host config) isRaw skipped
              (fallbackModel :: rest) Hsk 0 st w) as (w1 & Ec & Ha1 & Hc1 & _).
  assert (Hlen : length (calls w1) = Z.to_nat (maxRetries settings))
    by (rewrite Hc1, Hc; apply length_attemptCalls).
  destruct (fallbackCascade_succeeds host settings (generationIdOf host config) isRaw
              (0 + Z.of_nat (length skipped)) fallbackModel rest st w1 v Hm)
    as (w2 & Ec2 & Hc2 & _); rewrite ?Hlen; try assumption.
  { destruct Hna as (c & Hc' & Hab). exists c. now rewrite Ha1. }
  rewrite <- Hmodels in Ec. rewrite Ec2 in Ec.
  destruct (run_cascade_returns host settings config isRaw registry st
              {| success := true; result := Some v; error := None; attempts := 1;
                 usedFallback := true; fallbackModel := Some fallbackModel |}
              w w2 Hs E Hen)
    as (w3 & Hrun & Hc3 & _); [rewrite Hmodels, length_app; simpl; lia | exact Ec |].
  exists w3. split; [exact Hrun|].
  rewrite Hc3, Hc2, Hc1, Hc. unfold fallbackCall.
  destruct Hsb as (_ & _ & _ & -> & _). reflexivity.
Qed.

Lemma first_usable_fallback_takes_over_witness :
  exists w,
    run (scriptedHost [[EvSettle (Rejected serverError)];
                       [EvSettle (Rejected serverError)];
                       [EvSettle (Resolved (VString "from backup"))]] [])
        (cascadeSettings [brokenModel; backupModel]) (request "chat" false) true ∅
    = (Done {| success := true; result := Some (VString "from backup"); error := None;
               attempts := 1; usedFallback := true; fallbackModel := Some backupModel |}, w)
    /\ length (calls w) = 3%nat.
Proof.
  destruct (first_usable_fallback_takes_over
              (scriptedHost [[EvSettle (Rejected serverError)];
                             [EvSettle (Rejected serverError)];
                             [EvSettle (Resolved (VString "from backup"))]] [])
              (cascadeSettings [brokenModel; backupModel]) (request "chat" false) true ∅
              [brokenModel] [] backupModel (VString "from backup"))
    as (w & Hrun & Hc).
  - reflexivity.
  - simpl. lia.
  - intros n Hn. simpl in Hn.
    assert (n = 0 \/ n = 1)%nat as [-> | ->] by lia;
      (split; [repeat constructor; discriminate|]; split; [constructor|];
       exists serverError; repeat split).
  - reflexivity.
  - reflexivity.
  - repeat constructor.
  - reflexivity.
  - repeat constructor; discriminate.
  - reflexivity.
  - reflexivity.
  - reflexivity.
  - exists w. split; [exact Hrun | now rewrite Hc].
Defined.

(** ** The filter gate *)

Lemma shouldRetryGeneration_filtered (generationId : string) (settings : Settings) :
  filterEnabled settings = true ->
  (shouldRetryGeneration generationId settings = false
   <-> (filterMode settings = blacklist
        /\ generationId ∈ filterGenerationIds settings)
       \/ (filterMode settings = whitelist
           /\ generationId ∉ filterGenerationIds settings))
  /\ (shouldRetryGeneration generationId settings = true
      <-> (filterMode settings = whitelist
           /\ generationId ∈ filterGenerationIds settings)
          \/ (filterMode settings = blacklist
              /\ generationId ∉ filterGenerationIds settings)).
Proof.
  intros Hen. unfold shouldRetryGeneration. rewrite Hen. simpl.
  destruct (filterMode settings);
    destruct (decide (generationId ∈ filterGenerationIds settings)) as [Hin|Hout];
    rewrite ?(bool_decide_eq_true_2 _ Hin), ?(bool_decide_eq_false_2 _ Hout); simpl;
    split; split; intros H; try discriminate; try reflexivity; auto;
    destruct H as [[H1 H2] | [H1 H2]]; try discriminate; contradiction.
Qed.

(** C7: with id filtering enabled, a blacklisted id and an id missing from
    the whitelist get one plain call of the caller's function: its
    settlement is returned as it is with [attempts = 1] and no fallback,
    no context is registered, nothing is announced and no delay is taken
    (and the run stays pending if the call never settles).  Ids on the
    whitelist, and ids not on the blacklist, are retried: after [k]
    ordinary retryable failures ([k < maxRetries]) a call that resolves
    with acceptable content ends the run in success with
    [attempts = k + 1] after [k + 1] calls of the caller's function; and
    when every call fails in an ordinary retryable way the run makes all
    [maxRetries] attempts, then those of the usable fallback descriptors,
    and fails. *)
Theorem filtered_ids_get_one_plain_call (host : Host) (settings : Settings)
    (config : Config) (isRaw : bool) (registry : gmap string RetryContext) :
  filterEnabled settings = true ->
  ((filterMode settings = blacklist
    /\ generationIdOf host config ∈ filterGenerationIds settings)
   \/ (filterMode settings = whitelist
       /\ generationIdOf host config ∉ filterGenerationIds settings) ->
   fst (run host settings config isRaw registry)
   = match firstSettle (ep_events (script host 0)) with
     | Some o => Done (plainResult o)
     | None => Pending
     end
   /\ calls (snd (run host settings config isRaw registry))
      = [{| call_fn := CallFn; call_fallbackIndex := -1; call_attempt := 1 |}]
   /\ notices (snd (run host settings config isRaw registry)) = []
   /\ failures (snd (run host settings config isRaw registry)) = []
   /\ forall g, is_Some (activeContexts (snd (run host settings config isRaw registry)) !! g)
                <-> is_Some (registry !! g))
  /\ ((filterMode settings = whitelist
       /\ generationIdOf host config ∈ filterGenerationIds settings)
      \/ (filterMode settings = blacklist
          /\ generationIdOf host config ∉ filterGenerationIds settings) ->
      (forall (k : nat) (v : Value),
         Z.of_nat k < maxRetries settings ->
         (forall n, (n < k)%nat ->
                    failsRetryably false (generationIdOf host config) (script host n)) ->
         noAbort (generationIdOf host config) (ep_events (script host k)) ->
         stalls (generationIdOf host config) (streamingTimeoutMs settings) None
                (ep_events (script host k)) = false ->
         firstSettle (ep_events (script host k)) = Some (Resolved v) ->
         acceptable host settings v = true ->
         exists w,
           run host settings config isRaw registry
           = (Done {| success := true; result := Some v; error := None;
                      attempts := Z.of_nat k + 1; usedFallback := false;
                      fallbackModel := None |}, w)
           /\ calls w = attemptCalls CallFn (-1) 0 (S k))
      /\ (1 <= maxRetries settings ->
          (forall n, failsRetryably false (generationIdOf host config) (script host n)) ->
          exists res w,
            run host settings config isRaw registry = (Done res, w)
            /\ success res = false
            /\ calls w
               = attemptCalls CallFn (-1) 0 (Z.to_nat (maxRetries settings))
                 ++ (if fallbackModelsEnabled settings
                     then cascadeCalls config isRaw (Z.to_nat (maxRetries settings)) 0
                            (fallbackModels settings)
                     else []))).
Proof.
  intros Hen.
  destruct (shouldRetryGeneration_filtered (generationIdOf host config) settings Hen)
    as [Hskip Hgo].
  split.
  - intros H. apply Hskip in H.
    unfold run, executeWithRetry. rewrite H. simpl.
    unfold passThrough, bind, nextEpisode, update. simpl.
    match goal with |- context [awaitOperation ?evs ?w] =>
      destruct (awaitOperation_spec evs w) as (Hr & (Hc & Hf & Hreg) & Hn);
      destruct (awaitOperation evs w) as [[o| |] w'] end; simpl in *;
      destruct (firstSettle (ep_events (script host 0))) as [o'|]; try discriminate.
    + injection Hr as ->. destruct o'; simpl; auto.
    + auto.
  - intros H. apply Hgo in H. split.
    + intros k v Hk Hfail Hq Hst Hfs Hv.
      destruct (primary_loop_decided host settings config registry k Hk Hfail)
        as (st & w & Eq & Hsb & Hat & Hna & Hc & _).
      assert (Hlen : length (calls w) = k) by (rewrite Hc; apply length_attemptCalls).
      destruct (succeeding_pass_outcome host settings (generationIdOf host config)
                  (primaryAttempt host settings (generationIdOf host config))
                  (initialLocals config) (rateLimitMaxRetries settings)
                  (primaryAttempt_body host settings _ config) st w v Hsb Hna)
        as (w1 & E & Hc1 & _); rewrite ?Hlen; try assumption.
      unfold bind in Eq. rewrite E in Eq. simpl in Eq.
      destruct (run_returns host settings config isRaw registry _ w1 H Eq)
        as (w2 & Hrun & Hc2 & _).
      exists w2. split.
      * rewrite Hrun. unfold successResult. simpl. rewrite Hat.
        destruct Hsb as (_ & -> & -> & _). reflexivity.
      * rewrite Hc2, Hc1, Hc, attemptCalls_snoc. unfold callOf.
        destruct Hsb as (-> & _ & _ & _ & ->). rewrite Hat. reflexivity.
    + intros Hm Hfail.
      destruct (run_always_failing host settings config isRaw registry false Hm Hm H)
        as (res & w & Hrun & Hs & Hc & _).
      { intros n. destruct (Hfail n) as (Hq & Hd & e & Hfs & Hre & Hrl).
        split; [now apply raceFails_ordinary with e | assumption]. }
      rewrite Z.min_id in Hc. exists res, w. auto.
Qed.

Lemma filtered_ids_get_one_plain_call_witness :
  fst (run (hostOf [EvSettle (Rejected serverError)])
           (filterSettings blacklist ["background-summary"])
           (request "background-summary" false) false ∅)
  = Done (plainResult (Rejected serverError))
  /\ exists w,
       run (scriptedHost [[EvSettle (Rejected serverError)];
                          [EvSettle (Resolved (VString "hello"))]] [])
           (filterSettings whitelist ["user-chat"])
           (request "user-chat" false) false ∅
       = (Done {| success := true; result := Some (VString "hello"); error := None;
                  attempts := 2; usedFallback := false; fallbackModel := None |}, w)
       /\ length (calls w) = 2%nat.
Proof.
  split.
  - apply (proj1 (filtered_ids_get_one_plain_call
                    (hostOf [EvSettle (Rejected serverError)])
                    (filterSettings blacklist ["background-summary"])
                    (request "background-summary" false) false ∅ eq_refl)).
    left. split; [reflexivity|]. simpl. apply list_elem_of_here.
  - destruct (proj1 (proj2 (filtered_ids_get_one_plain_call
                    (scriptedHost [[EvSettle (Rejected serverError)];
                                   [EvSettle (Resolved (VString "hello"))]] [])
                    (filterSettings whitelist ["user-chat"])
                    (request "user-chat" false) false ∅ eq_refl)
                (or_introl (conj eq_refl (list_elem_of_here _ _))))
              1%nat (VString "hello"))
      as (w & Hrun & Hc).
    + simpl. lia.
    + intros n Hn. assert (n = 0%nat) as -> by lia.
      split; [repeat constructor; discriminate|]. split; [constructor|].
      exists serverError. repeat split.
    + repeat constructor; discriminate.
    + reflexivity.
    + reflexivity.
    + reflexivity.
    + exists w. split; [exact Hrun | now rewrite Hc].
Defined.
